(** * achieve_apy_goals: convergence of lending pools to target utilization

    A shallow embedding of [script/lending/achieve_apy_goals.py] and the
    properties of its specification.

    - Python [int] is [Z]; Python [float] is IEEE-754 binary64, embedded
      as [spec_float] with the operations of [SpecFloat] at precision 53
      and maximal exponent 1024 (round to nearest, ties to even).
    - Python exceptions are values of [exn]; a computation that may raise
      returns [result].
    - The external [cast] tool is an oracle over a world state; every
      process the script spawns is recorded in a trace of events.
    - The accuracy of the calculation is stated over the rational
      numbers the floats stand for ([Exact.value]). *)

From Stdlib Require Import ZArith List String Ascii Bool Lia.
From Stdlib Require Import QArith Qabs Qround Qpower Qminmax Lqa.
From Stdlib Require Import Floats.SpecFloat.
From stdpp Require Import base option list strings gmap pretty.

Local Open Scope Z_scope.

(** ** Python exceptions and fallible computations *)

Inductive exn_class :=
  | OverflowError
  | ZeroDivisionError
  | ValueError
  | TypeError
  | IndexError
  | KeyError
  | CalledProcessError
  | TimeoutExpired
  | OSError.

Record exn := Raise { exn_cls : exn_class; exn_msg : string }.

Inductive result (A : Type) :=
  | Ok (a : A)
  | Err (e : exn).
Arguments Ok {A} a.
Arguments Err {A} e.

Definition rbind {A B} (r : result A) (k : A -> result B) : result B :=
  match r with
  | Ok a => k a
  | Err e => Err e
  end.

Declare Scope result_scope.
Delimit Scope result_scope with result.
Notation "x <-! c ;; k" := (rbind c (fun x => k))
  (at level 100, c at next level, right associativity) : result_scope.

(** ** Python numbers *)

Module Py.

Definition prec : Z := 53.
Definition emax : Z := 1024.

Abbreviation float := spec_float.

(** A value that is an [int] or a [float], as [max(0, x)] returns. *)
Inductive num :=
  | Int (z : Z)
  | Float (f : float).

Definition fzero : float := S754_zero false.

(** An integer as an unrounded binary fraction with exponent 0. *)
Definition exact (z : Z) : float :=
  match z with
  | Z0 => S754_zero false
  | Zpos p => S754_finite false p 0
  | Zneg p => S754_finite true p 0
  end.

Definition is_inf (f : float) : bool :=
  match f with
  | S754_infinity _ => true
  | _ => false
  end.

Definition is_zero (f : float) : bool :=
  match f with
  | S754_zero _ => true
  | _ => false
  end.

(** [float(z)]: the nearest double, [OverflowError] beyond the range. *)
Definition float_of_int (z : Z) : result float :=
  let f := binary_normalize prec emax z 0 false in
  if is_inf f
  then Err (Raise OverflowError "int too large to convert to float")
  else Ok f.

(** [a / b] on two ints: the correctly rounded quotient. *)
Definition int_truediv (a b : Z) : result float :=
  if b =? 0 then Err (Raise ZeroDivisionError "division by zero")
  else
    let f := SFdiv prec emax (exact a) (exact b) in
    if is_inf f
    then Err (Raise OverflowError "integer division result too large for a float")
    else Ok f.

(** [x / y] on two floats. *)
Definition float_truediv (x y : float) : result float :=
  if is_zero y then Err (Raise ZeroDivisionError "float division by zero")
  else Ok (SFdiv prec emax x y).

Definition float_mul (x y : float) : float := SFmul prec emax x y.
Definition float_sub (x y : float) : float := SFsub prec emax x y.

(** [x > 0] for a float [x] and the int [0]. *)
Definition float_gt0 (x : float) : bool := SFltb fzero x.

(** [x >= y] on two floats. *)
Definition float_ge (x y : float) : bool := SFleb y x.

(** [x / n], [x * n] for a float and an int: the int is converted first. *)
Definition float_div_int (x : float) (n : Z) : result float :=
  (y <-! float_of_int n ;; float_truediv x y)%result.

Definition float_mul_int (x : float) (n : Z) : result float :=
  (y <-! float_of_int n ;; Ok (float_mul x y))%result.

(** [int(x)]: truncation toward zero. *)
Definition int_of_float (f : float) : result Z :=
  match f with
  | S754_zero _ => Ok 0
  | S754_finite s m e =>
      let a := match e with
               | Zneg k => Z.shiftr (Zpos m) (Zpos k)
               | _ => Z.shiftl (Zpos m) e
               end in
      Ok (if s then - a else a)
  | S754_infinity _ =>
      Err (Raise OverflowError "cannot convert float infinity to integer")
  | S754_nan =>
      Err (Raise ValueError "cannot convert float NaN to integer")
  end.

(** [max(0, x)] for a float [x]: the first maximal item, so the int
    [0] unless [x > 0]. *)
Definition max0 (x : float) : num :=
  if float_gt0 x then Float x else Int 0.

(** [x * n] where [x] is an int or a float and [n] an int. *)
Definition num_mul_int (x : num) (n : Z) : result num :=
  match x with
  | Int z => Ok (Int (z * n))
  | Float f => (r <-! float_mul_int f n ;; Ok (Float r))%result
  end.

Definition int_of_num (x : num) : result Z :=
  match x with
  | Int z => Ok z
  | Float f => int_of_float f
  end.

(** A decimal literal [n / 10^k] of the source text, as the parser
    rounds it. *)
Definition literal (n : Z) (k : N) : float :=
  SFdiv prec emax (exact n) (exact (10 ^ Z.of_N k)).

End Py.

(** ** The convergence calculation (lines 97-109 of [main]) *)

Record plan := Plan {
  total_liq_float : Py.float;
  total_borr_float : Py.float;
  current_util : Py.num;
  target_borr : Py.float;
  additional_borrow : Py.num;
  additional_borrow_raw : Z
}.

Definition compute_plan (total_liq total_borr : Z) (util : Py.float) (decimals : N)
  : result plan :=
  (let scale := 10 ^ Z.of_N decimals in
   total_liq_float <-! Py.int_truediv total_liq scale ;;
   total_borr_float <-! Py.int_truediv total_borr scale ;;
   current_util <-!
     (if Py.float_gt0 total_liq_float
      then q <-! Py.float_truediv total_borr_float total_liq_float ;;
           p <-! Py.float_mul_int q 100 ;;
           Ok (Py.Float p)
      else Ok (Py.Int 0)) ;;
   ratio <-! Py.float_div_int util 100 ;;
   let target_borr := Py.float_mul total_liq_float ratio in
   let additional_borrow := Py.max0 (Py.float_sub target_borr total_borr_float) in
   scaled <-! Py.num_mul_int additional_borrow scale ;;
   additional_borrow_raw <-! Py.int_of_num scaled ;;
   Ok (Plan total_liq_float total_borr_float current_util target_borr
            additional_borrow additional_borrow_raw))%result.

(** ** The calculation when [decimals] is negative

    [10 ** decimals] is then not an int but a float, the one
    [pow(10.0, decimals)] of the C library gives (an [OverflowError]
    where [pow] reports a range error), and the amounts are divided and
    multiplied as floats. *)

Module Scaled.

(** [a / y] for an int and a float: the int is converted first. *)
Definition int_div_float (a : Z) (y : Py.float) : result Py.float :=
  (x <-! Py.float_of_int a ;; Py.float_truediv x y)%result.

(** [x * y] where [x] is an int or a float and [y] a float. *)
Definition num_mul_float (x : Py.num) (y : Py.float) : result Py.float :=
  match x with
  | Py.Int z => (f <-! Py.float_of_int z ;; Ok (Py.float_mul f y))%result
  | Py.Float f => Ok (Py.float_mul f y)
  end.

Definition compute_plan (total_liq total_borr : Z) (util scale : Py.float)
  : result plan :=
  (total_liq_float <-! int_div_float total_liq scale ;;
   total_borr_float <-! int_div_float total_borr scale ;;
   current_util <-!
     (if Py.float_gt0 total_liq_float
      then q <-! Py.float_truediv total_borr_float total_liq_float ;;
           p <-! Py.float_mul_int q 100 ;;
           Ok (Py.Float p)
      else Ok (Py.Int 0)) ;;
   ratio <-! Py.float_div_int util 100 ;;
   let target_borr := Py.float_mul total_liq_float ratio in
   let additional_borrow := Py.max0 (Py.float_sub target_borr total_borr_float) in
   scaled <-! num_mul_float additional_borrow scale ;;
   additional_borrow_raw <-! Py.int_of_float scaled ;;
   Ok (Plan total_liq_float total_borr_float current_util target_borr
            additional_borrow additional_borrow_raw))%result.

End Scaled.

(** [10 ** decimals]: the int [10^decimals], or for [decimals < 0] what
    the float power [pow] evaluates to. *)
Definition pow10 (pow : result Py.float) (decimals : Z) : result Py.num :=
  if 0 <=? decimals then Ok (Py.Int (10 ^ decimals))
  else (f <-! pow ;; Ok (Py.Float f))%result.

(** The calculation for any int [decimals]. *)
Definition compute_plan_any (pow : result Py.float)
    (total_liq total_borr : Z) (util : Py.float) (decimals : Z) : result plan :=
  (scale <-! pow10 pow decimals ;;
   match scale with
   | Py.Int _ => compute_plan total_liq total_borr util (Z.to_N decimals)
   | Py.Float f => Scaled.compute_plan total_liq total_borr util f
   end)%result.

(** What [10.0 ** d] can be for [d < 0]: [+0.0] on underflow, a
    positive float, or an [OverflowError]. *)
Definition pow_outcome (pow : result Py.float) : Prop :=
  match pow with
  | Ok (S754_zero false) | Ok (S754_finite false _ _) => True
  | Ok _ => False
  | Err e => exn_cls e = OverflowError
  end.

(** The power correctly rounded, as on the usual platforms. *)
Definition pow10_rounded (decimals : Z) : result Py.float :=
  Ok (Py.literal 1 (Z.to_N (- decimals))).

(** ** Text helpers of the standard library

    A text is a string of characters below 256. *)

Module Str.

(** [p in s] on strings. *)
Fixpoint contains (p s : string) : bool :=
  String.prefix p s ||
  match s with
  | EmptyString => false
  | String _ s' => contains p s'
  end.

(** [s.split(c)]: the fields between occurrences of [c]; never empty. *)
Fixpoint split (c : ascii) (s : string) : list string :=
  match s with
  | EmptyString => [EmptyString]
  | String a s' =>
      if Ascii.eqb a c then EmptyString :: split c s'
      else match split c s' with
           | h :: t => String a h :: t
           | [] => [String a EmptyString]
           end
  end.

Definition newline : ascii := Ascii.ascii_of_nat 10.

(** Whitespace as [str.split()] and [str.strip()] see it: of the
    characters below 256, the ASCII blanks, U+0085 and U+00A0. *)
Definition is_space (a : ascii) : bool :=
  let n := Ascii.nat_of_ascii a in
  ((9 <=? n) && (n <=? 13) || (28 <=? n) && (n <=? 32)
   || (n =? 133) || (n =? 160))%nat.

Fixpoint drop_spaces (s : string) : string :=
  match s with
  | EmptyString => EmptyString
  | String a s' => if is_space a then drop_spaces s' else s
  end.

Fixpoint take_word (s : string) : string :=
  match s with
  | EmptyString => EmptyString
  | String a s' => if is_space a then EmptyString else String a (take_word s')
  end.

(** [s.strip().split()[0]]: the first run of non-blank characters. *)
Definition first_field (s : string) : result string :=
  match take_word (drop_spaces s) with
  | EmptyString => Err (Raise IndexError "list index out of range")
  | w => Ok w
  end.

Definition digit_of (a : ascii) : option Z :=
  let n := Ascii.nat_of_ascii a in
  if ((48 <=? n) && (n <=? 57))%nat then Some (Z.of_nat n - 48) else None.

(** Decimal digits, single underscores allowed between two digits. *)
Fixpoint digits (s : string) (acc : Z) (after_digit : bool) : option Z :=
  match s with
  | EmptyString => if after_digit then Some acc else None
  | String a s' =>
      match digit_of a with
      | Some d => digits s' (10 * acc + d) true
      | None =>
          if Ascii.eqb a "_" && after_digit then digits s' acc false else None
      end
  end.

(** [int(s)] on a field without blanks. *)
Definition to_int (s : string) : result Z :=
  let r := match s with
           | String "+" r => digits r 0 false
           | String "-" r => Z.opp <$> digits r 0 false
           | _ => digits s 0 false
           end in
  match r with
  | Some z => Ok z
  | None => Err (Raise ValueError "invalid literal for int() with base 10")
  end.

(** No character of [p] is [c]. *)
Fixpoint avoids (c : ascii) (p : string) : bool :=
  match p with
  | EmptyString => true
  | String a p' => negb (Ascii.eqb a c) && avoids c p'
  end.

End Str.

(** ** Configuration *)

Definition LENDING_MANAGER : string := "0xbe2e1Fe2bdf3c4AC29DEc7d09d0E26F06f29585c".
Definition RPC_URL : string := "https://sepolia.base.org".

Record config := Config {
  util : Py.float;
  decimals : N;
  status : string
}.

(** The [targets] dict, in insertion order. *)
Definition targets : list (string * config) :=
  [ ("WBTC",   Config (Py.literal 2091 2) 8  "achieved");
    ("WETH",   Config (Py.literal 3019 2) 18 "pending");
    ("IDRX",   Config (Py.literal 5914 2) 6  "pending");
    ("GOLD",   Config (Py.literal 1210 2) 6  "pending");
    ("SILVER", Config (Py.literal 5418 2) 6  "pending");
    ("GOOGL",  Config (Py.literal 2554 2) 6  "pending");
    ("NVDA",   Config (Py.literal 3023 2) 6  "pending");
    ("AAPL",   Config (Py.literal 1377 2) 6  "pending");
    ("MNT",    Config (Py.literal 2509 2) 6  "pending") ].

(** ** Outcome records and the summary *)

Inductive outcome := success | failed | no_action | error.

Definition record : Type := string * outcome * Py.num.

Inductive summary_line :=
  | Borrowed (asset : string) (amount : Py.num)
  | FailedToBorrow (asset : string) (amount : Py.num)
  | AlreadyAtTarget (asset : string)
  | ErrorOccurred (asset : string).

Definition summary (results : list record) : list summary_line :=
  map (fun '(asset, status, amount) =>
         match status with
         | success => Borrowed asset amount
         | failed => FailedToBorrow asset amount
         | no_action => AlreadyAtTarget asset
         | error => ErrorOccurred asset
         end) results.

Definition line_asset (l : summary_line) : string :=
  match l with
  | Borrowed a _ | FailedToBorrow a _ | AlreadyAtTarget a | ErrorOccurred a => a
  end.

(** ** The transport boundary and the run *)

(** What the script does at its boundary: a [cast] process started with
    the given arguments, and an entry into [borrow_asset]. *)
Inductive event :=
  | Spawn (argv : list string)
  | CallBorrow (token_address : string) (amount : Z).

Definition is_spawn (e : event) : bool :=
  match e with Spawn _ => true | CallBorrow _ _ => false end.

Module Script.

Section Run.

(** The world the [cast] tool talks to, and the two ways the script
    runs it: [subprocess.check_output(argv).decode()] and
    [subprocess.run(argv, capture_output=True, text=True, timeout=60)],
    the latter returning standard output and standard error. *)
Context {W : Type}.
Variable check_output : list string -> W -> result string * W.
Variable run : list string -> W -> result (string * string) * W.

(** Module-level state: the deployments file, the router it names and
    the key of the environment. *)
Variable deployments : gmap string string.
Variable SCALEX_ROUTER : string.
Variable PRIVATE_KEY : option string.

Definition call_argv (signature token_address : string) : list string :=
  ["cast"; "call"; LENDING_MANAGER; signature; token_address;
   "--rpc-url"; RPC_URL].

Definition send_argv (key token_address : string) (amount : Z) : list string :=
  ["cast"; "send"; SCALEX_ROUTER; "borrow(address,uint256)"; token_address;
   pretty amount; "--private-key"; key; "--rpc-url"; RPC_URL;
   "--gas-limit"; "2000000"].

Definition get_pool_state (token_address : string) (w : W)
  : result (Z * Z) * W * list event :=
  let argv1 := call_argv "totalLiquidity(address)(uint256)" token_address in
  let '(out1, w1) := check_output argv1 w in
  match rbind out1 Str.first_field with
  | Err e => (Err e, w1, [Spawn argv1])
  | Ok total_liq =>
      let argv2 := call_argv "totalBorrowed(address)(uint256)" token_address in
      let '(out2, w2) := check_output argv2 w1 in
      match rbind out2 Str.first_field with
      | Err e => (Err e, w2, [Spawn argv1; Spawn argv2])
      | Ok total_borr =>
          ((l <-! Str.to_int total_liq ;;
            b <-! Str.to_int total_borr ;;
            Ok (l, b))%result,
           w2, [Spawn argv1; Spawn argv2])
      end
  end.

Definition borrow_asset (token_address : string) (amount : Z) (w : W)
  : (bool * string) * W * list event :=
  match PRIVATE_KEY with
  | None =>
      ((false, "expected str, bytes or os.PathLike object, not NoneType"),
       w, [])
  | Some key =>
      let argv := send_argv key token_address amount in
      let '(r, w') := run argv w in
      match r with
      | Err e => ((false, exn_msg e), w', [Spawn argv])
      | Ok (stdout, stderr) =>
          if Str.contains "transactionHash" stdout then
            match List.filter (Str.contains "transactionHash")
                              (Str.split Str.newline stdout) with
            | tx_hash :: _ => ((true, tx_hash), w', [Spawn argv])
            | [] => ((false, "list index out of range"), w', [Spawn argv])
            end
          else ((false, stderr), w', [Spawn argv])
      end
  end.

(** One iteration of the loop of [main]: the records it appends to
    [results], the world after it and the events it caused. *)
Definition process (asset : string) (cfg : config) (w : W)
  : list record * W * list event :=
  if String.eqb (status cfg) "achieved" then ([], w, [])
  else
    match deployments !! asset with
    | None | Some EmptyString => ([], w, [])
    | Some token_address =>
        let '(state, w1, ev1) := get_pool_state token_address w in
        match rbind state (fun '(total_liq, total_borr) =>
                 compute_plan total_liq total_borr (util cfg) (decimals cfg)) with
        | Err e => ([(asset, error, Py.Int 0)], w1, ev1)
        | Ok p =>
            if additional_borrow_raw p >? 0 then
              let '((ok, _), w2, ev2) :=
                borrow_asset token_address (additional_borrow_raw p) w1 in
              let ev := ev1 ++ CallBorrow token_address (additional_borrow_raw p) :: ev2 in
              if ok then ([(asset, success, additional_borrow p)], w2, ev)
              else ([(asset, failed, additional_borrow p)], w2, ev)
            else ([(asset, no_action, Py.Int 0)], w1, ev1)
        end
    end.

(** The loop of [main] over the configured assets; each event carries
    the asset whose iteration caused it. *)
Fixpoint main_loop (tgts : list (string * config)) (w : W)
  : list record * W * list (string * event) :=
  match tgts with
  | [] => ([], w, [])
  | (asset, cfg) :: rest =>
      let '(rs, w1, ev) := process asset cfg w in
      let '(rs', w2, ev') := main_loop rest w1 in
      (rs ++ rs', w2, map (pair asset) ev ++ ev')
  end.

(** [main]: the summary lines printed from [results], with the trace. *)
Definition main (tgts : list (string * config)) (w : W)
  : list summary_line * W * list (string * event) :=
  let '(results, w', tr) := main_loop tgts w in
  (summary results, w', tr).

(** The address an asset resolves to: a non-empty entry of the
    deployments. *)
Definition resolve (asset : string) : option string :=
  match deployments !! asset with
  | Some (String a s) => Some (String a s)
  | _ => None
  end.

(** The assets the loop does not skip. *)
Definition attempted (ac : string * config) : bool :=
  negb (String.eqb (status ac.2) "achieved") &&
  match resolve ac.1 with Some _ => true | None => false end.

End Run.

End Script.

(** The script from its inputs: the module level reads the router from
    the deployments (a [KeyError] ends the run) and the key from the
    environment, then [main] runs. *)
Definition script {W : Type}
    (check_output : list string -> W -> result string * W)
    (run : list string -> W -> result (string * string) * W)
    (deployments env : gmap string string)
    (tgts : list (string * config)) (w : W)
  : result (list summary_line) * W * list (string * event) :=
  match deployments !! "ScaleXRouter" with
  | None => (Err (Raise KeyError "'ScaleXRouter'"), w, [])
  | Some router =>
      let '(lines, w', tr) :=
        Script.main check_output run deployments router (env !! "PRIVATE_KEY") tgts w in
      (Ok lines, w', tr)
  end.

(** ** A simulated chain

    A world for running the script on concrete inputs: pools by token
    address; a read prints the amount the way [cast] does, a borrow adds
    to the borrowed amount and prints a receipt. *)

Module Sim.

Record pool := Pool { liquidity : Z; borrowed : Z }.

Definition chain : Type := gmap string pool.

Definition check_output (argv : list string) (w : chain) : result string * chain :=
  match argv with
  | [_; _; _; signature; token; _; _] =>
      match w !! token with
      | Some p =>
          let v := if String.eqb signature "totalLiquidity(address)(uint256)"
                   then liquidity p else borrowed p in
          (Ok (pretty v +:+ String Str.newline EmptyString), w)
      | None =>
          (Err (Raise CalledProcessError "returned non-zero exit status 1"), w)
      end
  | _ => (Err (Raise CalledProcessError "returned non-zero exit status 1"), w)
  end.

Definition run (argv : list string) (w : chain) : result (string * string) * chain :=
  match argv with
  | [_; _; _; _; token; amount; _; _; _; _; _; _] =>
      match w !! token, Str.to_int amount with
      | Some p, Ok a =>
          (Ok ("transactionHash      0x01", ""),
           <[token := Pool (liquidity p) (borrowed p + a)]> w)
      | _, _ => (Ok ("", "Error: execution reverted"), w)
      end
  | _ => (Ok ("", "Error: bad arguments"), w)
  end.

(** A deployments file and a chain state: WBTC and WETH have pools,
    IDRX is deployed but its reads fail, the other assets are absent
    from the deployments. *)
Definition deployments : gmap string string :=
  {[ "ScaleXRouter" := "0xrouter"; "WBTC" := "0xwbtc";
     "WETH" := "0xweth"; "IDRX" := "0xidrx" ]}.

Definition genesis : chain :=
  {[ "0xwbtc" := Pool 500000000 100000000;
     "0xweth" := Pool 100000000000000000000 7000000000000000000 ]}.

Definition with_key : gmap string string := {[ "PRIVATE_KEY" := "0xkey" ]}.
Definition without_key : gmap string string := ∅.

End Sim.

(** ** The statements of the specification that the script does not meet *)

(** Every configured asset has exactly one line in the summary. *)
Definition every_asset_one_line
    (tgts : list (string * config)) (lines : list summary_line) : Prop :=
  forall asset, In asset (map fst tgts) ->
    count_occ string_dec (map line_asset lines) asset = 1%nat.

(** Without the key in the environment the run ends in an error before
    any process is started. *)
Definition fails_fast_without_key {W : Type}
    (check_output : list string -> W -> result string * W)
    (run : list string -> W -> result (string * string) * W)
    (deployments env : gmap string string)
    (tgts : list (string * config)) (w : W) : Prop :=
  env !! "PRIVATE_KEY" = None ->
  let r := script check_output run deployments env tgts w in
  (exists e, r.1.1 = Err e) /\ r.2 = [].

(** ** Predicates on the events and lines of a run *)

Definition borrow_positive (e : event) : Prop :=
  match e with
  | CallBorrow _ amount => 0 < amount
  | Spawn _ => True
  end.

(** A spawned process is a read: [cast call ...]. *)
Definition is_read (e : event) : Prop :=
  match e with
  | Spawn argv => argv !! 1%nat = Some "call"
  | CallBorrow _ _ => True
  end.

Definition is_call_spawn (e : event) : Prop :=
  match e with
  | Spawn argv => argv !! 1%nat = Some "call"
  | CallBorrow _ _ => False
  end.

Definition not_borrowed (l : summary_line) : Prop :=
  match l with
  | Borrowed _ _ => False
  | _ => True
  end.

(** ** Rounding to the format, as arithmetic on integers

    The operations of [SpecFloat] round by shifting a mantissa with two
    extra bits. The definitions below describe what is computed: the
    fraction [N / M * 2^e] rounded to nearest, ties to even, on the grid
    of binary64. *)

Module Round.

Abbreviation prec := Py.prec.
Abbreviation emax := Py.emax.
Abbreviation emin := (SpecFloat.emin prec emax).
Abbreviation fexp := (SpecFloat.fexp prec emax).

(** Round to nearest, ties to even, of the fraction [N / M]. *)
Definition rne (N M : Z) : Z :=
  let q := N / M in
  match 2 * (N mod M) ?= M with
  | Lt => q
  | Eq => if Z.even q then q else q + 1
  | Gt => q + 1
  end.

(** The shift record of the fraction [N / M]. *)
Definition rec (N M : Z) : shr_record :=
  {| shr_m := N / M;
     shr_r := M <=? 2 * (N mod M);
     shr_s := negb ((2 * N) mod M =? 0) |}.

(** The first rounding of [N / M * 2^e]: the mantissa on the grid of
    the exponent [fexp] gives it, and that exponent. *)
Definition round_core (N M e : Z) : Z * Z :=
  let n := Z.max 0 (fexp (Zdigits2 (N / M) + e) - e) in
  (rne N (M * 2 ^ n), e + n).

(** One more place when the rounded mantissa has grown a digit. *)
Definition renorm (qg : Z * Z) : Z * Z :=
  let n := Z.max 0 (fexp (Zdigits2 qg.1 + qg.2) - qg.2) in
  (qg.1 / 2 ^ n, qg.2 + n).

Definition encode (s : bool) (qe : Z * Z) : spec_float :=
  match qe.1 with
  | Z0 => S754_zero s
  | Zpos m => if qe.2 <=? emax - prec then S754_finite s m qe.2 else S754_infinity s
  | Zneg _ => S754_nan
  end.

Definition round_frac (s : bool) (N M e : Z) : spec_float :=
  encode s (renorm (round_core N M e)).

(** A fraction with enough places for its rounding. *)
Definition WF (N M e : Z) : Prop :=
  0 <= N /\ 0 < M /\ e <= fexp (Zdigits2 (N / M) + e).

(** A mantissa and exponent in the format (zero included). *)
Definition canon (qe : Z * Z) : Prop :=
  0 <= qe.1 < 2 ^ prec /\ emin <= qe.2 /\ (qe.2 = emin \/ 2 ^ (prec - 1) <= qe.1).

(** [N / M * 2^e <= N' / M' * 2^e'], cross-multiplied. *)
Definition vle (N M e N' M' e' : Z) : Prop :=
  N * M' * 2 ^ (e - Z.min e e') <= N' * M * 2 ^ (e' - Z.min e e').

(** The order of mantissa-exponent pairs of the format. *)
Definition lex_le (p p' : Z * Z) : Prop :=
  p.2 < p'.2 \/ (p.2 = p'.2 /\ p.1 <= p'.1).

(** The exponent the division starts from. *)
Definition div_exp (mx ex my ey : Z) : Z :=
  Z.min (fexp (Zdigits2 mx + ex - (Zdigits2 my + ey))) (ex - ey).

Definition pair_of (f : spec_float) : Z * Z :=
  match f with
  | S754_finite _ m e => (Zpos m, e)
  | _ => (0, emin)
  end.

(** A zero, or a positive number of the format. *)
Definition nonneg (f : spec_float) : Prop :=
  match f with
  | S754_zero _ => True
  | S754_finite false m e => bounded prec emax m e = true
  | _ => False
  end.

(** The mantissa and exponent of the quotient of two positive
    numbers [mx * 2^ex] and [my * 2^ey]. *)
Definition div_pair (mx ex my ey : Z) : Z * Z :=
  let e' := div_exp mx ex my ey in
  renorm (round_core (mx * 2 ^ (ex - ey - e')) my e').

Definition mul_pair (mx ex my ey : Z) : Z * Z :=
  renorm (round_core (mx * my) 1 (ex + ey)).

(** The float [100.0] and the float [1.0]. *)
Definition c100 : spec_float := S754_finite false 7036874417766400 (-46).

(** A float that is not negative and not a NaN. *)
Definition unsigned (f : spec_float) : Prop :=
  match f with
  | S754_zero false | S754_infinity false | S754_finite false _ _ => True
  | _ => False
  end.

Definition scale_ok (D : nat) : bool :=
  match Py.float_of_int (10 ^ Z.of_nat D) with
  | Ok (S754_finite false m e) =>
      bounded prec emax m e && (e <=? Zdigits2 (10 ^ Z.of_nat D) - 52)
      && (Zdigits2 (10 ^ Z.of_nat D) <=? 1024)
  | _ => false
  end.

End Round.

(** ** Exact values

    The rational number a float stands for, and the error of one
    rounding to nearest. *)

Module Exact.
Import Round.
Local Open Scope Q_scope.

(** [2^e] for an integer exponent. *)
Definition bpow (e : Z) : Q := 2 ^ e.

(** The number a mantissa and an exponent stand for. *)
Definition val (p : Z * Z) : Q := inject_Z p.1 * bpow p.2.

(** The number a finite float stands for (0 for the others). *)
Definition value (f : spec_float) : Q :=
  match f with
  | S754_finite false m e => val (Zpos m, e)
  | S754_finite true m e => - val (Zpos m, e)
  | _ => 0
  end.

(** Its absolute value. *)
Definition magnitude (f : spec_float) : Q := val (pair_of f).

(** The fraction [N / M * 2^e], as [round_frac] takes it. *)
Definition frac (N M e : Z) : Q := inject_Z N / inject_Z M * bpow e.

(** The relative error of one rounding, [2^-53], and the absolute
    error of a rounding below the normal range, [2^-1075]. *)
Definition u : Q := 1 # 9007199254740992.
Definition eta : Q := bpow (-1075).

(** [y] is [x] rounded: off by at most the relative error [u], or by
    [eta] where the format is denormal. *)
Definition near (y x : Q) : Prop := - (u * x + eta) <= y - x <= u * x + eta.

(** The rounding the calculation accumulates, [2^-48] for each
    smallest unit of liquidity and of borrowed amount. *)
Definition eps : Q := 1 # 281474976710656.

(** [2^-100], far above [eta]. *)
Definition tiny : Q := 1 # 1267650600228229401496703205376.

End Exact.

(** ** Predicates on text and on the trace of one asset *)

Module Text.

(** Only blanks; no blank; empty or starting with a blank. *)
Fixpoint all_space (s : string) : bool :=
  match s with
  | EmptyString => true
  | String a s' => Str.is_space a && all_space s'
  end.

Fixpoint no_space (s : string) : bool :=
  match s with
  | EmptyString => true
  | String a s' => negb (Str.is_space a) && no_space s'
  end.

Definition blank_start (s : string) : bool :=
  match s with
  | EmptyString => true
  | String a _ => Str.is_space a
  end.

End Text.

Module Trace.

(** The events and the records of one asset, in order. *)
Definition events_of (asset : string) (tr : list (string * event)) : list event :=
  map snd (List.filter (fun ae : string * event => String.eqb ae.1 asset) tr).

Definition lines_of (asset : string) (lines : list summary_line) : list summary_line :=
  List.filter (fun l => String.eqb (line_asset l) asset) lines.

Definition read_liquidity (token : string) : event :=
  Spawn (Script.call_argv "totalLiquidity(address)(uint256)" token).

Definition read_borrowed (token : string) : event :=
  Spawn (Script.call_argv "totalBorrowed(address)(uint256)" token).

(** An event of a run for asset [a]: a read of the pool of its token,
    an entry into [borrow_asset] or the borrow transaction, of a positive
    amount of that token. *)
Definition well_formed (deployments : gmap string string) (router : string)
    (key : option string) (a : string) (e : event) : Prop :=
  exists token,
    Script.resolve deployments a = Some token /\
    (e = read_liquidity token \/ e = read_borrowed token \/
     exists amount,
       0 < amount /\
       (e = CallBorrow token amount \/
        exists k, key = Some k /\ e = Spawn (Script.send_argv router k token amount))).

End Trace.

(** * Properties *)

(** ** Rounding *)

Module RoundFacts.
Import Round.

Lemma digits2_size p : digits2_pos p = Pos.size p.
Proof. induction p; simpl; congruence. Qed.

Lemma Zdigits2_log2 z : 0 < z -> Zdigits2 z = Z.log2 z + 1.
Proof.
  destruct z as [|p|p]; try lia. intros _. simpl.
  rewrite digits2_size. destruct p; simpl; lia.
Qed.

Lemma Zdigits2_bounds z : 0 < z -> 2 ^ (Zdigits2 z - 1) <= z < 2 ^ Zdigits2 z.
Proof.
  intros H. rewrite Zdigits2_log2 by assumption.
  replace (Z.log2 z + 1 - 1) with (Z.log2 z) by lia.
  pose proof (Z.log2_spec z H). lia.
Qed.

Lemma Zdigits2_nonneg z : 0 <= Zdigits2 z.
Proof. destruct z; simpl; lia. Qed.

Lemma Zdigits2_pos z : 0 < z -> 0 < Zdigits2 z.
Proof. destruct z; simpl; lia. Qed.

Lemma Zdigits2_le a b : 0 <= a <= b -> Zdigits2 a <= Zdigits2 b.
Proof.
  intros [Ha Hab]. destruct (Z.eq_dec a 0) as [->|].
  - apply Zdigits2_nonneg.
  - rewrite !Zdigits2_log2 by lia. pose proof (Z.log2_le_mono a b Hab). lia.
Qed.

(** [d] digits exactly when between the powers of two. *)
Lemma Zdigits2_unique z d : 0 < d -> 2 ^ (d - 1) <= z < 2 ^ d -> Zdigits2 z = d.
Proof.
  intros Hd H. assert (0 < z) by (pose proof (Z.pow_pos_nonneg 2 (d - 1)); lia).
  rewrite Zdigits2_log2 by assumption.
  rewrite (Z.log2_unique z (d - 1)); try lia.
  replace (Z.succ (d - 1)) with d by lia. assumption.
Qed.

Lemma Zdigits2_lt_pow z d : 0 <= d -> 0 <= z < 2 ^ d -> Zdigits2 z <= d.
Proof.
  intros Hd [Hz H]. destruct (Z.eq_dec z 0) as [->|]; [simpl; lia|].
  destruct (Z_lt_le_dec d (Zdigits2 z)); [|assumption].
  pose proof (Zdigits2_bounds z ltac:(lia)) as [Hl _].
  assert (2 ^ d <= 2 ^ (Zdigits2 z - 1)) by (apply Z.pow_le_mono_r; lia). lia.
Qed.

Lemma Zdigits2_ge_pow z d : 0 <= d -> 2 ^ d <= z -> d < Zdigits2 z.
Proof.
  intros Hd H. assert (0 < z) by (pose proof (Z.pow_pos_nonneg 2 d); lia).
  destruct (Z_lt_le_dec d (Zdigits2 z)); [assumption|].
  pose proof (Zdigits2_bounds z ltac:(lia)) as [_ Hu].
  assert (2 ^ Zdigits2 z <= 2 ^ d).
  { apply Z.pow_le_mono_r; [lia|]. lia. }
  lia.
Qed.

(** *** Shifting right *)

Lemma shr_1_nonneg m r s :
  0 <= m -> shr_1 (Build_shr_record m r s) = Build_shr_record (m / 2) (Z.odd m) (r || s).
Proof.
  intros Hm. rewrite <- Z.div2_div.
  destruct m as [|[p|p|]|]; try lia; reflexivity.
Qed.

Lemma rec_sticky N M :
  0 < M ->
  (M <=? 2 * (N mod M)) || negb ((2 * N) mod M =? 0) = negb ((2 * N) mod (M * 2) =? 0).
Proof.
  intros HM. pose proof (Z.mod_pos_bound N M HM) as Hr.
  replace ((2 * N) mod (M * 2)) with (2 * (N mod M))
    by (rewrite (Z.mul_comm M 2), Z.mul_mod_distr_l by lia; reflexivity).
  rewrite <- (Z.mul_mod_idemp_r 2 N M) by lia.
  destruct (Z.leb_spec M (2 * (N mod M))) as [H|H]; simpl.
  - symmetry. apply negb_true_iff, Z.eqb_neq. lia.
  - rewrite (Z.mod_small (2 * (N mod M)) M) by lia. reflexivity.
Qed.

Lemma shr_1_rec N M : 0 <= N -> 0 < M -> shr_1 (rec N M) = rec N (M * 2).
Proof.
  intros HN HM. unfold rec.
  rewrite shr_1_nonneg by (apply Z.div_pos; lia).
  rewrite rec_sticky by assumption.
  rewrite Z.div_div by lia.
  f_equal.
  pose proof (Z.mod_pos_bound N M HM) as Hr.
  rewrite Z.rem_mul_r by lia.
  rewrite Zodd_mod.
  pose proof (Z.mod_pos_bound (N / M) 2 ltac:(lia)) as Hb.
  destruct (Z.eqb_spec ((N / M) mod 2) 1) as [E|E].
  - rewrite E. symmetry. apply Z.leb_le. lia.
  - symmetry. apply Z.leb_gt. nia.
Qed.

Lemma pow2_xI p : 2 ^ Zpos p~1 = 2 * 2 ^ Zpos p * 2 ^ Zpos p.
Proof.
  replace (Zpos p~1) with (1 + Zpos p + Zpos p) by lia.
  rewrite !Z.pow_add_r by lia. reflexivity.
Qed.

Lemma pow2_xO p : 2 ^ Zpos p~0 = 2 ^ Zpos p * 2 ^ Zpos p.
Proof.
  replace (Zpos p~0) with (Zpos p + Zpos p) by lia.
  rewrite Z.pow_add_r by lia. reflexivity.
Qed.

Lemma pow2_pos e : 0 <= e -> 0 < 2 ^ e.
Proof. intros. apply Z.pow_pos_nonneg; lia. Qed.

Lemma iter_pos_shr_1 p : forall N M,
  0 <= N -> 0 < M -> SpecFloat.iter_pos shr_1 p (rec N M) = rec N (M * 2 ^ Zpos p).
Proof.
  induction p as [p IH|p IH|]; intros N M HN HM.
  - change (SpecFloat.iter_pos shr_1 p (SpecFloat.iter_pos shr_1 p (shr_1 (rec N M)))
            = rec N (M * 2 ^ Zpos p~1)).
    pose proof (pow2_pos (Zpos p) ltac:(lia)).
    rewrite shr_1_rec, IH, IH by (try assumption; nia).
    f_equal. rewrite pow2_xI. lia.
  - change (SpecFloat.iter_pos shr_1 p (SpecFloat.iter_pos shr_1 p (rec N M))
            = rec N (M * 2 ^ Zpos p~0)).
    pose proof (pow2_pos (Zpos p) ltac:(lia)).
    rewrite IH, IH by (try assumption; nia).
    f_equal. rewrite pow2_xO. lia.
  - change (shr_1 (rec N M) = rec N (M * 2 ^ 1)).
    rewrite shr_1_rec by assumption. reflexivity.
Qed.

(** Shifting the record of [N / M] by [n] places gives the record of
    [N / (M * 2^n)]. *)
Lemma shr_rec N M e n :
  0 <= N -> 0 < M ->
  shr (rec N M) e n = (rec N (M * 2 ^ Z.max 0 n), e + Z.max 0 n).
Proof.
  intros HN HM. destruct n as [|p|p]; simpl shr.
  - rewrite Z.max_id. simpl. rewrite Z.mul_1_r, Z.add_0_r. reflexivity.
  - rewrite iter_pos_shr_1 by assumption.
    replace (Z.max 0 (Zpos p)) with (Zpos p) by lia. reflexivity.
  - replace (Z.max 0 (Zneg p)) with 0 by lia.
    simpl. rewrite Z.mul_1_r, Z.add_0_r. reflexivity.
Qed.

(** *** Locations *)

Lemma rec_of_location N M :
  0 <= N -> 0 < M ->
  shr_record_of_loc (N / M) (new_location M (N mod M)) = rec N M.
Proof.
  intros HN HM. pose proof (Z.mod_pos_bound N M HM) as Hr.
  unfold rec. rewrite <- (Z.mul_mod_idemp_r 2 N M) by lia.
  unfold new_location, new_location_even, new_location_odd.
  destruct (Z.eqb_spec (N mod M) 0) as [E|E].
  - rewrite E. change (2 * 0) with 0. rewrite Z.mod_0_l by lia.
    replace (M <=? 0) with false by (symmetry; apply Z.leb_gt; lia).
    destruct (Z.even M); reflexivity.
  - apply Z.eqb_neq in E.
    destruct (Z.even M) eqn:Hev; cbv beta iota; rewrite E; apply Z.eqb_neq in E.
    + destruct (Z.compare_spec (2 * (N mod M)) M) as [H|H|H]; cbn [shr_record_of_loc].
      * rewrite H, Z.mod_same by lia. rewrite Z.leb_refl. reflexivity.
      * rewrite (Z.mod_small (2 * (N mod M)) M) by lia.
        replace (M <=? 2 * (N mod M)) with false by (symmetry; apply Z.leb_gt; lia).
        replace (2 * (N mod M) =? 0) with false by (symmetry; apply Z.eqb_neq; lia).
        reflexivity.
      * replace (M <=? 2 * (N mod M)) with true by (symmetry; apply Z.leb_le; lia).
        replace (2 * (N mod M)) with (2 * (N mod M) - M + 1 * M) by lia.
        rewrite Z.mod_add, (Z.mod_small (2 * (N mod M) - M) M) by lia.
        replace (2 * (N mod M) - M =? 0) with false by (symmetry; apply Z.eqb_neq; lia).
        reflexivity.
    + assert (Hodd : Z.odd M = true) by (rewrite <- Z.negb_even, Hev; reflexivity).
      apply Z.odd_spec in Hodd as [k Hk].
      destruct (Z.compare_spec (2 * (N mod M) + 1) M) as [H|H|H]; cbn [shr_record_of_loc].
      * rewrite (Z.mod_small (2 * (N mod M)) M) by lia.
        replace (M <=? 2 * (N mod M)) with false by (symmetry; apply Z.leb_gt; lia).
        replace (2 * (N mod M) =? 0) with false by (symmetry; apply Z.eqb_neq; lia).
        reflexivity.
      * rewrite (Z.mod_small (2 * (N mod M)) M) by lia.
        replace (M <=? 2 * (N mod M)) with false by (symmetry; apply Z.leb_gt; lia).
        replace (2 * (N mod M) =? 0) with false by (symmetry; apply Z.eqb_neq; lia).
        reflexivity.
      * replace (M <=? 2 * (N mod M)) with true by (symmetry; apply Z.leb_le; lia).
        replace (2 * (N mod M)) with (2 * (N mod M) - M + 1 * M) by lia.
        rewrite Z.mod_add, (Z.mod_small (2 * (N mod M) - M) M) by lia.
        replace (2 * (N mod M) - M =? 0) with false by (symmetry; apply Z.eqb_neq; lia).
        reflexivity.
Qed.

Lemma rec_exact m : shr_record_of_loc m loc_Exact = rec m 1.
Proof.
  unfold rec. rewrite Z.div_1_r, !Z.mod_1_r. reflexivity.
Qed.

Lemma round_rec N M :
  0 <= N -> 0 < M ->
  round_nearest_even (shr_m (rec N M)) (loc_of_shr_record (rec N M)) = rne N M.
Proof.
  intros HN HM. pose proof (Z.mod_pos_bound N M HM) as Hr.
  unfold rec, rne. cbn [shr_m]. rewrite <- (Z.mul_mod_idemp_r 2 N M) by lia.
  destruct (Z.compare_spec (2 * (N mod M)) M) as [H|H|H].
  - rewrite H, Z.mod_same by lia. rewrite Z.leb_refl. reflexivity.
  - rewrite (Z.mod_small (2 * (N mod M)) M) by lia.
    replace (M <=? 2 * (N mod M)) with false by (symmetry; apply Z.leb_gt; lia).
    destruct (2 * (N mod M) =? 0); reflexivity.
  - replace (M <=? 2 * (N mod M)) with true by (symmetry; apply Z.leb_le; lia).
    replace (2 * (N mod M)) with (2 * (N mod M) - M + 1 * M) by lia.
    rewrite Z.mod_add, (Z.mod_small (2 * (N mod M) - M) M) by lia.
    replace (2 * (N mod M) - M =? 0) with false by (symmetry; apply Z.eqb_neq; lia).
    reflexivity.
Qed.

(** *** Rounding *)

Lemma rne_bounds N M :
  0 < M -> N / M <= rne N M <= N / M + 1.
Proof.
  intros HM. unfold rne.
  destruct (2 * (N mod M) ?= M); [destruct (Z.even (N / M))|..]; lia.
Qed.

Lemma rne_nonneg N M : 0 <= N -> 0 < M -> 0 <= rne N M.
Proof.
  intros HN HM. pose proof (rne_bounds N M HM).
  pose proof (Z.div_pos N M HN HM). lia.
Qed.

Lemma binary_round_aux_frac s N M e :
  0 <= N -> 0 < M ->
  binary_round_aux prec emax s (N / M) e (new_location M (N mod M)) = round_frac s N M e.
Proof.
  intros HN HM. unfold binary_round_aux, shr_fexp, round_frac, renorm, round_core.
  rewrite rec_of_location, shr_rec by assumption.
  set (n := Z.max 0 (fexp (Zdigits2 (N / M) + e) - e)).
  assert (HM' : 0 < M * 2 ^ n)
    by (apply Z.mul_pos_pos; [assumption|apply pow2_pos; lia]).
  rewrite round_rec by assumption.
  rewrite rec_exact, shr_rec by (try apply rne_nonneg; lia).
  unfold encode. cbn [fst snd shr_m rec]. rewrite Z.mul_1_l. reflexivity.
Qed.

Lemma binary_round_aux_exact s m e :
  0 <= m -> binary_round_aux prec emax s m e loc_Exact = round_frac s m 1 e.
Proof.
  intros Hm. rewrite <- (binary_round_aux_frac s m 1 e) by lia.
  rewrite Z.div_1_r, Z.mod_1_r. reflexivity.
Qed.

Lemma fexp_eq k : fexp k = Z.max (k - 53) (-1074).
Proof. reflexivity. Qed.

Lemma rne_le N M c : 0 < M -> N <= c * M -> rne N M <= c.
Proof.
  intros HM H. pose proof (Z.div_mod N M ltac:(lia)) as E.
  pose proof (Z.mod_pos_bound N M HM) as Hr. unfold rne.
  destruct (Z.compare_spec (2 * (N mod M)) M); [destruct (Z.even (N / M))|..]; nia.
Qed.

Lemma rne_ge N M c : 0 < M -> c * M <= N -> c <= rne N M.
Proof.
  intros HM H. pose proof (Z.div_mod N M ltac:(lia)) as E.
  pose proof (Z.mod_pos_bound N M HM) as Hr. unfold rne.
  destruct (Z.compare_spec (2 * (N mod M)) M); [destruct (Z.even (N / M))|..]; nia.
Qed.

Lemma rne_exact c M : 0 < M -> rne (c * M) M = c.
Proof.
  intros HM. apply Z.le_antisymm; [apply rne_le|apply rne_ge]; lia.
Qed.

Lemma pow2_le a b : 0 <= a <= b -> 2 ^ a <= 2 ^ b.
Proof. intros. apply Z.pow_le_mono_r; lia. Qed.

Lemma pow2_lt a b : 0 <= a < b -> 2 ^ a < 2 ^ b.
Proof. intros. apply Z.pow_lt_mono_r; lia. Qed.

Lemma renorm_cases q g :
  0 <= q <= 2 ^ prec -> emin <= g ->
  renorm (q, g) = if q =? 2 ^ prec then (2 ^ (prec - 1), g + 1) else (q, g).
Proof.
  intros Hq Hg. unfold renorm. cbn [fst snd]. change emin with (-1074) in Hg.
  destruct (Z.eqb_spec q (2 ^ prec)) as [->|Hne].
  - rewrite (Zdigits2_unique (2 ^ prec) (prec + 1)); cycle 1.
    { unfold prec; lia. }
    { replace (prec + 1 - 1) with prec by lia. split; [lia|]. apply pow2_lt. unfold prec; lia. }
    rewrite fexp_eq. unfold prec.
    replace (Z.max 0 (Z.max (53 + 1 + g - 53) (-1074) - g)) with 1 by lia.
    f_equal.
  - assert (Hd : Zdigits2 q <= prec).
    { apply Zdigits2_lt_pow; [unfold prec; lia|lia]. }
    rewrite fexp_eq. unfold prec in Hd.
    replace (Z.max 0 (Z.max (Zdigits2 q + g - 53) (-1074) - g)) with 0 by lia.
    rewrite Z.div_1_r, Z.add_0_r. reflexivity.
Qed.

Lemma round_core_grid N M e :
  WF N M e -> (round_core N M e).2 = fexp (Zdigits2 (N / M) + e).
Proof. intros (HN & HM & He). unfold round_core. cbn [snd]. lia. Qed.

Lemma round_core_bounds N M e :
  WF N M e ->
  let qg := round_core N M e in
  0 <= qg.1 <= 2 ^ prec /\ emin <= qg.2 /\ (qg.2 = emin \/ 2 ^ (prec - 1) <= qg.1).
Proof.
  intros (HN & HM & He). unfold round_core. cbv zeta; cbn [fst snd].
  set (q := N / M) in *. set (d := Zdigits2 q) in *.
  rewrite fexp_eq in *. change emin with (-1074). unfold prec.
  set (n := Z.max 0 (Z.max (d + e - 53) (-1074) - e)).
  assert (Hn : 0 <= n) by lia.
  pose proof (pow2_pos n Hn) as Hp.
  pose proof (Z.div_mod N M ltac:(lia)) as E. fold q in E.
  pose proof (Z.mod_pos_bound N M HM) as Hr.
  assert (Hq0 : 0 <= q) by (apply Z.div_pos; lia).
  split; [split|split].
  - apply rne_nonneg; nia.
  - apply rne_le; [nia|].
    destruct (Z.eq_dec q 0) as [Hq|Hq].
    + assert (1 <= 2 ^ 53) by (change (2 ^ 53) with 9007199254740992; lia). nia.
    + pose proof (Zdigits2_bounds q ltac:(lia)) as [_ Hu]. fold d in Hu.
      pose proof (Zdigits2_pos q ltac:(lia)). fold d in H.
      assert (2 ^ d <= 2 ^ (53 + n)) by (apply pow2_le; lia).
      rewrite Z.pow_add_r in H0 by lia. nia.
  - lia.
  - destruct (Z_le_gt_dec (d + e - 53) (-1074)) as [Hs|Hs]; [left; lia|right].
    assert (n = d - 53) by lia.
    destruct (Z.eq_dec q 0) as [Hq|Hq].
    { exfalso. assert (d = 0) by (unfold d; rewrite Hq; reflexivity). lia. }
    pose proof (Zdigits2_bounds q ltac:(lia)) as [Hl _]. fold d in Hl.
    apply rne_ge; [nia|].
    replace (d - 1) with (52 + n) in Hl by lia.
    rewrite Z.pow_add_r in Hl by lia.
    change (53 - 1) with 52. nia.
Qed.

Lemma round_canon N M e : WF N M e -> canon (renorm (round_core N M e)).
Proof.
  intros H. pose proof (round_core_bounds N M e H) as (Hq & Hg & Hc).
  destruct (round_core N M e) as [q g]. cbn [fst snd] in *.
  rewrite renorm_cases by assumption. unfold canon.
  assert (2 ^ (prec - 1) < 2 ^ prec) by (apply pow2_lt; unfold prec; lia).
  assert (0 < 2 ^ (prec - 1)) by (apply pow2_pos; unfold prec; lia).
  destruct (Z.eqb_spec q (2 ^ prec)); cbn [fst snd]; lia.
Qed.

(** *** Monotonicity *)

Lemma rne_spec N M :
  0 < M ->
  let a := rne N M in
  (2 * a - 1) * M <= 2 * N <= (2 * a + 1) * M /\
  (2 * N = (2 * a - 1) * M -> Z.even a = true) /\
  (2 * N = (2 * a + 1) * M -> Z.even a = true).
Proof.
  intros HM. cbv zeta. pose proof (Z.div_mod N M ltac:(lia)) as E.
  pose proof (Z.mod_pos_bound N M HM) as Hr. unfold rne.
  destruct (Z.compare_spec (2 * (N mod M)) M) as [H|H|H].
  - destruct (Z.even (N / M)) eqn:Hev.
    + split; [nia|]. split; [intros; assumption|intros; assumption].
    + split; [nia|]. split; [intros _|intros; exfalso; nia].
      rewrite Z.even_add, Hev. reflexivity.
  - split; [nia|]. split; intros; exfalso; nia.
  - split; [nia|]. split; intros; exfalso; nia.
Qed.

Lemma rne_mono N M N' M' :
  0 < M -> 0 < M' -> N * M' <= N' * M -> rne N M <= rne N' M'.
Proof.
  intros HM HM' H.
  pose proof (rne_spec N M HM) as (Ha & Hal & _).
  pose proof (rne_spec N' M' HM') as (Hb & _ & Hbu).
  cbv zeta in *. set (a := rne N M) in *. set (b := rne N' M') in *.
  destruct (Z_le_gt_dec a b) as [|Hgt]; [assumption|exfalso].
  assert (H1 : (2 * a - 1) * (M * M') <= (2 * b + 1) * (M * M')) by nia.
  assert (H2 : 2 * a - 1 <= 2 * b + 1) by nia.
  assert (Hab : a = b + 1) by lia.
  assert (E1 : 2 * N = (2 * a - 1) * M) by nia.
  assert (E2 : 2 * N' = (2 * b + 1) * M') by nia.
  specialize (Hal E1). specialize (Hbu E2).
  rewrite Hab, Z.even_add, Hbu in Hal. discriminate.
Qed.

Lemma fexp_mono k k' : k <= k' -> fexp k <= fexp k'.
Proof. rewrite !fexp_eq. lia. Qed.

Lemma fexp_ge_emin k : emin <= fexp k.
Proof. rewrite fexp_eq. change emin with (-1074). lia. Qed.

Lemma renorm_mono q q' g :
  0 <= q <= q' -> q' <= 2 ^ prec -> emin <= g ->
  lex_le (renorm (q, g)) (renorm (q', g)).
Proof.
  intros Hq Hq' Hg. rewrite !renorm_cases by lia. unfold lex_le.
  destruct (Z.eqb_spec q (2 ^ prec)), (Z.eqb_spec q' (2 ^ prec)); cbn [fst snd]; lia.
Qed.

(** The magnitudes of two ordered fractions are ordered. *)
Lemma magnitude_mono N M e N' M' e' :
  WF N M e -> WF N' M' e' -> vle N M e N' M' e' -> 0 < N / M ->
  Zdigits2 (N / M) + e <= Zdigits2 (N' / M') + e'.
Proof.
  intros (HN & HM & He) (HN' & HM' & He') Hle Hq. unfold vle in Hle.
  set (c := Z.min e e') in *.
  set (d := Zdigits2 (N / M)). set (d' := Zdigits2 (N' / M')).
  pose proof (Zdigits2_bounds (N / M) Hq) as [Hl _]. fold d in Hl.
  pose proof (Zdigits2_pos (N / M) Hq) as Hd. fold d in Hd.
  pose proof (Zdigits2_nonneg (N' / M')) as Hd'. fold d' in Hd'.
  assert (Hu : N' / M' < 2 ^ d').
  { destruct (Z.eq_dec (N' / M') 0) as [E|E].
    - rewrite E. apply pow2_pos. assumption.
    - apply Zdigits2_bounds. pose proof (Z.div_pos N' M' HN' HM'). lia. }
  pose proof (Z.div_mod N M ltac:(lia)) as E.
  pose proof (Z.mod_pos_bound N M HM) as Hr.
  pose proof (Z.div_mod N' M' ltac:(lia)) as E'.
  pose proof (Z.mod_pos_bound N' M' HM') as Hr'.
  assert (H1 : 2 ^ (d - 1) * M <= N) by nia.
  assert (H2 : N' < 2 ^ d' * M') by nia.
  pose proof (pow2_pos (e - c) ltac:(lia)) as Hp.
  pose proof (pow2_pos (e' - c) ltac:(lia)) as Hp'.
  assert (H3 : 2 ^ (d - 1) * 2 ^ (e - c) * (M * M') < 2 ^ d' * 2 ^ (e' - c) * (M * M')).
  { apply Z.le_lt_trans with (N * M' * 2 ^ (e - c)); [nia|].
    apply Z.le_lt_trans with (N' * M * 2 ^ (e' - c)); [assumption|nia]. }
  assert (H4 : 2 ^ (d - 1 + (e - c)) < 2 ^ (d' + (e' - c))).
  { rewrite !Z.pow_add_r by lia. nia. }
  apply Z.pow_lt_mono_r_iff in H4; lia.
Qed.

Theorem round_mono N M e N' M' e' :
  WF N M e -> WF N' M' e' -> vle N M e N' M' e' ->
  lex_le (renorm (round_core N M e)) (renorm (round_core N' M' e')).
Proof.
  intros H H' Hle.
  pose proof (round_core_bounds N M e H) as (Hq & Hg & Hc).
  pose proof (round_core_bounds N' M' e' H') as (Hq' & Hg' & Hc').
  pose proof (round_core_grid N M e H) as Eg.
  pose proof (round_core_grid N' M' e' H') as Eg'.
  assert (Hgg : (round_core N M e).2 <= (round_core N' M' e').2).
  { destruct (Z.eq_dec (N / M) 0) as [E0|E0].
    - rewrite Eg, E0. destruct H as (_ & _ & He). rewrite E0 in He.
      cbn [Zdigits2] in *. rewrite fexp_eq in *. change emin with (-1074) in Hg'. lia.
    - rewrite Eg, Eg'. apply fexp_mono, magnitude_mono; try assumption.
      destruct H as (HN & HM & _). pose proof (Z.div_pos N M HN HM). lia. }
  cbv zeta in *.
  destruct (Z.eq_dec (round_core N M e).2 (round_core N' M' e').2) as [Heq|Hne].
  - assert (Hm : (round_core N M e).1 <= (round_core N' M' e').1).
    { destruct H as (HN & HM & He), H' as (HN' & HM' & He').
      rewrite Eg in Heq. rewrite Eg' in Heq.
      unfold round_core. cbn [fst].
      set (g := fexp (Zdigits2 (N / M) + e)) in *.
      set (g' := fexp (Zdigits2 (N' / M') + e')) in *.
      replace (Z.max 0 (g - e)) with (g - e) by lia.
      replace (Z.max 0 (g' - e')) with (g - e') by lia.
      pose proof (pow2_pos (g - e) ltac:(lia)).
      pose proof (pow2_pos (g - e') ltac:(lia)).
      apply rne_mono; [nia|nia|].
      unfold vle in Hle. set (c := Z.min e e') in *.
      pose proof (pow2_pos (g - e - e' + c) ltac:(lia)).
      assert (P1 : 2 ^ (g - e') = 2 ^ (e - c) * 2 ^ (g - e - e' + c))
        by (rewrite <- Z.pow_add_r by lia; f_equal; lia).
      assert (P2 : 2 ^ (g - e) = 2 ^ (e' - c) * 2 ^ (g - e - e' + c))
        by (rewrite <- Z.pow_add_r by lia; f_equal; lia).
      rewrite P1, P2. nia. }
    clear Eg Eg'.
    destruct (round_core N M e) as [q g], (round_core N' M' e') as [q' g'].
    cbn [fst snd] in *. subst g'. apply renorm_mono; lia.
  - destruct (round_core N M e) as [q g], (round_core N' M' e') as [q' g'].
    cbn [fst snd] in *. rewrite !renorm_cases by lia. unfold lex_le.
    assert (2 ^ (prec - 1) < 2 ^ prec) by (apply pow2_lt; unfold prec; lia).
    destruct (Z.eqb_spec q (2 ^ prec)), (Z.eqb_spec q' (2 ^ prec)); cbn [fst snd]; lia.
Qed.

(** *** The operations as roundings of fractions *)

Lemma bounded_canon m e :
  bounded prec emax m e = true <-> canon (Zpos m, e) /\ e <= emax - prec.
Proof.
  unfold bounded, canonical_mantissa, canon. cbn [fst snd].
  rewrite andb_true_iff, Z.eqb_eq, Z.leb_le, fexp_eq.
  change (Zpos (digits2_pos m)) with (Zdigits2 (Zpos m)).
  change emin with (-1074). unfold prec, emax. change (53 - 1) with 52.
  pose proof (Zdigits2_bounds (Zpos m) ltac:(lia)) as [Hl Hu].
  pose proof (Zdigits2_pos (Zpos m) ltac:(lia)) as Hd.
  split.
  - intros [Hc He]. split; [|lia]. split; [split; [lia|]|split; [lia|]].
    + assert (2 ^ Zdigits2 (Zpos m) <= 2 ^ 53) by (apply pow2_le; lia). lia.
    + destruct (Z.eq_dec e (-1074)); [left; assumption|right].
      replace (Zdigits2 (Zpos m) - 1) with 52 in Hl by lia. assumption.
  - intros [(Hm & He & Hc) Hb]. split; [|lia].
    assert (Zdigits2 (Zpos m) <= 53) by (apply Zdigits2_lt_pow; lia).
    destruct Hc as [->|Hc]; [lia|].
    assert (52 < Zdigits2 (Zpos m)) by (apply Zdigits2_ge_pow; lia). lia.
Qed.

Lemma SFmul_finite sx mx ex sy my ey :
  SFmul prec emax (S754_finite sx mx ex) (S754_finite sy my ey) =
    round_frac (xorb sx sy) (Zpos mx * Zpos my) 1 (ex + ey).
Proof.
  cbn [SFmul]. rewrite Pos2Z.inj_mul. apply binary_round_aux_exact. lia.
Qed.

Lemma SFdiv_finite sx mx ex sy my ey :
  SFdiv prec emax (S754_finite sx mx ex) (S754_finite sy my ey) =
    let e' := div_exp (Zpos mx) ex (Zpos my) ey in
    round_frac (xorb sx sy) (Zpos mx * 2 ^ (ex - ey - e')) (Zpos my) e'.
Proof.
  cbn [SFdiv]. unfold SFdiv_core_binary, div_exp. cbv zeta.
  set (e' := Z.min _ _).
  assert (Hs : 0 <= ex - ey - e') by lia.
  replace (match ex - ey - e' with
           | 0 => Zpos mx
           | Zpos _ => Z.shiftl (Zpos mx) (ex - ey - e')
           | Zneg _ => 0
           end) with (Zpos mx * 2 ^ (ex - ey - e')).
  2:{ destruct (ex - ey - e') as [|p|p] eqn:E; try lia.
      rewrite Z.shiftl_mul_pow2 by lia. reflexivity. }
  pose proof (pow2_pos _ Hs).
  rewrite <- binary_round_aux_frac by nia.
  unfold Z.div, Z.modulo.
  destruct (Z.div_eucl (Zpos mx * 2 ^ (ex - ey - e')) (Zpos my)) as [q r].
  reflexivity.
Qed.

Lemma iter_xO m d : Zpos (Pos.iter xO m d) = Zpos m * 2 ^ Zpos d.
Proof.
  induction d as [|d IH] using Pos.peano_ind.
  - simpl. lia.
  - rewrite Pos.iter_succ, Pos2Z.inj_xO, IH, Pos2Z.inj_succ, Z.pow_succ_r by lia. lia.
Qed.

Lemma binary_round_spec s m e :
  binary_round prec emax s m e =
    let g := fexp (Zdigits2 (Zpos m) + e) in
    round_frac s (Zpos m * 2 ^ Z.max 0 (e - g)) 1 (Z.min e g).
Proof.
  unfold binary_round, shl_align. cbv zeta.
  change (Zpos (digits2_pos m)) with (Zdigits2 (Zpos m)).
  set (g := fexp _).
  destruct (g - e) as [|p|p] eqn:E.
  - replace (Z.max 0 (e - g)) with 0 by lia. replace (Z.min e g) with e by lia.
    rewrite Z.mul_1_r. apply binary_round_aux_exact. lia.
  - replace (Z.max 0 (e - g)) with 0 by lia. replace (Z.min e g) with e by lia.
    rewrite Z.mul_1_r. apply binary_round_aux_exact. lia.
  - replace (Z.max 0 (e - g)) with (Zpos p) by lia. replace (Z.min e g) with g by lia.
    rewrite <- iter_xO. apply binary_round_aux_exact. lia.
Qed.

(** *** The fractions the operations round are well formed *)

Lemma Zdigits2_mul_pow2 m j : 0 < m -> 0 <= j -> Zdigits2 (m * 2 ^ j) = Zdigits2 m + j.
Proof.
  intros Hm Hj. pose proof (Zdigits2_bounds m Hm) as [Hl Hu].
  pose proof (Zdigits2_pos m Hm) as Hd. pose proof (pow2_pos j Hj) as Hp.
  apply Zdigits2_unique; [lia|].
  replace (Zdigits2 m + j - 1) with (Zdigits2 m - 1 + j) by lia.
  rewrite !Z.pow_add_r by lia. nia.
Qed.

Lemma Zdigits2_mul a b :
  0 < a -> 0 < b -> Zdigits2 a + Zdigits2 b - 1 <= Zdigits2 (a * b) <= Zdigits2 a + Zdigits2 b.
Proof.
  intros Ha Hb.
  pose proof (Zdigits2_bounds a Ha) as [Hla Hua].
  pose proof (Zdigits2_bounds b Hb) as [Hlb Hub].
  pose proof (Zdigits2_pos a Ha) as Hda. pose proof (Zdigits2_pos b Hb) as Hdb.
  pose proof (pow2_pos (Zdigits2 a - 1) ltac:(lia)).
  pose proof (pow2_pos (Zdigits2 b - 1) ltac:(lia)).
  split.
  - assert (Zdigits2 a - 1 + (Zdigits2 b - 1) < Zdigits2 (a * b)); [|lia].
    apply Zdigits2_ge_pow; [lia|]. rewrite Z.pow_add_r by lia. nia.
  - apply Zdigits2_lt_pow; [lia|]. rewrite Z.pow_add_r by lia. nia.
Qed.

Lemma WF_exact m e : 0 <= m -> e <= fexp (Zdigits2 m + e) -> WF m 1 e.
Proof. intros Hm He. unfold WF. rewrite Z.div_1_r. lia. Qed.

Lemma WF_mul mx ex my ey :
  canon (Zpos mx, ex) -> canon (Zpos my, ey) -> WF (Zpos mx * Zpos my) 1 (ex + ey).
Proof.
  unfold canon. cbn [fst snd]. change emin with (-1074). unfold prec.
  change (53 - 1) with 52.
  intros (Hx & Hex & Hcx) (Hy & Hey & Hcy). apply WF_exact; [lia|].
  rewrite fexp_eq.
  pose proof (Zdigits2_mul (Zpos mx) (Zpos my) ltac:(lia) ltac:(lia)) as [Hl _].
  pose proof (Zdigits2_pos (Zpos mx) ltac:(lia)).
  pose proof (Zdigits2_pos (Zpos my) ltac:(lia)).
  destruct Hcx as [->|Hcx].
  - destruct Hcy as [->|Hcy]; [lia|].
    assert (52 < Zdigits2 (Zpos my)) by (apply Zdigits2_ge_pow; lia). lia.
  - assert (52 < Zdigits2 (Zpos mx)) by (apply Zdigits2_ge_pow; lia). lia.
Qed.

Lemma WF_div mx ex my ey :
  0 < mx -> 0 < my ->
  let e' := div_exp mx ex my ey in
  WF (mx * 2 ^ (ex - ey - e')) my e'.
Proof.
  intros Hx Hy e'. assert (Hs : 0 <= ex - ey - e') by (unfold e', div_exp; lia).
  pose proof (pow2_pos _ Hs) as Hp.
  split; [nia|]. split; [assumption|].
  set (s := ex - ey - e') in *. set (Q := mx * 2 ^ s / my).
  destruct (Z_le_gt_dec e' (-1074)) as [Hle|Hgt].
  { rewrite fexp_eq. lia. }
  set (D := Zdigits2 mx + ex - (Zdigits2 my + ey)).
  assert (HD : e' <= D - 53).
  { unfold e', div_exp in *. fold D in Hgt |- *. rewrite fexp_eq in *. lia. }
  assert (HeD : e' <= fexp D) by (unfold e', div_exp; fold D; lia).
  pose proof (Zdigits2_bounds mx Hx) as [Hlx _].
  pose proof (Zdigits2_bounds my Hy) as [_ Huy].
  pose proof (Zdigits2_pos mx Hx) as Hdx. pose proof (Zdigits2_pos my Hy) as Hdy.
  set (dx := Zdigits2 mx) in *. set (dy := Zdigits2 my) in *.
  assert (Ht : 0 <= dx - 1 + s - dy) by (unfold D, s in *; lia).
  assert (HQ : 2 ^ (dx - 1 + s - dy) <= Q).
  { apply Z.div_le_lower_bound; [assumption|].
    assert (E : 2 ^ (dx - 1) * 2 ^ s = 2 ^ (dx - 1 + s - dy) * 2 ^ dy).
    { rewrite <- !Z.pow_add_r by lia. f_equal. lia. }
    pose proof (pow2_pos (dx - 1 + s - dy) Ht). nia. }
  assert (dx - 1 + s - dy < Zdigits2 Q) by (apply Zdigits2_ge_pow; assumption).
  apply Z.le_trans with (fexp D); [assumption|].
  apply fexp_mono. unfold D, s, dx, dy in *. fold Q. lia.
Qed.

Lemma WF_round m e :
  0 < m ->
  let g := fexp (Zdigits2 m + e) in
  WF (m * 2 ^ Z.max 0 (e - g)) 1 (Z.min e g).
Proof.
  intros Hm g. pose proof (pow2_pos (Z.max 0 (e - g)) ltac:(lia)).
  apply WF_exact; [nia|].
  rewrite Zdigits2_mul_pow2 by lia.
  replace (Zdigits2 m + Z.max 0 (e - g) + Z.min e g) with (Zdigits2 m + e) by lia.
  fold g. lia.
Qed.

(** The rounded exponent is at most one above the exponent of the
    magnitude. *)
Lemma round_exp_le N M e :
  WF N M e ->
  (renorm (round_core N M e)).2 <= fexp (Zdigits2 (N / M) + e) + 1.
Proof.
  intros H. pose proof (round_core_bounds N M e H) as (Hq & Hg & _).
  pose proof (round_core_grid N M e H) as Eg.
  destruct (round_core N M e) as [q g]. cbn [fst snd] in *. subst g.
  rewrite renorm_cases by assumption.
  destruct (q =? 2 ^ prec); cbn [snd]; lia.
Qed.

(** A number of the format rounds to itself. *)
Lemma round_canon_id m e j :
  canon (m, e) -> 0 <= j -> 0 < m ->
  renorm (round_core (m * 2 ^ j) 1 (e - j)) = (m, e).
Proof.
  unfold canon. cbn [fst snd]. change emin with (-1074). unfold prec.
  change (53 - 1) with 52.
  intros (Hm & He & Hc) Hj Hpos. unfold round_core.
  rewrite Z.div_1_r, Zdigits2_mul_pow2 by lia.
  replace (Zdigits2 m + j + (e - j)) with (Zdigits2 m + e) by lia.
  assert (Hd : Zdigits2 m <= 53) by (apply Zdigits2_lt_pow; lia).
  assert (Hf : fexp (Zdigits2 m + e) = e).
  { rewrite fexp_eq. destruct Hc as [->|Hc]; [lia|].
    assert (52 < Zdigits2 m) by (apply Zdigits2_ge_pow; lia). lia. }
  rewrite Hf. replace (Z.max 0 (e - (e - j))) with j by lia.
  rewrite Z.mul_1_l, rne_exact by (apply pow2_pos; lia).
  replace (e - j + j) with e by lia.
  rewrite renorm_cases by (change emin with (-1074); unfold prec; lia).
  destruct (Z.eqb_spec m (2 ^ prec)); [unfold prec in *; lia|reflexivity].
Qed.

(** *** Non-negative numbers of the format *)

Lemma canon_zero : canon (0, emin).
Proof.
  unfold canon. cbn [fst snd]. split; [|lia].
  split; [lia|]. apply pow2_pos. unfold Py.prec. lia.
Qed.

Lemma nonneg_canon f : nonneg f -> canon (pair_of f) /\ (pair_of f).2 <= emax - prec.
Proof.
  destruct f as [s|s| |[|] m e]; cbn [nonneg pair_of]; try tauto.
  - intros _. split; [apply canon_zero|]. vm_compute. discriminate.
  - apply bounded_canon.
Qed.

Lemma encode_finite p :
  canon p -> p.2 <= emax - prec ->
  nonneg (encode false p) /\ pair_of (encode false p) = p.
Proof.
  destruct p as [q e]. intros Hc He. pose proof Hc as (Hq & Hemin & Hn).
  cbn [fst snd] in *. unfold encode. cbn [fst snd].
  destruct q as [|m|m]; [| |lia].
  - cbn. split; [exact I|]. f_equal.
    assert (0 < 2 ^ (prec - 1)) by (apply pow2_pos; unfold Py.prec; lia). lia.
  - replace (e <=? emax - prec) with true by (symmetry; apply Z.leb_le; assumption).
    cbn [nonneg pair_of]. split; [|reflexivity].
    apply bounded_canon. split; assumption.
Qed.

Lemma encode_overflow p :
  canon p -> emax - prec < p.2 -> encode false p = S754_infinity false.
Proof.
  destruct p as [q e]. intros (Hq & Hemin & Hn) He. cbn [fst snd] in *.
  unfold encode. cbn [fst snd].
  assert (0 < 2 ^ (prec - 1)) by (apply pow2_pos; unfold Py.prec; lia).
  assert (emin < e) by (change emin with (-1074); unfold Py.emax, Py.prec in He; lia).
  destruct q as [|m|m]; try lia.
  replace (e <=? emax - prec) with false by (symmetry; apply Z.leb_gt; assumption).
  reflexivity.
Qed.

Lemma gt0_encode_true p : Py.float_gt0 (encode true p) = false.
Proof.
  unfold encode. destruct p.1; [reflexivity| |reflexivity].
  destruct (p.2 <=? emax - prec); reflexivity.
Qed.

Lemma SFleb_lex f f' :
  nonneg f -> nonneg f' -> SFleb f f' = true -> lex_le (pair_of f) (pair_of f').
Proof.
  intros Hf Hf'. pose proof (nonneg_canon f' Hf') as [(_ & Hemin & _) _].
  destruct f as [s|s| |[|] m e], f' as [s'|s'| |[|] m' e']; cbn [nonneg] in *; try tauto;
    cbn [pair_of fst snd] in *; unfold SFleb, lex_le; cbn [SFcompare fst snd].
  - intros _. lia.
  - intros _. lia.
  - discriminate.
  - destruct (Z.compare_spec e e') as [E|E|E].
    + change (Pos.compare_cont Eq m m') with (Pos.compare m m').
      destruct (Pos.compare_spec m m'); try discriminate; intros _; lia.
    + intros _. lia.
    + discriminate.
Qed.

Lemma lex_le_trans p1 p2 p3 : lex_le p1 p2 -> lex_le p2 p3 -> lex_le p1 p3.
Proof. unfold lex_le. lia. Qed.

Lemma lex_le_refl p : lex_le p p.
Proof. unfold lex_le. lia. Qed.

(** The order of the format is the order of the values. *)
Lemma lex_value p p' :
  canon p -> canon p' -> lex_le p p' ->
  p.1 * 2 ^ (p.2 - Z.min p.2 p'.2) <= p'.1 * 2 ^ (p'.2 - Z.min p.2 p'.2).
Proof.
  destruct p as [q e], p' as [q' e']. unfold canon, lex_le. cbn [fst snd].
  change emin with (-1074). unfold Py.prec. change (53 - 1) with 52.
  intros (Hq & He & Hc) (Hq' & He' & Hc') [Hlt|[-> Hle]].
  - replace (Z.min e e') with e by lia. rewrite Z.sub_diag, Z.mul_1_r.
    destruct Hc' as [->|Hc']; [lia|].
    assert (2 ^ 1 <= 2 ^ (e' - e)) by (apply pow2_le; lia).
    change (2 ^ 1) with 2 in *.
    assert (2 ^ 53 = 2 * 2 ^ 52) by reflexivity. nia.
  - rewrite Z.min_id, Z.sub_diag, !Z.mul_1_r. assumption.
Qed.

(** Both sides of an inequality between scaled integers may be moved
    by the same number of places. *)
Lemma pow2_shift_le a b u v d :
  0 <= a -> 0 <= u -> 0 <= v -> 0 <= u + d -> 0 <= v + d ->
  a * 2 ^ u <= b * 2 ^ v -> a * 2 ^ (u + d) <= b * 2 ^ (v + d).
Proof.
  intros Ha Hu Hv Hud Hvd H. destruct (Z_le_gt_dec 0 d) as [Hd|Hd].
  - rewrite !Z.pow_add_r by lia. pose proof (pow2_pos d Hd). nia.
  - pose proof (pow2_pos (- d) ltac:(lia)) as Hp.
    assert (E1 : 2 ^ u = 2 ^ (u + d) * 2 ^ (- d))
      by (rewrite <- Z.pow_add_r by lia; f_equal; lia).
    assert (E2 : 2 ^ v = 2 ^ (v + d) * 2 ^ (- d))
      by (rewrite <- Z.pow_add_r by lia; f_equal; lia).
    rewrite E1, E2 in H.
    apply Z.mul_le_mono_pos_r with (p := 2 ^ (- d)); [assumption|]. lia.
Qed.

(** *** Division *)

Lemma SFdiv_pos mx ex my ey :
  SFdiv prec emax (S754_finite false mx ex) (S754_finite false my ey) =
    encode false (div_pair (Zpos mx) ex (Zpos my) ey).
Proof. rewrite SFdiv_finite. reflexivity. Qed.

Lemma div_pair_canon mx ex my ey :
  0 < mx -> 0 < my -> canon (div_pair mx ex my ey).
Proof. intros Hx Hy. apply round_canon, WF_div; assumption. Qed.

Lemma div_magnitude mx ex my ey :
  0 < mx -> 0 < my ->
  let e' := div_exp mx ex my ey in
  fexp (Zdigits2 (mx * 2 ^ (ex - ey - e') / my) + e')
    <= fexp (Zdigits2 mx + ex - (Zdigits2 my + ey) + 1).
Proof.
  intros Hx Hy e'. pose proof (WF_div mx ex my ey Hx Hy) as (_ & _ & Hwf).
  fold e' in Hwf. assert (Hs : 0 <= ex - ey - e') by (unfold e', div_exp; lia).
  set (s := ex - ey - e') in *. set (Q := mx * 2 ^ s / my) in *.
  pose proof (pow2_pos s Hs) as Hp.
  pose proof (Zdigits2_bounds mx Hx) as [_ Hux].
  pose proof (Zdigits2_bounds my Hy) as [Hly _].
  pose proof (Zdigits2_pos mx Hx) as Hdx. pose proof (Zdigits2_pos my Hy) as Hdy.
  set (dx := Zdigits2 mx) in *. set (dy := Zdigits2 my) in *.
  assert (HQ0 : 0 <= Q) by (apply Z.div_pos; nia).
  assert (HQ : Q * my <= mx * 2 ^ s).
  { unfold Q. rewrite Z.mul_comm. apply Z.mul_div_le. assumption. }
  pose proof (pow2_pos (dy - 1) ltac:(lia)) as Hpy.
  assert (HQ2 : Q * 2 ^ (dy - 1) < 2 ^ (dx + s)).
  { rewrite Z.pow_add_r by lia. nia. }
  destruct (Z_le_gt_dec 0 (dx + s - dy + 1)) as [Hk|Hk].
  - apply fexp_mono.
    assert (Zdigits2 Q <= dx + s - dy + 1); [|unfold s in *; lia].
    apply Zdigits2_lt_pow; [assumption|]. split; [assumption|].
    assert (E : 2 ^ (dx + s) = 2 ^ (dx + s - dy + 1) * 2 ^ (dy - 1))
      by (rewrite <- Z.pow_add_r by lia; f_equal; lia).
    rewrite E in HQ2. nia.
  - assert (Q = 0).
    { assert (2 ^ (dx + s) <= 2 ^ (dy - 1)) by (apply pow2_le; lia). nia. }
    rewrite H in *. cbn [Zdigits2] in *. rewrite !fexp_eq in *. lia.
Qed.

Lemma div_pair_exp mx ex my ey :
  0 < mx -> 0 < my ->
  (div_pair mx ex my ey).2 <= fexp (Zdigits2 mx + ex - (Zdigits2 my + ey) + 1) + 1.
Proof.
  intros Hx Hy. unfold div_pair. cbv zeta.
  pose proof (round_exp_le _ _ _ (WF_div mx ex my ey Hx Hy)) as H.
  pose proof (div_magnitude mx ex my ey Hx Hy) as H'. cbv zeta in *. lia.
Qed.

(** The quotient grows with the dividend. *)
Lemma div_pair_mono mx ex mx' ex' my ey :
  0 < mx -> 0 < mx' -> 0 < my ->
  mx * 2 ^ (ex - Z.min ex ex') <= mx' * 2 ^ (ex' - Z.min ex ex') ->
  lex_le (div_pair mx ex my ey) (div_pair mx' ex' my ey).
Proof.
  intros Hx Hx' Hy Hle. unfold div_pair. cbv zeta.
  apply round_mono; try (apply WF_div; assumption).
  unfold vle.
  set (e1 := div_exp mx ex my ey). set (e2 := div_exp mx' ex' my ey).
  assert (Hs1 : 0 <= ex - ey - e1) by (unfold e1, div_exp; lia).
  assert (Hs2 : 0 <= ex' - ey - e2) by (unfold e2, div_exp; lia).
  set (c := Z.min ex ex') in *. set (c1 := Z.min e1 e2).
  assert (E1 : 2 ^ (ex - ey - e1) * 2 ^ (e1 - c1) = 2 ^ (ex - c + (c - ey - c1)))
    by (rewrite <- Z.pow_add_r by lia; f_equal; lia).
  assert (E2 : 2 ^ (ex' - ey - e2) * 2 ^ (e2 - c1) = 2 ^ (ex' - c + (c - ey - c1)))
    by (rewrite <- Z.pow_add_r by lia; f_equal; lia).
  assert (H : mx * 2 ^ (ex - c + (c - ey - c1)) <= mx' * 2 ^ (ex' - c + (c - ey - c1))).
  { apply pow2_shift_le; try lia. }
  rewrite <- E1, <- E2 in H. nia.
Qed.

(** *** Multiplication *)

Lemma SFmul_pos mx ex my ey :
  SFmul prec emax (S754_finite false mx ex) (S754_finite false my ey) =
    encode false (mul_pair (Zpos mx) ex (Zpos my) ey).
Proof. rewrite SFmul_finite. reflexivity. Qed.

Lemma mul_pair_canon mx ex my ey :
  canon (Zpos mx, ex) -> canon (Zpos my, ey) ->
  canon (mul_pair (Zpos mx) ex (Zpos my) ey).
Proof. intros Hx Hy. apply round_canon, WF_mul; assumption. Qed.

Lemma mul_pair_exp mx ex my ey :
  canon (Zpos mx, ex) -> canon (Zpos my, ey) ->
  (mul_pair (Zpos mx) ex (Zpos my) ey).2
    <= fexp (Zdigits2 (Zpos mx) + Zdigits2 (Zpos my) + ex + ey) + 1.
Proof.
  intros Hx Hy. unfold mul_pair.
  pose proof (round_exp_le _ _ _ (WF_mul mx ex my ey Hx Hy)) as H.
  rewrite Z.div_1_r in H.
  pose proof (Zdigits2_mul (Zpos mx) (Zpos my) ltac:(lia) ltac:(lia)) as [_ Hu].
  assert (fexp (Zdigits2 (Zpos mx * Zpos my) + (ex + ey))
          <= fexp (Zdigits2 (Zpos mx) + Zdigits2 (Zpos my) + ex + ey))
    by (apply fexp_mono; lia).
  lia.
Qed.

(** Multiplying by a number at most one does not increase. *)
Lemma mul_pair_le mx ex my ey :
  canon (Zpos mx, ex) -> canon (Zpos my, ey) ->
  lex_le (Zpos my, ey) (2 ^ 52, -52) ->
  lex_le (mul_pair (Zpos mx) ex (Zpos my) ey) (Zpos mx, ex).
Proof.
  intros Hx Hy Hle. unfold mul_pair.
  rewrite <- (round_canon_id (Zpos mx) ex 0 Hx) by lia.
  assert (Hone : canon (2 ^ 52, -52)).
  { split; [split; vm_compute; congruence|].
    split; [vm_compute; congruence|right; vm_compute; congruence]. }
  pose proof (lex_value _ _ Hy Hone Hle) as Hv. cbn [fst snd] in Hv.
  assert (Hey : ey <= -52) by (unfold lex_le in Hle; cbn [fst snd] in Hle; lia).
  replace (Z.min ey (-52)) with ey in Hv by lia.
  rewrite Z.sub_diag, Z.mul_1_r in Hv.
  assert (Hv' : Zpos my <= 2 ^ (- ey)).
  { replace (- ey) with (52 + (-52 - ey)) by lia. rewrite Z.pow_add_r by lia. lia. }
  apply round_mono.
  - apply WF_mul; assumption.
  - rewrite Z.pow_0_r, Z.mul_1_r, Z.sub_0_r. apply WF_exact; [lia|].
    destruct Hx as (Hm & He & Hc). cbn [fst snd] in *.
    change emin with (-1074) in *. unfold Py.prec in *. change (53 - 1) with 52 in *.
    rewrite fexp_eq. pose proof (Zdigits2_pos (Zpos mx) ltac:(lia)).
    destruct Hc as [->|Hc]; [lia|].
    assert (52 < Zdigits2 (Zpos mx)) by (apply Zdigits2_ge_pow; lia). lia.
  - unfold vle. rewrite Z.pow_0_r, Z.sub_0_r, !Z.mul_1_r.
    replace (Z.min (ex + ey) ex) with (ex + ey) by lia.
    rewrite Z.sub_diag, Z.mul_1_r.
    replace (ex - (ex + ey)) with (- ey) by lia. nia.
Qed.

(** *** The operations on non-negative numbers of the format *)

Lemma lex_le_zero p : canon p -> lex_le (0, emin) p.
Proof. intros (Hq & He & _). unfold lex_le. cbn [fst snd]. lia. Qed.

Lemma int_truediv_zero b : 0 < b -> Py.int_truediv 0 b = Ok (S754_zero false).
Proof.
  intros Hb. unfold Py.int_truediv.
  replace (b =? 0) with false by (symmetry; apply Z.eqb_neq; lia).
  destruct b; try lia. reflexivity.
Qed.

Lemma int_truediv_pos a b :
  0 < a -> 0 < b -> Zdigits2 a <= 1022 ->
  let p := div_pair a 0 b 0 in
  Py.int_truediv a b = Ok (encode false p) /\
  nonneg (encode false p) /\ pair_of (encode false p) = p /\
  p.2 <= fexp (Zdigits2 a - Zdigits2 b + 1) + 1.
Proof.
  intros Ha Hb Hd p. unfold Py.int_truediv.
  replace (b =? 0) with false by (symmetry; apply Z.eqb_neq; lia).
  pose proof (div_pair_canon a 0 b 0 Ha Hb) as Hc.
  pose proof (div_pair_exp a 0 b 0 Ha Hb) as He. fold p in Hc, He.
  rewrite !Z.add_0_r in He.
  pose proof (Zdigits2_pos b Hb).
  assert (Hfin : p.2 <= emax - prec).
  { rewrite fexp_eq in He. unfold Py.emax, Py.prec. lia. }
  destruct (encode_finite p Hc Hfin) as [Hnn Hp].
  destruct a as [|a|a], b as [|b|b]; try lia. cbn [Py.exact].
  rewrite SFdiv_pos. fold p.
  split; [|auto].
  destruct (encode false p); cbn [nonneg] in Hnn; try tauto; reflexivity.
Qed.

Lemma int_truediv_nonneg a b :
  0 <= a -> 0 < b -> Zdigits2 a <= 1022 ->
  exists f, Py.int_truediv a b = Ok f /\ nonneg f /\
            (pair_of f).2 <= fexp (Zdigits2 a - Zdigits2 b + 1) + 1.
Proof.
  intros Ha Hb Hd. destruct (Z.eq_dec a 0%Z) as [->|Hne].
  - exists (S754_zero false). rewrite int_truediv_zero by assumption.
    split; [reflexivity|]. split; [exact I|]. cbn [pair_of snd].
    pose proof (fexp_ge_emin (Zdigits2 0 - Zdigits2 b + 1)). lia.
  - destruct (int_truediv_pos a b ltac:(lia) Hb Hd) as (E & Hnn & Hp & He).
    eexists. split; [exact E|]. split; [assumption|]. rewrite Hp. assumption.
Qed.

Lemma int_truediv_mono a a' b f f' :
  0 <= a <= a' -> 0 < b -> Zdigits2 a' <= 1022 ->
  Py.int_truediv a b = Ok f -> Py.int_truediv a' b = Ok f' ->
  lex_le (pair_of f) (pair_of f').
Proof.
  intros [Ha Haa'] Hb Hd' E E'.
  assert (Hd : Zdigits2 a <= 1022)
    by (pose proof (Zdigits2_le a a' ltac:(lia)); lia).
  destruct (Z.eq_dec a' 0) as [->|Hne'].
  { assert (a = 0) by lia. subst a. rewrite E in E'. injection E' as ->.
    apply lex_le_refl. }
  destruct (int_truediv_pos a' b ltac:(lia) Hb Hd') as (E1' & _ & Hp' & _).
  rewrite E' in E1'. injection E1' as ->. rewrite Hp'.
  destruct (Z.eq_dec a 0%Z) as [->|Hne].
  { rewrite int_truediv_zero in E by assumption. injection E as <-.
    apply lex_le_zero, div_pair_canon; lia. }
  destruct (int_truediv_pos a b ltac:(lia) Hb Hd) as (E1 & _ & Hp & _).
  rewrite E in E1. injection E1 as ->. rewrite Hp.
  apply div_pair_mono; try lia. rewrite Z.min_id, Z.sub_diag. lia.
Qed.

Lemma float_of_int_100 : Py.float_of_int 100 = Ok c100.
Proof. vm_compute. reflexivity. Qed.

Lemma nonneg_c100 : nonneg c100.
Proof. vm_compute. reflexivity. Qed.

(** A target of at most 100 percent gives a ratio of at most one. *)
Lemma ratio_le_one T :
  nonneg T -> SFleb T c100 = true ->
  nonneg (SFdiv prec emax T c100) /\
  lex_le (pair_of (SFdiv prec emax T c100)) (2 ^ 52, -52).
Proof.
  intros HT Hle. pose proof (SFleb_lex T c100 HT nonneg_c100 Hle) as Hlex.
  pose proof (nonneg_canon T HT) as [Hc _].
  pose proof (nonneg_canon c100 nonneg_c100) as [Hc100 _].
  destruct T as [s|s| |[|] m e]; cbn [nonneg] in HT; try tauto.
  - cbn. split; [exact I|]. unfold lex_le. cbn [fst snd]. change emin with (-1074). lia.
  - unfold c100 in *. rewrite SFdiv_pos. cbn [pair_of] in Hlex, Hc, Hc100.
    set (p := div_pair (Zpos m) e 7036874417766400 (-46)).
    assert (Hone : div_pair 7036874417766400 (-46) 7036874417766400 (-46) = (2 ^ 52, -52))
      by (vm_compute; reflexivity).
    assert (Hp : lex_le p (2 ^ 52, -52)).
    { rewrite <- Hone. apply div_pair_mono; try lia.
      apply (lex_value _ _ Hc Hc100 Hlex). }
    pose proof (div_pair_canon (Zpos m) e 7036874417766400 (-46) ltac:(lia) ltac:(lia))
      as Hcp. fold p in Hcp.
    assert (Hfin : p.2 <= emax - prec).
    { unfold lex_le in Hp. cbn [fst snd] in Hp. unfold Py.emax, Py.prec. lia. }
    destruct (encode_finite p Hcp Hfin) as [Hnn Hpp].
    split; [assumption|]. rewrite Hpp. assumption.
Qed.

Lemma SFmul_le x r :
  nonneg x -> nonneg r -> lex_le (pair_of r) (2 ^ 52, -52) ->
  nonneg (SFmul prec emax x r) /\
  lex_le (pair_of (SFmul prec emax x r)) (pair_of x).
Proof.
  intros Hx Hr Hle.
  pose proof (nonneg_canon x Hx) as [Hcx Hex].
  pose proof (nonneg_canon r Hr) as [Hcr _].
  destruct x as [sx|sx| |[|] mx ex]; cbn [nonneg] in Hx; try tauto;
    destruct r as [sr|sr| |[|] mr er]; cbn [nonneg] in Hr; try tauto;
    cbn [SFmul]; try (split; [exact I|apply lex_le_zero; assumption]).
  change (binary_round_aux prec emax (xorb false false)
            (Zpos (mx * mr)) (ex + er) loc_Exact)
    with (SFmul prec emax (S754_finite false mx ex) (S754_finite false mr er)).
  rewrite SFmul_pos. cbn [pair_of] in *.
  set (p := mul_pair (Zpos mx) ex (Zpos mr) er).
  pose proof (mul_pair_le mx ex mr er Hcx Hcr Hle) as Hp. fold p in Hp.
  pose proof (mul_pair_canon mx ex mr er Hcx Hcr) as Hcp. fold p in Hcp.
  assert (Hfin : p.2 <= emax - prec).
  { unfold lex_le in Hp. cbn [fst snd] in *. lia. }
  destruct (encode_finite p Hcp Hfin) as [Hnn Hpp].
  split; [assumption|]. rewrite Hpp. assumption.
Qed.

(** *** Subtraction *)

Lemma shl_align_fst mx ex ez :
  ez <= ex -> Zpos (shl_align mx ex ez).1 = Zpos mx * 2 ^ (ex - ez).
Proof.
  intros H. unfold shl_align. destruct (ez - ex) as [|d|d] eqn:E; try lia.
  - replace (ex - ez) with 0 by lia. cbn [fst]. lia.
  - cbn [fst]. rewrite iter_xO. f_equal. f_equal. lia.
Qed.

Lemma binary_normalize_pos m e :
  0 < m ->
  exists p, binary_normalize prec emax m e false = encode false p /\ canon p /\
            p.2 <= fexp (Zdigits2 m + e) + 1.
Proof.
  intros Hm. destruct m as [|m|m]; try lia. cbn [binary_normalize].
  rewrite binary_round_spec. cbv zeta.
  pose proof (WF_round (Zpos m) e ltac:(lia)) as Hwf. cbv zeta in Hwf.
  set (g := fexp (Zdigits2 (Zpos m) + e)) in *.
  exists (renorm (round_core (Zpos m * 2 ^ Z.max 0 (e - g)) 1 (Z.min e g))).
  split; [reflexivity|]. split; [apply round_canon; assumption|].
  pose proof (round_exp_le _ _ _ Hwf) as H.
  rewrite Z.div_1_r, Zdigits2_mul_pow2 in H by lia.
  replace (Zdigits2 (Zpos m) + Z.max 0 (e - g) + Z.min e g)
    with (Zdigits2 (Zpos m) + e) in H by lia.
  assumption.
Qed.

Lemma binary_normalize_neg m e :
  m <= 0 -> Py.float_gt0 (binary_normalize prec emax m e false) = false.
Proof.
  intros Hm. destruct m as [|m|m]; try lia; cbn [binary_normalize]; [reflexivity|].
  rewrite binary_round_spec. apply gt0_encode_true.
Qed.

Lemma SFsub_nonneg t b :
  nonneg t -> nonneg b ->
  (lex_le (pair_of t) (pair_of b) -> Py.float_gt0 (SFsub prec emax t b) = false) /\
  (Py.float_gt0 (SFsub prec emax t b) = true ->
   (pair_of t).2 + 1 <= emax - prec ->
   nonneg (SFsub prec emax t b) /\
   (pair_of (SFsub prec emax t b)).2 <= (pair_of t).2 + 1 /\
   exists m e, SFsub prec emax t b = S754_finite false m e).
Proof.
  intros Ht Hb.
  pose proof (nonneg_canon t Ht) as [Hct Het].
  pose proof (nonneg_canon b Hb) as [Hcb Heb].
  destruct t as [st|st| |[|] mx ex]; cbn [nonneg] in Ht; try tauto;
    destruct b as [sb|sb| |[|] my ey]; cbn [nonneg] in Hb; try tauto.
  - split; [intros _|intros H; exfalso]; destruct st, sb; cbn in *; congruence.
  - split; [intros _|intros H; exfalso]; cbn in *; congruence.
  - split.
    + intros Hle. exfalso. destruct Hct as (_ & He & _).
      unfold lex_le in Hle. cbn [pair_of fst snd] in *. lia.
    + intros _ _. cbn [SFsub pair_of snd]. split; [exact Ht|]. split; [lia|eauto].
  - cbn [SFsub]. unfold cond_Zopp.
    rewrite !shl_align_fst by lia. cbn [pair_of fst snd] in *.
    set (ez := Z.min ex ey).
    set (X := Zpos mx * 2 ^ (ex - ez)). set (Y := Zpos my * 2 ^ (ey - ez)).
    split.
    + intros Hle. apply binary_normalize_neg.
      pose proof (lex_value _ _ Hct Hcb Hle) as Hv. cbn [fst snd] in Hv.
      fold ez in Hv. fold X Y in Hv. lia.
    + intros Hgt Hfin.
      destruct (Z_le_gt_dec (X - Y) 0) as [Hneg|Hpos].
      { rewrite binary_normalize_neg in Hgt by assumption. discriminate. }
      destruct (binary_normalize_pos (X - Y) ez ltac:(lia)) as (p & E & Hcp & Hp).
      rewrite E in *.
      assert (HX : 0 < X) by (unfold X; pose proof (pow2_pos (ex - ez) ltac:(lia)); nia).
      assert (Hd : Zdigits2 (X - Y) <= Zdigits2 X).
      { apply Zdigits2_le. unfold Y.
        pose proof (pow2_pos (ey - ez) ltac:(lia)). nia. }
      assert (HdX : Zdigits2 X + ez = Zdigits2 (Zpos mx) + ex).
      { unfold X. rewrite Zdigits2_mul_pow2 by lia. lia. }
      assert (Hfx : fexp (Zdigits2 (Zpos mx) + ex) = ex).
      { unfold bounded, canonical_mantissa in Ht.
        apply andb_true_iff in Ht as [Ht _]. apply Z.eqb_eq in Ht. exact Ht. }
      assert (Hpe : p.2 <= ex + 1).
      { pose proof (fexp_mono (Zdigits2 (X - Y) + ez) (Zdigits2 X + ez) ltac:(lia)).
        rewrite HdX, Hfx in H. lia. }
      destruct (encode_finite p Hcp ltac:(lia)) as [Hnn Hpp].
      split; [assumption|]. split; [rewrite Hpp; assumption|].
      destruct (encode false p); cbn [nonneg] in Hnn; try tauto; try discriminate.
      destruct s; [tauto|eauto].
Qed.

(** *** Signs, whatever the operands *)

Lemma renorm_nonneg qg : 0 <= qg.1 -> 0 <= (renorm qg).1.
Proof.
  intros H. unfold renorm. cbn [fst]. apply Z.div_pos; [assumption|].
  apply pow2_pos. lia.
Qed.

Lemma round_frac_unsigned N M e : 0 <= N -> 0 < M -> unsigned (round_frac false N M e).
Proof.
  intros HN HM. unfold round_frac, encode.
  assert (H : 0 <= (renorm (round_core N M e)).1).
  { apply renorm_nonneg. unfold round_core. cbn [fst].
    apply rne_nonneg; [assumption|].
    apply Z.mul_pos_pos; [assumption|apply pow2_pos; lia]. }
  destruct (renorm (round_core N M e)).1; [exact I| |lia].
  destruct (_ <=? _); exact I.
Qed.

Lemma gt0_unsigned f :
  Py.float_gt0 f = true ->
  (exists m e, f = S754_finite false m e) \/ f = S754_infinity false.
Proof.
  destruct f as [s|[|]| |[|] m e]; cbn; try discriminate; eauto.
Qed.

Lemma SFmul_unsigned x y :
  unsigned x -> unsigned y ->
  unsigned (SFmul prec emax x y) \/ SFmul prec emax x y = S754_nan.
Proof.
  destruct x as [[|]|[|]| |[|] mx ex]; cbn [unsigned]; try tauto;
    destruct y as [[|]|[|]| |[|] my ey]; cbn [unsigned]; try tauto; intros _ _;
    try (left; exact I); try (right; reflexivity).
  left. rewrite SFmul_finite. apply round_frac_unsigned; lia.
Qed.

Lemma int_of_float_unsigned f z : unsigned f -> Py.int_of_float f = Ok z -> 0 <= z.
Proof.
  destruct f as [[|]|[|]| |[|] m e]; cbn [unsigned Py.int_of_float]; try tauto;
    intros _ [= <-]; [lia|].
  destruct e; [apply Z.shiftl_nonneg|apply Z.shiftl_nonneg|apply Z.shiftr_nonneg]; lia.
Qed.

Lemma int_of_float_nonneg f :
  nonneg f -> exists z, Py.int_of_float f = Ok z /\ 0 <= z.
Proof.
  destruct f as [s|s| |[|] m e]; cbn [nonneg]; try tauto; intros _.
  - exists 0. split; [reflexivity|lia].
  - eexists. split; [reflexivity|].
    destruct e; [apply Z.shiftl_nonneg|apply Z.shiftl_nonneg|apply Z.shiftr_nonneg]; lia.
Qed.

(** The scale [10^D] as a float: positive, never zero. *)
Lemma float_of_int_pos n f :
  0 < n -> Py.float_of_int n = Ok f -> exists m e, f = S754_finite false m e.
Proof.
  intros Hn. unfold Py.float_of_int.
  destruct n as [|n|n]; try lia. cbn [binary_normalize].
  rewrite binary_round_spec. cbv zeta.
  pose proof (WF_round (Zpos n) 0 ltac:(lia)) as Hwf. cbv zeta in Hwf.
  set (g := fexp (Zdigits2 (Zpos n) + 0)) in *.
  pose proof (round_core_bounds _ _ _ Hwf) as (Hq & Hg & Hc).
  pose proof (round_core_grid _ _ _ Hwf) as Eg. cbv zeta in *.
  rewrite Z.div_1_r, Zdigits2_mul_pow2 in Eg by lia.
  replace (Zdigits2 (Zpos n) + Z.max 0 (0 - g) + Z.min 0 g)
    with (Zdigits2 (Zpos n) + 0) in Eg by lia.
  fold g in Eg.
  assert (Hgmin : emin < g).
  { unfold g. rewrite fexp_eq. change emin with (-1074).
    pose proof (Zdigits2_pos (Zpos n) ltac:(lia)). lia. }
  unfold round_frac.
  destruct (round_core (Zpos n * 2 ^ Z.max 0 (0 - g)) 1 (Z.min 0 g)) as [q g'].
  cbn [fst snd] in *. subst g'.
  assert (Hq52 : 2 ^ (prec - 1) <= q) by (destruct Hc; lia).
  rewrite renorm_cases by lia. unfold encode.
  assert (0 < 2 ^ (prec - 1)) by (apply pow2_pos; unfold Py.prec; lia).
  destruct (Z.eqb_spec q (2 ^ prec)); cbn [fst snd].
  - change (2 ^ (prec - 1)) with (Zpos 4503599627370496).
    destruct (_ <=? _); cbn; [intros [= <-]; eauto|discriminate].
  - destruct q as [|q|q]; try lia.
    destruct (_ <=? _); cbn; [intros [= <-]; eauto|discriminate].
Qed.

Lemma scale_ok_all : forallb scale_ok (seq 0 309) = true.
Proof. vm_compute. reflexivity. Qed.

Lemma float_of_int_scale (D : N) :
  (D <= 308)%N ->
  exists m e, Py.float_of_int (10 ^ Z.of_N D) = Ok (S754_finite false m e) /\
              bounded prec emax m e = true /\
              e <= Zdigits2 (10 ^ Z.of_N D) - 52 /\
              Zdigits2 (10 ^ Z.of_N D) <= 1024.
Proof.
  intros HD. pose proof scale_ok_all as H.
  rewrite forallb_forall in H. specialize (H (N.to_nat D)).
  rewrite in_seq in H. specialize (H ltac:(lia)).
  unfold scale_ok in H. rewrite N_nat_Z in H.
  destruct (Py.float_of_int (10 ^ Z.of_N D)) as [[s|s| |[|] m e]|]; try discriminate.
  apply andb_true_iff in H as [H Hd]. apply andb_true_iff in H as [Hb He].
  apply Z.leb_le in He. apply Z.leb_le in Hd. eauto 6.
Qed.

End RoundFacts.

(** ** Exact values of the operations *)

Module ExactFacts.
Import Round RoundFacts Exact.
Local Open Scope Q_scope.

Lemma inject_Z_sub x y : inject_Z (x - y) = inject_Z x - inject_Z y.
Proof. unfold Z.sub. rewrite inject_Z_plus, inject_Z_opp. reflexivity. Qed.

Ltac push_inj H :=
  repeat first [rewrite inject_Z_mult in H | rewrite inject_Z_plus in H
               | rewrite inject_Z_sub in H | rewrite inject_Z_opp in H].

Lemma bpow_add a b : bpow (a + b) == bpow a * bpow b.
Proof. apply Qpower_plus. discriminate. Qed.

Lemma bpow_pos e : 0 < bpow e.
Proof. apply Qpower_0_lt. reflexivity. Qed.

Lemma bpow_of_Z e : (0 <= e)%Z -> bpow e == inject_Z (2 ^ e).
Proof. intros H. unfold bpow. rewrite Zpower_Qpower by assumption. reflexivity. Qed.

Lemma bpow_le a b : (a <= b)%Z -> bpow a <= bpow b.
Proof. intros H. apply Qpower_le_compat_l; [assumption|discriminate]. Qed.

Lemma bpow_shift a n : (0 <= n)%Z -> bpow (a + n) == bpow a * inject_Z (2 ^ n).
Proof. intros H. rewrite bpow_add, (bpow_of_Z n H). reflexivity. Qed.

Lemma bpow_shift' n a : (0 <= n)%Z -> bpow (n + a) == inject_Z (2 ^ n) * bpow a.
Proof. intros H. rewrite bpow_add, (bpow_of_Z n H). reflexivity. Qed.

Lemma inject_Z_pos z : (0 < z)%Z -> 0 < inject_Z z.
Proof. intros H. rewrite Zlt_Qlt in H. exact H. Qed.

Lemma inject_Z_nonneg z : (0 <= z)%Z -> 0 <= inject_Z z.
Proof. intros H. rewrite Zle_Qle in H. exact H. Qed.

Lemma val_renorm q g :
  (0 <= q <= 2 ^ prec)%Z -> (emin <= g)%Z -> val (renorm (q, g)) == val (q, g).
Proof.
  intros Hq Hg. rewrite renorm_cases by assumption.
  destruct (Z.eqb_spec q (2 ^ prec)) as [->|]; [|reflexivity].
  unfold val. cbn [fst snd]. rewrite bpow_add.
  change (bpow 1) with 2. 
  change (inject_Z (2 ^ (prec - 1))) with (4503599627370496 # 1).
  change (inject_Z (2 ^ prec)) with (9007199254740992 # 1). ring.
Qed.

Lemma rne_err N M :
  (0 < M)%Z -> Qabs (inject_Z (rne N M) - inject_Z N / inject_Z M) <= 1 # 2.
Proof.
  intros HM. destruct (rne_spec N M HM) as [[H1 H2] _].
  rewrite Zle_Qle in H1, H2.
  push_inj H1. push_inj H2.
  pose proof (inject_Z_pos M HM) as Hm.
  set (a := inject_Z (rne N M)) in *. set (m := inject_Z M) in *.
  set (n := inject_Z N) in *.
  assert (E : n == n / m * m) by (field; lra).
  set (x := n / m) in *.
  change (inject_Z 2) with 2 in *. change (inject_Z 1) with 1 in *.
  apply Qabs_Qle_condition. split; nra.
Qed.

Lemma inject_Z_ne0 z : (0 < z)%Z -> ~ inject_Z z == 0.
Proof. intros H E. apply inject_Z_pos in H. lra. Qed.

Lemma frac_shift N M e n :
  (0 < M)%Z -> (0 <= n)%Z -> frac N (M * 2 ^ n) (e + n) == frac N M e.
Proof.
  intros HM Hn. unfold frac. rewrite (bpow_shift e n Hn), inject_Z_mult.
  field. split; apply inject_Z_ne0; first [assumption|apply pow2_pos; assumption].
Qed.

Lemma Zdiv_le_Qdiv N M : (0 < M)%Z -> inject_Z (N / M) <= inject_Z N / inject_Z M.
Proof. intros _. rewrite Zdiv_Qdiv. apply Qfloor_le. Qed.

Lemma bpow_half g : bpow (g - 1) == (1 # 2) * bpow g.
Proof.
  replace (g - 1)%Z with (g + -1)%Z by lia.
  rewrite bpow_add. change (bpow (-1)) with (1 # 2). ring.
Qed.

(** The error of one rounding: half a unit of the last place; a
    normal result has 53 significant bits; a magnitude already on the
    grid is kept. *)
Lemma round_val N M e :
  WF N M e ->
  let p := renorm (round_core N M e) in
  let g := fexp (Zdigits2 (N / M) + e) in
  Qabs (val p - frac N M e) <= bpow (g - 1) /\
  (g = emin \/ bpow (g + 52) <= frac N M e) /\
  (g = e -> M = 1%Z -> val p == frac N M e).
Proof.
  intros Hwf. pose proof (round_core_bounds N M e Hwf) as (Hq & Hg & _).
  destruct Hwf as (HN & HM & He). cbv zeta in *. unfold round_core in *.
  set (g := fexp (Zdigits2 (N / M) + e)) in *. cbn [fst snd] in Hq, Hg.
  replace (Z.max 0 (g - e)) with (g - e)%Z in * by lia.
  assert (Hn : (0 <= g - e)%Z) by lia. set (n := (g - e)%Z) in *.
  assert (HM' : (0 < M * 2 ^ n)%Z).
  { pose proof (pow2_pos n Hn). nia. }
  rewrite (val_renorm _ _ Hq Hg).
  assert (Ev : val (rne N (M * 2 ^ n), (e + n)%Z) - frac N M e ==
               (inject_Z (rne N (M * 2 ^ n)) - inject_Z N / inject_Z (M * 2 ^ n)) * bpow g).
  { rewrite <- (frac_shift N M e n HM Hn). unfold val, frac. cbn [fst snd].
    replace (e + n)%Z with g by (unfold n; lia). ring. }
  split; [|split].
  - rewrite Ev, Qabs_Qmult, bpow_half.
    rewrite (Qabs_pos (bpow g)) by (apply Qlt_le_weak, bpow_pos).
    apply Qmult_le_compat_r; [apply rne_err; assumption|apply Qlt_le_weak, bpow_pos].
  - destruct (Z.eq_dec g emin) as [|Hne]; [left; assumption|right].
    assert (Hd : (0 < N / M)%Z).
    { destruct (Z.eq_dec (N / M)%Z 0%Z) as [E0|]; [|pose proof (Z.div_pos N M HN HM); lia].
      exfalso. unfold g in Hne, He. rewrite E0, fexp_eq in *. cbn [Zdigits2] in *.
      change emin with (-1074)%Z in Hne. lia. }
    pose proof (Zdigits2_bounds (N / M) Hd) as [Hlo _].
    pose proof (Zdigits2_pos (N / M) Hd) as Hdp.
    assert (Eg : (g + 52 = (Zdigits2 (N / M) - 1) + e)%Z).
    { unfold g in *. rewrite fexp_eq in *. change emin with (-1074)%Z in Hne. lia. }
    rewrite Eg, bpow_shift' by lia. unfold frac.
    apply Qmult_le_compat_r; [|apply Qlt_le_weak, bpow_pos].
    apply Qle_trans with (inject_Z (N / M)); [|apply Zdiv_le_Qdiv; assumption].
    rewrite <- Zle_Qle. exact Hlo.
  - intros Ege ->. assert (n = 0%Z) as -> by (unfold n; lia).
    rewrite Z.add_0_r, Z.mul_1_l. change (2 ^ 0)%Z with 1%Z.
    replace N with (N * 1)%Z at 1 by lia. rewrite rne_exact by lia.
    unfold val, frac. cbn [fst snd]. change (inject_Z 1) with 1. field.
Qed.

Lemma frac_nonneg N M e : (0 <= N)%Z -> (0 < M)%Z -> 0 <= frac N M e.
Proof.
  intros HN HM. unfold frac. apply Qmult_le_0_compat; [|apply Qlt_le_weak, bpow_pos].
  apply Qle_shift_div_l; [apply inject_Z_pos; assumption|].
  rewrite Qmult_0_l. apply inject_Z_nonneg. assumption.
Qed.

Lemma eta_nonneg : 0 <= eta.
Proof. apply Qlt_le_weak, bpow_pos. Qed.

Lemma round_near N M e :
  WF N M e -> near (val (renorm (round_core N M e))) (frac N M e).
Proof.
  intros Hwf. destruct (round_val N M e Hwf) as (Herr & Hnorm & _).
  pose proof Hwf as (HN & HM & _). pose proof (frac_nonneg N M e HN HM) as Hx.
  cbv zeta in *. set (g := fexp (Zdigits2 (N / M) + e)) in *.
  assert (Hb : bpow (g - 1) <= u * frac N M e + eta).
  { destruct Hnorm as [E|Hn].
    - rewrite E. change (bpow (emin - 1)) with eta.
      assert (0 <= u * frac N M e) by (apply Qmult_le_0_compat; [discriminate|assumption]).
      lra.
    - replace (g - 1)%Z with (-53 + (g + 52))%Z by lia. rewrite bpow_add.
      change (bpow (-53)) with u. pose proof eta_nonneg.
      assert (u * bpow (g + 52) <= u * frac N M e).
      { rewrite !(Qmult_comm u). apply Qmult_le_compat_r; [assumption|discriminate]. }
      lra. }
  apply Qabs_Qle_condition in Herr. unfold near. lra.
Qed.

Lemma near_eq y x x' : x == x' -> near y x -> near y x'.
Proof. unfold near. intros E H. rewrite <- E. exact H. Qed.

Lemma near_zero : near 0 0.
Proof. unfold near. pose proof eta_nonneg. lra. Qed.

Lemma bpow_sub a b : bpow (a - b) == bpow a / bpow b.
Proof.
  assert (E : bpow a == bpow (a - b) * bpow b).
  { rewrite <- bpow_add. replace (a - b + b)%Z with a by lia. reflexivity. }
  rewrite E. field. pose proof (bpow_pos b). lra.
Qed.

Lemma val_nonneg p : (0 <= p.1)%Z -> 0 <= val p.
Proof.
  intros H. apply Qmult_le_0_compat; [apply inject_Z_nonneg; assumption|].
  apply Qlt_le_weak, bpow_pos.
Qed.

Lemma val_pos p : (0 < p.1)%Z -> 0 < val p.
Proof.
  intros H. apply Qmult_lt_0_compat; [apply inject_Z_pos; assumption|apply bpow_pos].
Qed.

Lemma val_pos_inv p : 0 < val p -> (0 < p.1)%Z.
Proof.
  intros H. destruct (Z_lt_le_dec 0 p.1) as [|Hle]; [assumption|exfalso].
  unfold val in H. rewrite Zle_Qle in Hle. pose proof (bpow_pos p.2).
  change (inject_Z 0) with 0 in Hle. nra.
Qed.

(** The quotient of two positive floats. *)
Lemma div_near mx ex my ey :
  (0 < mx)%Z -> (0 < my)%Z ->
  near (val (div_pair mx ex my ey)) (val (mx, ex) / val (my, ey)).
Proof.
  intros Hx Hy. unfold div_pair. cbv zeta.
  pose proof (WF_div mx ex my ey Hx Hy) as Hwf. cbv zeta in Hwf.
  set (e' := div_exp mx ex my ey) in *.
  assert (Hj : (0 <= ex - ey - e')%Z) by (unfold e', div_exp; lia).
  eapply near_eq; [|apply round_near; exact Hwf].
  unfold frac, val. cbn [fst snd]. rewrite inject_Z_mult.
  rewrite <- (bpow_of_Z _ Hj).
  assert (E : bpow ex == bpow (ex - ey - e') * bpow e' * bpow ey).
  { rewrite <- !bpow_add. replace (ex - ey - e' + e' + ey)%Z with ex by lia. reflexivity. }
  rewrite E. field. split; [pose proof (bpow_pos ey); lra|apply inject_Z_ne0; assumption].
Qed.

(** The product of two positive floats. *)
Lemma mul_near mx ex my ey :
  canon (Zpos mx, ex) -> canon (Zpos my, ey) ->
  near (val (mul_pair (Zpos mx) ex (Zpos my) ey)) (val (Zpos mx, ex) * val (Zpos my, ey)).
Proof.
  intros Hx Hy. unfold mul_pair.
  eapply near_eq; [|apply round_near, WF_mul; assumption].
  unfold frac, val. cbn [fst snd]. rewrite inject_Z_mult, bpow_add.
  change (inject_Z 1) with 1. field.
Qed.

Lemma magnitude_nonneg f : nonneg f -> 0 <= magnitude f.
Proof.
  intros H. apply val_nonneg.
  destruct f as [s|s| |[|] m e]; cbn [nonneg pair_of fst] in *; try tauto; lia.
Qed.

Lemma magnitude_zero s : magnitude (S754_zero s) == 0.
Proof. unfold magnitude, val. cbn [pair_of fst]. change (inject_Z 0) with 0. ring. Qed.

Lemma value_magnitude f : nonneg f -> value f == magnitude f.
Proof.
  destruct f as [s|s| |[|] m e]; cbn [nonneg]; try tauto; intros _.
  - rewrite magnitude_zero. reflexivity.
  - reflexivity.
Qed.

Lemma magnitude_encode p :
  (0 <= p.1)%Z -> nonneg (encode false p) -> magnitude (encode false p) == val p.
Proof.
  destruct p as [q e]. unfold encode. cbn [fst snd]. intros Hq.
  destruct q as [|m|m]; [| |lia].
  - intros _. rewrite magnitude_zero. unfold val. cbn [fst]. change (inject_Z 0) with 0. ring.
  - destruct (e <=? emax - prec)%Z; cbn [nonneg]; [reflexivity|tauto].
Qed.

(** The order of the format is the order of the values. *)
Lemma val_split p m :
  (m <= p.2)%Z -> val p == inject_Z (p.1 * 2 ^ (p.2 - m)) * bpow m.
Proof.
  intros H. unfold val. rewrite inject_Z_mult.
  rewrite <- (bpow_of_Z (p.2 - m)) by lia.
  rewrite <- Qmult_assoc, <- bpow_add. replace (p.2 - m + m)%Z with p.2 by lia.
  reflexivity.
Qed.

Lemma lex_val p p' : canon p -> canon p' -> lex_le p p' -> val p <= val p'.
Proof.
  intros Hc Hc' Hle. pose proof (lex_value p p' Hc Hc' Hle) as H.
  rewrite (val_split p (Z.min p.2 p'.2)), (val_split p' (Z.min p.2 p'.2)) by lia.
  apply Qmult_le_compat_r; [|apply Qlt_le_weak, bpow_pos].
  rewrite <- Zle_Qle. exact H.
Qed.

#[global] Instance near_proper : Proper (Qeq ==> Qeq ==> iff) near.
Proof. intros y y' Ey x x' Ex. unfold near. rewrite Ey, Ex. reflexivity. Qed.

Lemma near_refl x : 0 <= x -> near x x.
Proof.
  intros H. unfold near. pose proof eta_nonneg.
  assert (0 <= u * x) by (apply Qmult_le_0_compat; [discriminate|assumption]). lra.
Qed.

Lemma val_int z : val (z, 0%Z) == inject_Z z.
Proof. unfold val. cbn [fst snd]. change (bpow 0) with 1. ring. Qed.

(** [a / b] on two ints. *)
Lemma int_truediv_near a b f :
  (0 <= a)%Z -> (0 < b)%Z -> (Zdigits2 a <= 1022)%Z ->
  Py.int_truediv a b = Ok f ->
  nonneg f /\ near (magnitude f) (inject_Z a / inject_Z b).
Proof.
  intros Ha Hb Hd E. destruct (Z.eq_dec a 0%Z) as [->|Hne].
  - rewrite int_truediv_zero in E by assumption. injection E as <-.
    split; [exact I|]. rewrite magnitude_zero.
    assert (E0 : inject_Z 0 / inject_Z b == 0).
    { change (inject_Z 0) with 0. field. apply inject_Z_ne0. assumption. }
    rewrite E0. apply near_zero.
  - destruct (int_truediv_pos a b ltac:(lia) Hb Hd) as (E' & Hnn & Hp & _).
    rewrite E' in E. injection E as <-. split; [assumption|].
    unfold magnitude. rewrite Hp. rewrite <- (val_int a), <- (val_int b).
    apply div_near; lia.
Qed.

(** [x / y] on a float that is not negative and a positive one. *)
Lemma SFdiv_near x my ey :
  nonneg x -> nonneg (SFdiv prec emax x (S754_finite false my ey)) ->
  near (magnitude (SFdiv prec emax x (S754_finite false my ey))) (magnitude x / val (Zpos my, ey)).
Proof.
  intros Hx Hr. destruct x as [s|s| |[|] mx ex]; cbn [nonneg] in Hx; try tauto.
  - cbn [SFdiv]. rewrite !magnitude_zero.
    assert (E0 : 0 / val (Z.pos my, ey) == 0).
    { field. pose proof (val_pos (Z.pos my, ey) ltac:(cbn; lia)). lra. }
    rewrite E0. apply near_zero.
  - rewrite SFdiv_pos in *.
    pose proof (div_pair_canon (Zpos mx) ex (Zpos my) ey ltac:(lia) ltac:(lia)) as Hc.
    rewrite magnitude_encode; [|apply Hc|assumption].
    apply div_near; lia.
Qed.

(** [x * y] on two floats that are not negative. *)
Lemma SFmul_near x y :
  nonneg x -> nonneg y -> nonneg (SFmul prec emax x y) ->
  near (magnitude (SFmul prec emax x y)) (magnitude x * magnitude y).
Proof.
  intros Hx Hy Hr.
  destruct x as [sx|sx| |[|] mx ex]; cbn [nonneg] in Hx; try tauto;
    destruct y as [sy|sy| |[|] my ey]; cbn [nonneg] in Hy; try tauto.
  - cbn [SFmul]. rewrite !magnitude_zero. rewrite Qmult_0_l. apply near_zero.
  - cbn [SFmul]. rewrite !magnitude_zero. rewrite Qmult_0_l. apply near_zero.
  - cbn [SFmul]. rewrite !magnitude_zero. rewrite Qmult_0_r. apply near_zero.
  - rewrite SFmul_pos in *.
    apply bounded_canon in Hx as [Hx _]. apply bounded_canon in Hy as [Hy _].
    pose proof (mul_pair_canon mx ex my ey Hx Hy) as Hc.
    rewrite magnitude_encode; [|apply Hc|assumption].
    apply mul_near; assumption.
Qed.

Lemma gt0_encode_pos p : (0 < p.1)%Z -> Py.float_gt0 (encode false p) = true.
Proof.
  unfold encode. destruct p.1; try lia. intros _.
  destruct (p.2 <=? emax - prec)%Z; reflexivity.
Qed.

(** The rounding of a positive integer multiple of a power of two. *)
Lemma binary_normalize_near m e :
  (0 < m)%Z ->
  exists p, binary_normalize prec emax m e false = encode false p /\ canon p /\
            near (val p) (inject_Z m * bpow e) /\
            ((emin <= e)%Z -> (0 < p.1)%Z).
Proof.
  intros Hm. destruct m as [|m|m]; try lia. cbn [binary_normalize].
  rewrite binary_round_spec. cbv zeta.
  pose proof (WF_round (Zpos m) e ltac:(lia)) as Hwf. cbv zeta in Hwf.
  set (g := fexp (Zdigits2 (Zpos m) + e)) in *.
  set (j := Z.max 0 (e - g)) in *. set (e0 := Z.min e g) in *.
  exists (renorm (round_core (Zpos m * 2 ^ j) 1 e0)).
  split; [reflexivity|]. split; [apply round_canon; assumption|].
  assert (Ef : frac (Zpos m * 2 ^ j) 1 e0 == inject_Z (Zpos m) * bpow e).
  { assert (Ee : bpow e == bpow j * bpow e0).
    { rewrite <- bpow_add. replace (j + e0)%Z with e by (unfold j, e0; lia). reflexivity. }
    unfold frac. rewrite inject_Z_mult, <- (bpow_of_Z j) by (unfold j; lia).
    rewrite Ee. change (inject_Z 1) with 1. field. }
  split.
  - rewrite <- Ef. apply round_near. assumption.
  - intros He. apply val_pos_inv.
    destruct (round_val _ _ _ Hwf) as (Herr & Hnorm & Hex). cbv zeta in *.
    rewrite Z.div_1_r, Zdigits2_mul_pow2 in Herr, Hnorm, Hex by (unfold j; lia).
    replace (Zdigits2 (Zpos m) + j + e0)%Z with (Zdigits2 (Zpos m) + e)%Z
      in Herr, Hnorm, Hex by (unfold j, e0; lia).
    fold g in Herr, Hnorm, Hex.
    assert (Hpos : 0 < frac (Zpos m * 2 ^ j) 1 e0).
    { rewrite Ef. apply Qmult_lt_0_compat; [apply inject_Z_pos; lia|apply bpow_pos]. }
    destruct Hnorm as [Eg|Hn].
    + rewrite Hex; [assumption| |reflexivity].
      unfold e0. pose proof (fexp_ge_emin (Zdigits2 (Zpos m) + e)). fold g in H. lia.
    + apply Qabs_Qle_condition in Herr.
      assert (bpow (g - 1) < bpow (g + 52)).
      { replace (g + 52)%Z with (g - 1 + 53)%Z by lia. rewrite bpow_add.
        pose proof (bpow_pos (g - 1)). change (bpow 53) with (9007199254740992 # 1). lra. }
      lra.
Qed.

(** [t - b] on two floats that are not negative: not positive only
    when [t <= b]; the rounded difference otherwise. *)
Lemma SFsub_near t b :
  nonneg t -> nonneg b ->
  (Py.float_gt0 (SFsub prec emax t b) = false -> magnitude t <= magnitude b) /\
  (Py.float_gt0 (SFsub prec emax t b) = true -> nonneg (SFsub prec emax t b) ->
   magnitude b <= magnitude t /\ near (magnitude (SFsub prec emax t b)) (magnitude t - magnitude b)).
Proof.
  intros Ht Hb.
  pose proof (nonneg_canon t Ht) as [Hct _].
  pose proof (nonneg_canon b Hb) as [Hcb _].
  pose proof (magnitude_nonneg t Ht) as Ht0. pose proof (magnitude_nonneg b Hb) as Hb0.
  destruct t as [st|st| |[|] mx ex]; cbn [nonneg] in Ht; try tauto;
    destruct b as [sb|sb| |[|] my ey]; cbn [nonneg] in Hb; try tauto.
  - split; [intros _; rewrite !magnitude_zero; lra|].
    intros H. exfalso. destruct st, sb; cbn in H; discriminate.
  - split; [intros _; rewrite magnitude_zero; assumption|].
    intros H. exfalso. cbn in H. discriminate.
  - cbn [SFsub]. split; [intros H; cbn in H; discriminate|].
    intros _ _. rewrite magnitude_zero in *. split; [assumption|].
    assert (E : magnitude (S754_finite false mx ex) - 0 == magnitude (S754_finite false mx ex)) by ring.
    rewrite E. apply near_refl. assumption.
  - cbn [SFsub]. unfold cond_Zopp.
    rewrite !shl_align_fst by lia. cbn [pair_of fst snd] in *.
    set (ez := Z.min ex ey).
    set (X := (Zpos mx * 2 ^ (ex - ez))%Z). set (Y := (Zpos my * 2 ^ (ey - ez))%Z).
    assert (EX : magnitude (S754_finite false mx ex) == inject_Z X * bpow ez).
    { unfold magnitude. cbn [pair_of]. rewrite (val_split _ ez) by (cbn [snd]; lia). reflexivity. }
    assert (EY : magnitude (S754_finite false my ey) == inject_Z Y * bpow ez).
    { unfold magnitude. cbn [pair_of]. rewrite (val_split _ ez) by (cbn [snd]; lia). reflexivity. }
    pose proof (bpow_pos ez) as Hez.
    destruct (Z_le_gt_dec (X - Y) 0) as [Hneg|Hpos].
    + rewrite binary_normalize_neg by assumption. split; [intros _|discriminate].
      rewrite EX, EY. apply Qmult_le_compat_r; [|lra].
      rewrite <- Zle_Qle. lia.
    + destruct (binary_normalize_near (X - Y) ez ltac:(lia)) as (p & E & Hcp & Hnear & Hp).
      rewrite E.
      assert (Hp1 : (0 < p.1)%Z).
      { apply Hp. destruct Hct as (_ & ? & _), Hcb as (_ & ? & _). cbn [snd] in *. lia. }
      rewrite gt0_encode_pos by assumption. split; [discriminate|].
      intros _ Hnn. rewrite EX, EY.
      assert (Hle : inject_Z Y <= inject_Z X) by (rewrite <- Zle_Qle; lia).
      split; [apply Qmult_le_compat_r; [assumption|lra]|].
      rewrite magnitude_encode by (assumption || lia).
      rewrite inject_Z_sub in Hnear.
      assert (E' : inject_Z X * bpow ez - inject_Z Y * bpow ez ==
                   (inject_Z X - inject_Z Y) * bpow ez) by ring.
      rewrite E'. assumption.
Qed.

(** [float(n)] for a positive int. *)
Lemma float_of_int_near n f :
  (0 < n)%Z -> Py.float_of_int n = Ok f -> nonneg f -> near (magnitude f) (inject_Z n).
Proof.
  intros Hn E Hf. unfold Py.float_of_int in E.
  destruct (binary_normalize_near n 0 Hn) as (p & Ep & Hcp & Hnear & _).
  rewrite Ep in E. destruct (Py.is_inf (encode false p)); [discriminate|].
  injection E as <-. rewrite magnitude_encode; [|apply Hcp|assumption].
  change (bpow 0) with 1 in Hnear. rewrite Qmult_1_r in Hnear. assumption.
Qed.

(** [int(x)] is the floor of a float that is not negative. *)
Lemma int_of_float_floor f z :
  nonneg f -> Py.int_of_float f = Ok z -> inject_Z z <= magnitude f < inject_Z z + 1.
Proof.
  destruct f as [s|s| |[|] m e]; cbn [nonneg Py.int_of_float]; try tauto;
    intros _ [= <-].
  - rewrite magnitude_zero. change (inject_Z 0) with 0. lra.
  - unfold magnitude, val. cbn [pair_of fst snd]. destruct e as [|k|k].
    + change (bpow 0) with 1. rewrite Z.shiftl_0_r. lra.
    + rewrite Z.shiftl_mul_pow2, inject_Z_mult, <- bpow_of_Z by lia. lra.
    + rewrite Z.shiftr_div_pow2 by lia.
      assert (Ek : bpow (Zneg k) == / inject_Z (2 ^ Zpos k)).
      { rewrite <- bpow_of_Z by lia. unfold bpow.
        change (Zneg k) with (- Zpos k)%Z. rewrite Qpower_opp. reflexivity. }
      rewrite Ek, Zdiv_Qdiv. unfold Qdiv.
      set (x := inject_Z (Zpos m) * / inject_Z (2 ^ Zpos k)).
      pose proof (Qfloor_le x). pose proof (Qlt_floor x).
      rewrite inject_Z_plus in H0. change (inject_Z 1) with 1 in H0. lra.
Qed.

(** *** The errors of the calculation, accumulated *)

Lemma mul_le_mono x X y Y : 0 <= x <= X -> 0 <= y <= Y -> x * y <= X * Y.
Proof. intros. nra. Qed.

Lemma mul_nonneg x y : 0 <= x -> 0 <= y -> 0 <= x * y.
Proof. intros. nra. Qed.

Lemma mul_abs z e p : - e <= z <= e -> 0 <= p -> - (e * p) <= z * p <= e * p.
Proof. intros. nra. Qed.

Lemma mul_abs_l z e x X : - e <= z <= e -> 0 <= x <= X -> - (X * e) <= x * z <= X * e.
Proof. intros. nra. Qed.

Lemma eta_tiny : 0 <= eta <= tiny.
Proof.
  split; [apply eta_nonneg|]. apply Qle_trans with (bpow (-100)).
  - apply bpow_le. lia.
  - unfold tiny, Qle. vm_compute. discriminate.
Qed.

Section Chain.
Variables a b t P lf bf r tb : Q.
Hypothesis Ha : 0 <= a.
Hypothesis Hb : 0 <= b.
Hypothesis Ht : 0 <= t <= 1.
Hypothesis HP : 1 <= P.
Hypothesis Hc : eta * P <= 1 # 2251799813685248.
Hypothesis Hlf : near lf a.
Hypothesis Hbf : near bf b.
Hypothesis Hr : near r t.
Hypothesis Hr1 : 0 <= r <= 1.
Hypothesis Hlf0 : 0 <= lf.
Hypothesis Hbf0 : 0 <= bf.
Hypothesis Htb : near tb (lf * r).

Lemma atoms :
  0 <= a * P /\ 0 <= b * P /\ 0 <= eta * P /\ a <= a * P /\ b <= b * P /\
  a * eta <= tiny * (a * P) /\ 0 <= a * eta /\ eta * eta <= tiny * eta /\
  a * eta * P <= tiny * (a * P) /\ 0 <= a * eta * P /\ 0 <= a * t <= a.
Proof.
  pose proof eta_tiny as Heta.
  clear - Ha Hb HP Heta Ht. unfold tiny in *.
  assert (0 <= a * P) by nra. assert (a <= a * P) by nra.
  assert (0 <= a * eta) by nra.
  repeat split; try nra.
Qed.

Lemma lfr_bound : - (2 * u * a + eta * (1 + a)) <= lf * r - a * t <= 2 * u * a + eta * (1 + a).
Proof.
  assert (E : lf * r - a * t == (lf - a) * r + a * (r - t)) by ring.
  pose proof atoms as (A1 & A2 & A3 & A4 & A5 & A6 & A7 & A8 & A9 & A10 & A11).
  pose proof eta_tiny as Heta.
  pose proof (mul_abs_l _ _ r 1 Hlf Hr1) as H1.
  pose proof (mul_abs_l _ _ a a Hr ltac:(lra)) as H2.
  rewrite E, (Qmult_comm (lf - a) r). unfold u in *. split; lra.
Qed.

Lemma lfr_le : lf * r <= a * (1 + u) + eta.
Proof.
  unfold near in *.
  pose proof (mul_le_mono lf (a * (1 + u) + eta) r 1 ltac:(lra) Hr1). lra.
Qed.

Lemma tb_bound :
  - (4 * u * a + eta * (3 + a)) <= tb - a * t <= 4 * u * a + eta * (3 + a).
Proof.
  pose proof lfr_bound. pose proof lfr_le. pose proof eta_tiny as Heta.
  pose proof atoms as (A1 & A2 & A3 & A4 & A5 & A6 & A7 & A8 & A9 & A10 & A11).
  assert (0 <= lf * r) by (apply mul_nonneg; lra).
  unfold near, u, tiny in *. split; lra.
Qed.

Lemma tb_le : tb <= a * (1 + 3 * u) + 3 * eta.
Proof.
  pose proof lfr_le. assert (0 <= lf * r) by (apply mul_nonneg; lra).
  pose proof eta_tiny as Heta.
  unfold near, u, tiny in *. lra.
Qed.

(** Not borrowing: the exact difference is small. *)
Lemma chain_stop :
  tb <= bf -> (a * t - b) * P <= (a * P + b * P + 1) * eps.
Proof.
  intros Hle. pose proof tb_bound as [H1 H2]. pose proof eta_tiny as Heta.
  assert (H : a * t - b <= 4 * u * a + u * b + eta * (4 + a))
    by (unfold near, u in *; lra).
  assert (H' : (a * t - b) * P <= (4 * u * a + u * b + eta * (4 + a)) * P).
  { apply Qmult_le_compat_r; [exact H|lra]. }
  pose proof atoms as (A1 & A2 & A3 & A4 & A5 & A6 & A7 & A8 & A9 & A10 & A11).
  unfold u, eps, tiny in *. lra.
Qed.

Variables d Pf prod : Q.
Hypothesis Hle : bf <= tb.
Hypothesis Hd : near d (tb - bf).
Hypothesis Hd0 : 0 <= d.
Hypothesis HPf : near Pf P.
Hypothesis HPf0 : 0 <= Pf.
Hypothesis Hprod : near prod (d * Pf).

Lemma d_bound :
  - (6 * u * a + u * b + eta * (6 + a)) <= d - (a * t - b) <= 6 * u * a + u * b + eta * (6 + a).
Proof.
  pose proof tb_bound as [H1 H2]. pose proof tb_le. pose proof eta_tiny as Heta.
  unfold near, u, tiny in *. split; lra.
Qed.

Lemma d_le : d <= a * (1 + 5 * u) + 5 * eta.
Proof. pose proof tb_le. pose proof eta_tiny as Heta. unfold near, u, tiny in *. lra. Qed.

(** Borrowing: the scaled difference against the exact one. *)
Lemma chain_go :
  - ((a * P + b * P + 1) * eps) <= prod - (a * t - b) * P <= (a * P + b * P + 1) * eps.
Proof.
  pose proof d_bound as H1. pose proof d_le as H3. pose proof eta_tiny as Heta.
  pose proof atoms as (A1 & A2 & A3 & A4 & A5 & A6 & A7 & A8 & A9 & A10 & A11).
  assert (E : prod - (a * t - b) * P ==
              (prod - d * Pf) + d * (Pf - P) + (d - (a * t - b)) * P) by ring.
  unfold near in HPf, Hprod.
  pose proof (mul_le_mono d _ Pf (P * (1 + u) + eta) (conj Hd0 H3) ltac:(lra)) as HdPf.
  pose proof (mul_nonneg d Pf Hd0 HPf0) as HdPf0.
  pose proof (mul_abs _ _ P H1 ltac:(lra)) as H5.
  pose proof (mul_abs_l _ _ d _ HPf (conj Hd0 H3)) as H4.
  rewrite E. unfold u, eps, tiny in *. split; lra.
Qed.
End Chain.

End ExactFacts.

Module PlanFacts.
Import Round RoundFacts.

Lemma scale_pos (D : N) : 0 < 10 ^ Z.of_N D.
Proof. apply Z.pow_pos_nonneg; lia. Qed.

Lemma float_div_int_100 T : Py.float_div_int T 100 = Ok (SFdiv prec emax T c100).
Proof. unfold Py.float_div_int. rewrite float_of_int_100. reflexivity. Qed.

Lemma current_util_ok lf bf :
  exists cu,
    (if Py.float_gt0 lf
     then rbind (Py.float_truediv bf lf)
            (fun q => rbind (Py.float_mul_int q 100) (fun p => Ok (Py.Float p)))
     else Ok (Py.Int 0)) = Ok cu /\
    (Py.float_gt0 lf = false -> cu = Py.Int 0).
Proof.
  destruct (Py.float_gt0 lf) eqn:E; [|eauto].
  unfold Py.float_truediv, Py.float_mul_int. rewrite float_of_int_100.
  destruct (gt0_unsigned lf E) as [(m & e & ->)| ->]; cbn [Py.is_zero rbind];
    eexists; (split; [reflexivity|discriminate]).
Qed.

(** The calculation once the two amounts are scaled. *)
Lemma compute_plan_steps L B T D lf bf :
  Py.int_truediv L (10 ^ Z.of_N D) = Ok lf ->
  Py.int_truediv B (10 ^ Z.of_N D) = Ok bf ->
  exists cu,
    (Py.float_gt0 lf = false -> cu = Py.Int 0) /\
    compute_plan L B T D =
      let tb := Py.float_mul lf (SFdiv prec emax T c100) in
      let ad := Py.max0 (Py.float_sub tb bf) in
      rbind (Py.num_mul_int ad (10 ^ Z.of_N D)) (fun scaled =>
      rbind (Py.int_of_num scaled) (fun raw =>
      Ok (Plan lf bf cu tb ad raw))).
Proof.
  intros El Eb. destruct (current_util_ok lf bf) as (cu & Ecu & Hcu).
  exists cu. split; [assumption|].
  unfold compute_plan. cbv zeta. rewrite El. cbn [rbind]. rewrite Eb. cbn [rbind].
  rewrite Ecu. cbn [rbind]. rewrite float_div_int_100. reflexivity.
Qed.

Lemma uint256_digits z : 0 <= z < 2 ^ 256 -> Zdigits2 z <= 1022.
Proof. intros H. pose proof (Zdigits2_lt_pow z 256 ltac:(lia) H). lia. Qed.

(** Not borrowing: the difference is not positive. *)
Lemma no_borrow lf bf cu tb D :
  Py.float_gt0 (Py.float_sub tb bf) = false ->
  (let ad := Py.max0 (Py.float_sub tb bf) in
   rbind (Py.num_mul_int ad (10 ^ Z.of_N D)) (fun scaled =>
   rbind (Py.int_of_num scaled) (fun raw =>
   Ok (Plan lf bf cu tb ad raw)))) = Ok (Plan lf bf cu tb (Py.Int 0) 0).
Proof.
  intros H. cbv zeta. unfold Py.max0. rewrite H. cbn [Py.num_mul_int rbind Py.int_of_num].
  rewrite Z.mul_0_l. reflexivity.
Qed.

Lemma canon_digits m e : canon (Zpos m, e) -> Zdigits2 (Zpos m) <= 53.
Proof.
  intros ((_ & Hm) & _). cbn [fst] in Hm. apply Zdigits2_lt_pow; [lia|].
  unfold Py.prec in Hm. lia.
Qed.

(** The calculation on amounts of 256 bits, a target between 0 and 100
    and at most 308 decimals. *)
Lemma plan_total L B T D :
  0 <= L < 2 ^ 256 -> 0 <= B < 2 ^ 256 ->
  nonneg T -> SFleb T c100 = true -> (D <= 308)%N ->
  exists p,
    compute_plan L B T D = Ok p /\
    0 <= additional_borrow_raw p /\
    additional_borrow p = Py.max0 (Py.float_sub (target_borr p) (total_borr_float p)) /\
    (Py.float_gt0 (Py.float_sub (target_borr p) (total_borr_float p)) = false ->
     additional_borrow_raw p = 0) /\
    (L <= B -> Py.float_gt0 (Py.float_sub (target_borr p) (total_borr_float p)) = false).
Proof.
  intros HL HB HT HT100 HD.
  pose proof (scale_pos D) as HP. set (P := 10 ^ Z.of_N D) in *.
  destruct (int_truediv_nonneg L P ltac:(lia) HP (uint256_digits L HL))
    as (lf & El & Hlf & Helf).
  destruct (int_truediv_nonneg B P ltac:(lia) HP (uint256_digits B HB))
    as (bf & Eb & Hbf & Hebf).
  destruct (compute_plan_steps L B T D lf bf El Eb) as (cu & _ & ->). cbv zeta.
  destruct (ratio_le_one T HT HT100) as [Hr Hr1].
  destruct (SFmul_le lf _ Hlf Hr Hr1) as [Htb Htblf].
  fold (Py.float_mul lf (SFdiv prec emax T c100)) in Htb, Htblf.
  set (tb := Py.float_mul lf (SFdiv prec emax T c100)) in *.
  destruct (SFsub_nonneg tb bf Htb Hbf) as [Hle Hgt].
  fold (Py.float_sub tb bf) in Hle, Hgt.
  assert (Hmono : L <= B -> Py.float_gt0 (Py.float_sub tb bf) = false).
  { intros HLB. apply Hle. eapply lex_le_trans; [exact Htblf|].
    apply (int_truediv_mono L B P lf bf); try assumption; try lia.
    apply uint256_digits; assumption. }
  destruct (Py.float_gt0 (Py.float_sub tb bf)) eqn:Egt.
  - (* a positive difference: it is scaled back and truncated *)
    destruct (float_of_int_scale D HD) as (mP & eP & EP & HbP & HeP & HdP). fold P in EP, HeP, HdP.
    pose proof (Zdigits2_pos P HP) as HdP0.
    assert (Hdl : Zdigits2 L <= 256) by (apply Zdigits2_lt_pow; lia).
    assert (Helf' : (pair_of lf).2 <= Z.max (Zdigits2 L - Zdigits2 P - 52) (-1074) + 1)
      by (rewrite fexp_eq in Helf; lia).
    assert (Hetb : (pair_of tb).2 <= (pair_of lf).2)
      by (unfold lex_le in Htblf; lia).
    destruct (Hgt eq_refl ltac:(unfold Py.emax, Py.prec; lia)) as (Hd & Hed & md & ed & Ed).
    unfold Py.max0. rewrite Egt. cbn [Py.num_mul_int]. unfold Py.float_mul_int.
    unfold P in EP. rewrite EP. cbn [rbind Py.int_of_num]. rewrite Ed in *. unfold Py.float_mul.
    rewrite SFmul_pos. cbn [pair_of snd nonneg] in Hd, Hed.
    apply bounded_canon in Hd as [Hcd _]. apply bounded_canon in HbP as [HcP _].
    pose proof (mul_pair_canon md ed mP eP Hcd HcP) as Hc.
    pose proof (mul_pair_exp md ed mP eP Hcd HcP) as He.
    pose proof (canon_digits md ed Hcd). pose proof (canon_digits mP eP HcP).
    rewrite fexp_eq in He.
    destruct (encode_finite _ Hc ltac:(unfold Py.emax, Py.prec; lia)) as [Hnn _].
    destruct (int_of_float_nonneg _ Hnn) as (z & Ez & Hz).
    rewrite Ez. cbn [rbind]. eexists. split; [reflexivity|].
    cbn [additional_borrow_raw additional_borrow target_borr total_borr_float].
    fold tb. rewrite Ed. unfold Py.max0. rewrite ?Ed, Egt.
    split; [assumption|]. split; [reflexivity|]. split; [discriminate|assumption].
  - rewrite no_borrow by assumption. eexists. split; [reflexivity|].
    cbn [additional_borrow_raw additional_borrow target_borr total_borr_float].
    unfold Py.max0. rewrite Egt. split; [lia|]. split; [reflexivity|]. split; auto.
Qed.


End PlanFacts.

(** ** The accuracy of the calculation *)

Module AccuracyFacts.
Import Round RoundFacts PlanFacts Exact ExactFacts.
Local Open Scope Q_scope.

Lemma scale_eta (D : N) :
  (D <= 308)%N -> eta * inject_Z (10 ^ Z.of_N D) <= 1 # 2251799813685248.
Proof.
  intros HD.
  assert (H : (10 ^ Z.of_N D <= 2 ^ 1024)%Z).
  { apply Z.le_trans with (10 ^ 308)%Z; [apply Z.pow_le_mono_r; lia|].
    apply Z.leb_le. vm_compute. reflexivity. }
  rewrite Zle_Qle, <- bpow_of_Z in H by lia.
  assert (E : eta * bpow 1024 == 1 # 2251799813685248).
  { unfold eta. rewrite <- bpow_add. reflexivity. }
  rewrite <- E. rewrite !(Qmult_comm eta).
  apply Qmult_le_compat_r; [assumption|apply eta_nonneg].
Qed.

Lemma magnitude_c100 : magnitude c100 == 100.
Proof. reflexivity. Qed.

Lemma val_one : val ((2 ^ 52)%Z, (-52)%Z) == 1.
Proof. reflexivity. Qed.

Lemma canon_one : canon ((2 ^ 52)%Z, (-52)%Z).
Proof. vm_compute. intuition congruence. Qed.

(** The amount returned against the exact one: within one smallest
    unit and the rounding of the seven float operations. *)
Lemma plan_accuracy L B T D p :
  (0 <= L < 2 ^ 256)%Z -> (0 <= B < 2 ^ 256)%Z ->
  nonneg T -> SFleb T c100 = true -> (D <= 308)%N ->
  compute_plan L B T D = Ok p ->
  let x := Qmax 0 (value T * inject_Z L / 100 - inject_Z B) in
  let err := (inject_Z L + inject_Z B + 1) * eps in
  x - 1 - err <= inject_Z (additional_borrow_raw p) <= x + err.
Proof.
  intros HL HB HT HT100 HD Ep. cbv zeta. rewrite (value_magnitude T HT).
  pose proof (scale_pos D) as HP. pose proof (scale_eta D HD) as Hc.
  set (P := (10 ^ Z.of_N D)%Z) in *.
  destruct (int_truediv_nonneg L P ltac:(lia) HP (uint256_digits L HL))
    as (lf & El & Hlf & Helf).
  destruct (int_truediv_nonneg B P ltac:(lia) HP (uint256_digits B HB))
    as (bf & Eb & Hbf & Hebf).
  destruct (int_truediv_near L P lf ltac:(lia) HP (uint256_digits L HL) El) as [_ Vlf].
  destruct (int_truediv_near B P bf ltac:(lia) HP (uint256_digits B HB) Eb) as [_ Vbf].
  destruct (compute_plan_steps L B T D lf bf El Eb) as (cu & _ & E). rewrite E in Ep.
  clear E. cbv zeta in Ep.
  destruct (ratio_le_one T HT HT100) as [Hr Hr1].
  pose proof (SFdiv_near T _ _ HT Hr) as Vr. fold c100 in Vr.
  change (val (Z.pos 7036874417766400, (-46)%Z)) with (magnitude c100) in Vr.
  destruct (SFmul_le lf _ Hlf Hr Hr1) as [Htb Htblf].
  pose proof (SFmul_near lf _ Hlf Hr Htb) as Vtb.
  fold (Py.float_mul lf (SFdiv prec emax T c100)) in Htb, Htblf, Vtb.
  set (r := SFdiv prec emax T c100) in *.
  set (tb := Py.float_mul lf r) in *.
  destruct (SFsub_nonneg tb bf Htb Hbf) as [_ Hgt].
  destruct (SFsub_near tb bf Htb Hbf) as [Vle Vgt].
  fold (Py.float_sub tb bf) in Hgt, Vle, Vgt.
  (* the exact quantities *)
  set (qP := inject_Z P). set (a := inject_Z L / qP). set (b := inject_Z B / qP).
  set (t := magnitude T / 100).
  assert (HqP : 1 <= qP) by (unfold qP; rewrite <- (Zle_Qle 1); lia).
  assert (EL : a * qP == inject_Z L) by (unfold a; field; lra).
  assert (EB : b * qP == inject_Z B) by (unfold b; field; lra).
  assert (Ex : (a * t - b) * qP == magnitude T * inject_Z L / 100 - inject_Z B).
  { unfold a, b, t. field. lra. }
  assert (Ha : 0 <= a).
  { unfold a. apply Qle_shift_div_l; [lra|]. rewrite Qmult_0_l.
    apply inject_Z_nonneg. lia. }
  assert (Hb : 0 <= b).
  { unfold b. apply Qle_shift_div_l; [lra|]. rewrite Qmult_0_l.
    apply inject_Z_nonneg. lia. }
  assert (Ht : 0 <= t <= 1).
  { pose proof (magnitude_nonneg T HT).
    pose proof (lex_val _ _ (proj1 (nonneg_canon T HT)) (proj1 (nonneg_canon c100 nonneg_c100))
                  (SFleb_lex T c100 HT nonneg_c100 HT100)) as H100.
    fold (magnitude T) in H100. fold (magnitude c100) in H100. rewrite magnitude_c100 in H100.
    unfold t. split.
    - apply Qle_shift_div_l; [reflexivity|]. lra.
    - apply Qle_shift_div_r; [reflexivity|]. lra. }
  assert (Hr01 : 0 <= magnitude r <= 1).
  { split; [apply magnitude_nonneg; assumption|].
    pose proof (lex_val _ _ (proj1 (nonneg_canon r Hr)) canon_one Hr1) as H.
    rewrite val_one in H. exact H. }
  pose proof (magnitude_nonneg lf Hlf) as Hlf0. pose proof (magnitude_nonneg bf Hbf) as Hbf0.
  rewrite magnitude_c100 in Vr. fold t in Vr. fold a in Vlf. fold b in Vbf.
  cbv zeta. rewrite <- Ex, <- EL, <- EB.
  set (x := (a * t - b) * qP). set (err := (a * qP + b * qP + 1) * eps).
  assert (Herr : 0 <= err).
  { unfold err. apply Qmult_le_0_compat; [|discriminate].
    pose proof (mul_nonneg a qP Ha ltac:(lra)). pose proof (mul_nonneg b qP Hb ltac:(lra)). lra. }
  destruct (Py.float_gt0 (Py.float_sub tb bf)) eqn:Egt.
  - (* a positive difference: it is scaled back and truncated *)
    destruct (float_of_int_scale D HD) as (mP & eP & EP & HbP & HeP & HdP).
    fold P in EP, HeP, HdP.
    pose proof (Zdigits2_pos P HP) as HdP0.
    assert (Hdl : (Zdigits2 L <= 256)%Z) by (apply Zdigits2_lt_pow; lia).
    assert (Helf' : ((pair_of lf).2 <= Z.max (Zdigits2 L - Zdigits2 P - 52) (-1074) + 1)%Z)
      by (rewrite fexp_eq in Helf; lia).
    assert (Hetb : ((pair_of tb).2 <= (pair_of lf).2)%Z)
      by (unfold lex_le in Htblf; lia).
    destruct (Hgt eq_refl ltac:(unfold Py.emax, Py.prec; lia)) as (Hd & Hed & md & ed & Ed).
    destruct (Vgt eq_refl Hd) as [Hle Vd].
    pose proof (float_of_int_near P _ HP EP HbP) as VP. fold qP in VP.
    unfold Py.max0 in Ep. rewrite Egt in Ep. cbn [Py.num_mul_int] in Ep.
    unfold Py.float_mul_int in Ep. fold P in Ep. rewrite EP in Ep.
    cbn [rbind Py.int_of_num] in Ep.
    set (d := Py.float_sub tb bf) in *.
    assert (Hprod : nonneg (Py.float_mul d (S754_finite false mP eP))).
    { rewrite Ed in *. unfold Py.float_mul. rewrite SFmul_pos.
      cbn [pair_of snd nonneg] in Hd, Hed.
      apply bounded_canon in Hd as [Hcd _]. apply bounded_canon in HbP as [HcP _].
      pose proof (mul_pair_canon md ed mP eP Hcd HcP) as Hcm.
      pose proof (mul_pair_exp md ed mP eP Hcd HcP) as He.
      pose proof (canon_digits md ed Hcd). pose proof (canon_digits mP eP HcP).
      rewrite fexp_eq in He.
      apply (encode_finite _ Hcm). unfold Py.emax, Py.prec. lia. }
    pose proof (SFmul_near d (S754_finite false mP eP) Hd HbP Hprod) as Vprod.
    fold (Py.float_mul d (S754_finite false mP eP)) in Vprod.
    set (prod := Py.float_mul d (S754_finite false mP eP)) in *.
    destruct (Py.int_of_float prod) as [z|] eqn:Ez; [|discriminate].
    cbn [rbind] in Ep. injection Ep as <-. cbn [additional_borrow_raw].
    pose proof (int_of_float_floor prod z Hprod Ez) as Hz.
    pose proof (chain_go a b t qP (magnitude lf) (magnitude bf) (magnitude r) (magnitude tb)
                  Ha Hb Ht HqP Hc Vlf Vbf Vr Hr01 Hlf0 Hbf0 Vtb
                  (magnitude d) (magnitude (S754_finite false mP eP)) (magnitude prod)
                  Vd (magnitude_nonneg d Hd) VP (magnitude_nonneg (S754_finite false mP eP) HbP) Vprod) as Hgo.
    fold x err in Hgo. pose proof (magnitude_nonneg prod Hprod) as Hprod0.
    destruct (Qlt_le_dec x 0) as [Hx|Hx].
    + rewrite (Q.max_l 0 x) by lra. lra.
    + rewrite (Q.max_r 0 x) by lra. lra.
  - rewrite no_borrow in Ep by assumption. injection Ep as <-.
    cbn [additional_borrow_raw]. change (inject_Z 0) with 0.
    pose proof (chain_stop a b t qP (magnitude lf) (magnitude bf) (magnitude r) (magnitude tb)
                  Ha Hb Ht HqP Hc Vlf Vbf Vr Hr01 Hlf0 Vtb (Vle eq_refl)) as Hstop.
    fold x err in Hstop.
    destruct (Qlt_le_dec x 0) as [Hx|Hx].
    + rewrite (Q.max_l 0 x) by lra. lra.
    + rewrite (Q.max_r 0 x) by lra. lra.
Qed.

End AccuracyFacts.

(** ** The convergence calculation: the claims *)

Import Round RoundFacts PlanFacts.

Lemma nonneg_of_range T :
  valid_binary Py.prec Py.emax T = true ->
  SFleb (Py.literal 0 0) T = true -> SFleb T (Py.literal 100 0) = true ->
  Round.nonneg T /\ SFleb T Round.c100 = true.
Proof.
  intros Hv H0 H100. split; [|exact H100].
  destruct T as [s|[|]| |[|] m e]; cbn in *; try discriminate; auto.
Qed.

(** C1, as the script has it: for amounts of 256 bits with positive
    liquidity, a target between 0 and 100 and at most 308 decimals the
    calculation returns, and the additional amount is not negative; it is
    the difference of the computed target and the computed borrowed
    amount, where positive, scaled back and truncated, and 0 where that
    difference is not positive. It approximates the exact amount
    [max 0 (T * L / 100 - B)], not to within one smallest unit, but to
    within one smallest unit and the rounding of the double arithmetic,
    [(L + B + 1) / 2^48]. For L=1000, B=200, T=50, D=0 it is exactly
    300. *)
Theorem additional_borrow_returned_nonneg L B T D :
  0 < L < 2 ^ 256 -> 0 <= B < 2 ^ 256 ->
  valid_binary Py.prec Py.emax T = true ->
  SFleb (Py.literal 0 0) T = true -> SFleb T (Py.literal 100 0) = true ->
  (D <= 308)%N ->
  exists p,
    compute_plan L B T D = Ok p /\
    0 <= additional_borrow_raw p /\
    additional_borrow p = Py.max0 (Py.float_sub (target_borr p) (total_borr_float p)) /\
    (Py.float_gt0 (Py.float_sub (target_borr p) (total_borr_float p)) = false ->
     additional_borrow_raw p = 0) /\
    (let exact := Qmax 0 (Exact.value T * inject_Z L / 100 - inject_Z B) in
     let err := (inject_Z L + inject_Z B + 1) * Exact.eps in
     exact - 1 - err <= inject_Z (additional_borrow_raw p) <= exact + err)%Q /\
    (L = 1000 -> B = 200 -> T = Py.literal 50 0 -> D = 0%N ->
     additional_borrow_raw p = 300).
Proof.
  intros HL HB Hv H0 H100 HD.
  destruct (nonneg_of_range T Hv H0 H100) as [HT HT100].
  destruct (PlanFacts.plan_total L B T D ltac:(lia) HB HT HT100 HD)
    as (p & E & Hraw & Had & Hz & _).
  pose proof (AccuracyFacts.plan_accuracy L B T D p ltac:(lia) HB HT HT100 HD E) as Hacc.
  exists p. split; [assumption|]. split; [assumption|]. split; [assumption|].
  split; [assumption|]. split; [exact Hacc|].
  intros -> -> -> ->. vm_compute in E. injection E as <-. reflexivity.
Qed.

Lemma additional_borrow_returned_nonneg_witness :
  0 < 1000 < 2 ^ 256 /\ 0 <= 200 < 2 ^ 256 /\
  valid_binary Py.prec Py.emax (Py.literal 50 0) = true /\
  SFleb (Py.literal 0 0) (Py.literal 50 0) = true /\
  SFleb (Py.literal 50 0) (Py.literal 100 0) = true /\
  (0 <= 308)%N /\
  exists p,
    compute_plan 1000 200 (Py.literal 50 0) 0 = Ok p /\
    0 <= additional_borrow_raw p /\
    additional_borrow p = Py.max0 (Py.float_sub (target_borr p) (total_borr_float p)) /\
    (Py.float_gt0 (Py.float_sub (target_borr p) (total_borr_float p)) = false ->
     additional_borrow_raw p = 0) /\
    (let exact := Qmax 0 (Exact.value (Py.literal 50 0) * inject_Z 1000 / 100
                          - inject_Z 200) in
     let err := (inject_Z 1000 + inject_Z 200 + 1) * Exact.eps in
     exact - 1 - err <= inject_Z (additional_borrow_raw p) <= exact + err)%Q /\
    (1000 = 1000 -> 200 = 200 -> Py.literal 50 0 = Py.literal 50 0 -> 0%N = 0%N ->
     additional_borrow_raw p = 300).
Proof.
  assert (H1 : 0 < 1000 < 2 ^ 256) by (split; reflexivity).
  assert (H2 : 0 <= 200 < 2 ^ 256) by (split; [discriminate|reflexivity]).
  assert (H3 : valid_binary Py.prec Py.emax (Py.literal 50 0) = true)
    by (vm_compute; reflexivity).
  assert (H4 : SFleb (Py.literal 0 0) (Py.literal 50 0) = true)
    by (vm_compute; reflexivity).
  assert (H5 : SFleb (Py.literal 50 0) (Py.literal 100 0) = true)
    by (vm_compute; reflexivity).
  assert (H6 : (0 <= 308)%N) by discriminate.
  exact (conj H1 (conj H2 (conj H3 (conj H4 (conj H5 (conj H6
           (additional_borrow_returned_nonneg 1000 200 (Py.literal 50 0) 0
              H1 H2 H3 H4 H5 H6))))))).
Defined.

(** C1 fails on the script: with a liquidity of 10^24 (a million units
    of an asset of 18 decimals), nothing borrowed and a target of 50
    percent, the exact target is 5 * 10^23, and the calculation returns
    499999999999999991611392: 8388608 smallest units away. *)
Lemma additional_borrow_off_by_more_than_one :
  let L := 10 ^ 24 in
  let T := Py.literal 50 0 in
  0 < L /\ SFleb (Py.literal 0 0) T = true /\ SFleb T (Py.literal 100 0) = true /\
  T = S754_finite false (50 * 2 ^ 47) (-47) /\
  match compute_plan L 0 T 18 with
  | Ok p =>
      additional_borrow_raw p = 499999999999999991611392 /\
      (0 + additional_borrow_raw p) * 100 - 50 * L = - 838860800 /\
      1 * 100 < Z.abs ((0 + additional_borrow_raw p) * 100 - 50 * L)
  | Err _ => False
  end.
Proof.
  cbv zeta. split; [reflexivity|]. split; [vm_compute; reflexivity|].
  split; [vm_compute; reflexivity|]. split; [vm_compute; reflexivity|].
  vm_compute. repeat split.
Qed.

(** C2, as the script has it: for amounts of 256 bits and a target
    between 0 and 100 the two amounts scale without failure, and when
    the borrowed amount is at least the liquidity (utilization of 100
    percent or more, the over-utilized case included), or when the
    computed target does not exceed the computed borrowed amount, the
    calculation returns, with an additional amount of 0. Whenever the
    utilization is at or above the target, [T * L / 100 <= B], and the
    decimals are at most 308, the additional amount is not negative
    and at most the rounding of the double arithmetic,
    [(L + B + 1) / 2^48]. *)
Theorem at_or_above_target_no_borrow L B T D :
  0 <= L < 2 ^ 256 -> 0 <= B < 2 ^ 256 ->
  valid_binary Py.prec Py.emax T = true ->
  SFleb (Py.literal 0 0) T = true -> SFleb T (Py.literal 100 0) = true ->
  exists lf bf,
    Py.int_truediv L (10 ^ Z.of_N D) = Ok lf /\
    Py.int_truediv B (10 ^ Z.of_N D) = Ok bf /\
    (L <= B \/ SFleb (Py.float_mul lf (SFdiv Py.prec Py.emax T (Py.literal 100 0))) bf = true ->
     exists p,
       compute_plan L B T D = Ok p /\
       total_liq_float p = lf /\ total_borr_float p = bf /\
       additional_borrow p = Py.Int 0 /\ additional_borrow_raw p = 0) /\
    ((D <= 308)%N ->
     (Exact.value T * inject_Z L / 100 <= inject_Z B)%Q ->
     exists p,
       compute_plan L B T D = Ok p /\
       0 <= additional_borrow_raw p /\
       (inject_Z (additional_borrow_raw p)
        <= (inject_Z L + inject_Z B + 1) * Exact.eps)%Q).
Proof.
  intros HL HB Hv H0 H100.
  destruct (nonneg_of_range T Hv H0 H100) as [HT HT100].
  pose proof (PlanFacts.scale_pos D) as HP.
  destruct (RoundFacts.int_truediv_nonneg L _ ltac:(lia) HP (PlanFacts.uint256_digits L HL))
    as (lf & El & Hlf & _).
  destruct (RoundFacts.int_truediv_nonneg B _ ltac:(lia) HP (PlanFacts.uint256_digits B HB))
    as (bf & Eb & Hbf & _).
  exists lf, bf. split; [assumption|]. split; [assumption|].
  split; cycle 1.
  { intros HD Hx.
    destruct (PlanFacts.plan_total L B T D HL HB HT HT100 HD) as (p & E & Hraw & _).
    pose proof (AccuracyFacts.plan_accuracy L B T D p HL HB HT HT100 HD E) as [_ Hacc].
    cbv zeta in Hacc. rewrite Q.max_l in Hacc by lra.
    exists p. split; [assumption|]. split; [assumption|]. lra. }
  intros Hcase.
  destruct (PlanFacts.compute_plan_steps L B T D lf bf El Eb) as (cu & _ & ->).
  destruct (RoundFacts.ratio_le_one T HT HT100) as [Hr Hr1].
  destruct (RoundFacts.SFmul_le lf _ Hlf Hr Hr1) as [Htb Htblf].
  destruct (RoundFacts.SFsub_nonneg _ bf Htb Hbf) as [Hle _].
  rewrite PlanFacts.no_borrow.
  - eexists. split; [reflexivity|]. repeat split.
  - apply Hle. destruct Hcase as [HLB|Hcmp].
    + eapply RoundFacts.lex_le_trans; [exact Htblf|].
      apply (RoundFacts.int_truediv_mono L B (10 ^ Z.of_N D) lf bf);
        try assumption; try lia.
      apply PlanFacts.uint256_digits; assumption.
    + apply RoundFacts.SFleb_lex; [exact Htb|exact Hbf|exact Hcmp].
Qed.

Lemma at_or_above_target_no_borrow_witness :
  0 <= 1000 < 2 ^ 256 /\ 0 <= 1500 < 2 ^ 256 /\
  valid_binary Py.prec Py.emax (Py.literal 50 0) = true /\
  SFleb (Py.literal 0 0) (Py.literal 50 0) = true /\
  SFleb (Py.literal 50 0) (Py.literal 100 0) = true /\
  exists lf bf,
    Py.int_truediv 1000 (10 ^ Z.of_N 0) = Ok lf /\
    Py.int_truediv 1500 (10 ^ Z.of_N 0) = Ok bf /\
    (1000 <= 1500 \/
     SFleb (Py.float_mul lf (SFdiv Py.prec Py.emax (Py.literal 50 0) (Py.literal 100 0))) bf
       = true ->
     exists p,
       compute_plan 1000 1500 (Py.literal 50 0) 0 = Ok p /\
       total_liq_float p = lf /\ total_borr_float p = bf /\
       additional_borrow p = Py.Int 0 /\ additional_borrow_raw p = 0) /\
    ((0 <= 308)%N ->
     (Exact.value (Py.literal 50 0) * inject_Z 1000 / 100 <= inject_Z 1500)%Q ->
     exists p,
       compute_plan 1000 1500 (Py.literal 50 0) 0 = Ok p /\
       0 <= additional_borrow_raw p /\
       (inject_Z (additional_borrow_raw p)
        <= (inject_Z 1000 + inject_Z 1500 + 1) * Exact.eps)%Q).
Proof.
  assert (H1 : 0 <= 1000 < 2 ^ 256) by (split; [discriminate|reflexivity]).
  assert (H2 : 0 <= 1500 < 2 ^ 256) by (split; [discriminate|reflexivity]).
  assert (H3 : valid_binary Py.prec Py.emax (Py.literal 50 0) = true)
    by (vm_compute; reflexivity).
  assert (H4 : SFleb (Py.literal 0 0) (Py.literal 50 0) = true)
    by (vm_compute; reflexivity).
  assert (H5 : SFleb (Py.literal 50 0) (Py.literal 100 0) = true)
    by (vm_compute; reflexivity).
  exact (conj H1 (conj H2 (conj H3 (conj H4 (conj H5
           (at_or_above_target_no_borrow 1000 1500 (Py.literal 50 0) 0
              H1 H2 H3 H4 H5)))))).
Defined.

(** C2 fails on the script: with a liquidity of 100 units and 7 units
    borrowed of an asset of 18 decimals and a target of 7 percent, the
    utilization is exactly the target and the computed utilization is not
    below it, and the calculation returns 888 smallest units to borrow. *)
Lemma at_target_still_borrows :
  let L := 100 * 10 ^ 18 in
  let B := 7 * 10 ^ 18 in
  let T := Py.literal 7 0 in
  T = S754_finite false (7 * 2 ^ 50) (-50) /\
  B * 100 = 7 * L /\
  match compute_plan L B T 18 with
  | Ok p =>
      match current_util p with
      | Py.Float u => Py.float_ge u T = true
      | Py.Int _ => False
      end /\
      Py.float_gt0 (Py.float_sub (target_borr p) (total_borr_float p)) = true /\
      additional_borrow_raw p = 888
  | Err _ => False
  end.
Proof.
  cbv zeta. split; [vm_compute; reflexivity|]. split; [reflexivity|].
  vm_compute. repeat split.
Qed.

(** C3: with no liquidity the current utilization is the integer 0 and
    the additional amount is 0, for every target and every number of
    decimals and every borrowed amount of 256 bits; the calculation
    returns: nothing is divided by zero and nothing is raised. *)
Theorem zero_liquidity_no_borrow B T D :
  0 <= B < 2 ^ 256 ->
  exists p,
    compute_plan 0 B T D = Ok p /\
    current_util p = Py.Int 0 /\
    additional_borrow p = Py.Int 0 /\ additional_borrow_raw p = 0.
Proof.
  intros HB. pose proof (scale_pos D) as HP. set (P := 10 ^ Z.of_N D) in *.
  destruct (int_truediv_nonneg B P ltac:(lia) HP (uint256_digits B HB))
    as (bf & Eb & Hbf & _).
  destruct (compute_plan_steps 0 B T D _ bf (int_truediv_zero P HP) Eb)
    as (cu & Hcu & ->).
  rewrite (Hcu eq_refl). rewrite no_borrow.
  - eexists. split; [reflexivity|]. repeat split.
  - unfold Py.float_mul, Py.float_sub.
    destruct (SFdiv prec emax T c100) as [s|s| |s m e];
      destruct bf as [s'|s'| |[|] m' e']; cbn [nonneg] in Hbf; try tauto;
      try reflexivity; destruct s; try destruct s'; reflexivity.
Qed.

Lemma zero_liquidity_no_borrow_witness :
  0 <= 0 < 2 ^ 256 /\
  exists p,
    compute_plan 0 0 (Py.literal 30 0) 0 = Ok p /\
    current_util p = Py.Int 0 /\
    additional_borrow p = Py.Int 0 /\ additional_borrow_raw p = 0.
Proof.
  assert (H : 0 <= 0 < 2 ^ 256) by (split; [discriminate|reflexivity]).
  exact (conj H (zero_liquidity_no_borrow 0 (Py.literal 30 0) 0 H)).
Defined.

(** The calculation on any operands, for decimals that are not negative. *)
Lemma plan_unvalidated L B T D :
  match compute_plan L B T D with
  | Ok p =>
      0 <= additional_borrow_raw p /\
      additional_borrow p = Py.max0 (Py.float_sub (target_borr p) (total_borr_float p))
  | Err e => exn_cls e = OverflowError
  end.
Proof.
  pose proof (scale_pos D) as HP.
  assert (Hdiv : forall a, match Py.int_truediv a (10 ^ Z.of_N D) with
                           | Ok _ => True
                           | Err e => exn_cls e = OverflowError
                           end).
  { intros a. unfold Py.int_truediv.
    replace (10 ^ Z.of_N D =? 0) with false by (symmetry; apply Z.eqb_neq; lia).
    cbv zeta. destruct (Py.is_inf _); [reflexivity|exact I]. }
  pose proof (Hdiv L) as HdL. pose proof (Hdiv B) as HdB.
  destruct (Py.int_truediv L (10 ^ Z.of_N D)) as [lf|e] eqn:El.
  2:{ unfold compute_plan. cbv zeta. rewrite El. exact HdL. }
  destruct (Py.int_truediv B (10 ^ Z.of_N D)) as [bf|e] eqn:Eb.
  2:{ unfold compute_plan. cbv zeta. rewrite El. cbn [rbind]. rewrite Eb. exact HdB. }
  destruct (compute_plan_steps L B T D lf bf El Eb) as (cu & _ & ->). cbv zeta.
  set (tb := Py.float_mul lf (SFdiv prec emax T c100)).
  destruct (Py.float_gt0 (Py.float_sub tb bf)) eqn:Egt.
  2:{ pose proof (no_borrow lf bf cu tb D Egt) as E. cbv zeta in E. rewrite E.
      cbn [additional_borrow_raw additional_borrow target_borr total_borr_float].
      unfold Py.max0. rewrite Egt. split; [lia|reflexivity]. }
  unfold Py.max0. rewrite Egt. cbn [Py.num_mul_int]. unfold Py.float_mul_int.
  destruct (Py.float_of_int (10 ^ Z.of_N D)) as [Pf|e] eqn:EP.
  2:{ cbn [rbind]. unfold Py.float_of_int in EP. cbv zeta in EP.
      destruct (Py.is_inf _); [injection EP as <-; reflexivity|discriminate]. }
  destruct (float_of_int_pos _ _ HP EP) as (mP & eP & ->).
  cbn [rbind Py.int_of_num]. unfold Py.float_mul at 1.
  destruct (gt0_unsigned _ Egt) as [(md & ed & Ed)|Ed]; rewrite Ed.
  - pose proof (int_of_float_unsigned
                  (SFmul prec emax (S754_finite false md ed) (S754_finite false mP eP))) as Hz.
    rewrite SFmul_finite in *.
    pose proof (round_frac_unsigned (Zpos md * Zpos mP) 1 (ed + eP) ltac:(lia) ltac:(lia))
      as Hu. cbn [xorb] in *.
    destruct (Py.int_of_float _) as [z|e] eqn:Ez.
    + cbn [rbind additional_borrow_raw additional_borrow target_borr total_borr_float].
      fold tb. unfold Py.max0. rewrite Egt, Ed.
      split; [apply (Hz z); [assumption|reflexivity]|reflexivity].
    + cbn [rbind]. destruct (round_frac false _ _ _) as [[|]|[|]| |[|] m e'];
        cbn [unsigned] in Hu; try tauto; cbn in Ez; try discriminate.
      injection Ez as <-. reflexivity.
  - cbn [SFmul xorb rbind Py.int_of_float]. reflexivity.
Qed.

(** C8, as the script has it: the calculation checks none of its
    operands. Whatever they are, negative amounts, a target outside
    [0, 100] and negative decimals included, it either returns an amount
    that is not negative, a difference that is not positive being
    replaced by 0, or raises an [OverflowError] of the float arithmetic,
    or, only for negative decimals whose power of ten underflows to 0.0,
    a [ZeroDivisionError]; no other error exists. *)
Theorem calculation_validates_nothing pow L B T D :
  pow_outcome pow ->
  match compute_plan_any pow L B T D with
  | Ok p =>
      0 <= additional_borrow_raw p /\
      additional_borrow p = Py.max0 (Py.float_sub (target_borr p) (total_borr_float p))
  | Err e =>
      exn_cls e = OverflowError \/
      (exn_cls e = ZeroDivisionError /\ D < 0 /\ pow = Ok (S754_zero false))
  end.
Proof.
  intros Hpow. unfold compute_plan_any, pow10.
  destruct (0 <=? D) eqn:HD; cbn [rbind].
  { pose proof (plan_unvalidated L B T (Z.to_N D)) as H.
    destruct (compute_plan L B T (Z.to_N D)); [exact H|left; exact H]. }
  apply Z.leb_gt in HD.
  destruct pow as [scale|e]; cbn [rbind]; [|left; exact Hpow].
  assert (Hconv : forall a, match Py.float_of_int a with
                            | Ok _ => True
                            | Err e => exn_cls e = OverflowError
                            end).
  { intros a. unfold Py.float_of_int. cbv zeta.
    destruct (Py.is_inf _); [reflexivity|exact I]. }
  unfold Scaled.compute_plan, Scaled.int_div_float.
  pose proof (Hconv L) as HL. destruct (Py.float_of_int L) as [xl|e]; cbn [rbind];
    [|left; exact HL].
  destruct scale as [[|]|s| |[|] m e]; cbn [pow_outcome] in Hpow; try contradiction.
  { (* the power underflowed to 0.0 *)
    cbn. right. auto. }
  unfold Py.float_truediv at 1. cbn [Py.is_zero rbind].
  set (scale := S754_finite false m e).
  set (lf := SFdiv prec emax xl scale).
  pose proof (Hconv B) as HB. destruct (Py.float_of_int B) as [xb|e']; cbn [rbind];
    [|left; exact HB].
  unfold Py.float_truediv at 1. change (Py.is_zero scale) with false. cbn [rbind].
  set (bf := SFdiv prec emax xb scale).
  destruct (current_util_ok lf bf) as (cu & -> & _). cbn [rbind].
  rewrite float_div_int_100. cbn [rbind].
  set (tb := Py.float_mul lf (SFdiv prec emax T c100)).
  unfold Py.max0. destruct (Py.float_gt0 (Py.float_sub tb bf)) eqn:Egt;
    cbn [Scaled.num_mul_float rbind].
  - (* a positive difference, scaled back as a float and truncated *)
    assert (Hu : unsigned (Py.float_mul (Py.float_sub tb bf) scale)).
    { unfold Py.float_mul, scale.
      destruct (gt0_unsigned _ Egt) as [(md & ed & ->)| ->].
      - rewrite SFmul_finite. apply round_frac_unsigned; lia.
      - exact I. }
    pose proof (int_of_float_unsigned (Py.float_mul (Py.float_sub tb bf) scale)) as Hz.
    destruct (Py.int_of_float _) as [z|e'] eqn:Ez; cbn [rbind].
    + cbn [additional_borrow_raw additional_borrow target_borr total_borr_float].
      rewrite Egt. split; [apply (Hz z); [assumption|reflexivity]|reflexivity].
    + left. destruct (Py.float_mul _ scale) as [[|]|[|]| |[|] m' e'']; cbn [unsigned] in Hu;
        try tauto; cbn in Ez; try discriminate.
      injection Ez as <-. reflexivity.
  - (* nothing to borrow: the int 0 times the scale is the float 0.0 *)
    cbn. rewrite Egt. split; [lia|reflexivity].
Qed.

Lemma calculation_validates_nothing_witness :
  pow_outcome (pow10_rounded (-2)) /\
  match compute_plan_any (pow10_rounded (-2)) 1000 200 (Py.literal 50 0) (-2) with
  | Ok p =>
      0 <= additional_borrow_raw p /\
      additional_borrow p = Py.max0 (Py.float_sub (target_borr p) (total_borr_float p))
  | Err e =>
      exn_cls e = OverflowError \/
      (exn_cls e = ZeroDivisionError /\ -2 < 0 /\ pow10_rounded (-2) = Ok (S754_zero false))
  end.
Proof.
  assert (H : pow_outcome (pow10_rounded (-2))) by (vm_compute; exact I).
  exact (conj H (calculation_validates_nothing (pow10_rounded (-2)) 1000 200
                   (Py.literal 50 0) (-2) H)).
Defined.

(** C8 fails on the script: a target of 150 percent, a negative
    borrowed amount, a negative liquidity and decimals of -2 are all
    computed with, without any error, and decimals of -400 end in a
    [ZeroDivisionError], not in an error of validation. *)
Lemma out_of_range_operands_accepted :
  SFleb (Py.literal 150 0) (Py.literal 100 0) = false /\
  match compute_plan 1000 200 (Py.literal 150 0) 0 with
  | Ok p => additional_borrow_raw p = 1300
  | Err _ => False
  end /\
  match compute_plan 1000 (-200) (Py.literal 50 0) 0 with
  | Ok p => additional_borrow_raw p = 700
  | Err _ => False
  end /\
  match compute_plan (-1000) 200 (Py.literal 50 0) 0 with
  | Ok p => additional_borrow_raw p = 0
  | Err _ => False
  end /\
  match compute_plan_any (pow10_rounded (-2)) 1000 200 (Py.literal 50 0) (-2) with
  | Ok p => additional_borrow_raw p = 300
  | Err _ => False
  end /\
  match compute_plan_any (pow10_rounded (-400)) 1000 200 (Py.literal 50 0) (-400) with
  | Ok _ => False
  | Err e => exn_cls e = ZeroDivisionError
  end.
Proof. vm_compute. repeat split. Qed.

(** ** Text helpers *)

Module StrFacts.
Import Str.

Lemma prefix_contains p s : String.prefix p s = true -> contains p s = true.
Proof. destruct s; simpl; intros ->; reflexivity. Qed.

Lemma contains_cons p a s : contains p s = true -> contains p (String a s) = true.
Proof. simpl. intros ->. apply orb_true_r. Qed.

Lemma split_cons c s : exists h t, split c s = h :: t.
Proof.
  induction s as [|a s [h [t IH]]]; simpl; [eauto|].
  destruct (Ascii.eqb a c); [eauto|]. rewrite IH. eauto.
Qed.

(** A prefix without separator lies within the first field. *)
Lemma prefix_first_field c p : forall s h t,
  Str.avoids c p = true -> String.prefix p s = true -> split c s = h :: t ->
  String.prefix p h = true.
Proof.
  induction p as [|a p IH]; intros s h t Hav Hp Hs.
  - destruct h; reflexivity.
  - simpl in Hav. apply andb_true_iff in Hav as [Ha Hav].
    destruct s as [|b s]; simpl in Hp; [discriminate|].
    destruct (Ascii.ascii_dec a b) as [<-|]; [|discriminate].
    simpl in Hs. destruct (Ascii.eqb a c); [discriminate|].
    destruct (split_cons c s) as [h' [t' E]]. rewrite E in Hs.
    injection Hs as <- <-. simpl.
    destruct (Ascii.ascii_dec a a); [|congruence]. eauto.
Qed.

(** A substring without separator lies within one field. *)
Lemma contains_split c p : forall s,
  Str.avoids c p = true -> contains p s = true ->
  existsb (contains p) (split c s) = true.
Proof.
  intros s Hav. induction s as [|a s IH]; intros H.
  - simpl in *. rewrite H. reflexivity.
  - destruct (split_cons c (String a s)) as [h [t E]].
    change (String.prefix p (String a s) || contains p s = true) in H.
    apply orb_true_iff in H as [H|H].
    + rewrite E. simpl.
      rewrite (prefix_contains _ _ (prefix_first_field c p _ _ _ Hav H E)).
      reflexivity.
    + specialize (IH H). simpl.
      destruct (Ascii.eqb a c); [simpl; rewrite IH; apply orb_true_r|].
      destruct (split_cons c s) as [h' [t' E']]. rewrite E' in IH |- *.
      simpl in IH |- *. apply orb_true_iff in IH as [IH|IH].
      * rewrite IH. rewrite orb_true_r. reflexivity.
      * rewrite IH. apply orb_true_r.
Qed.

Lemma filter_nonempty {A} (f : A -> bool) l :
  existsb f l = true -> exists x t, List.filter f l = x :: t /\ f x = true.
Proof.
  induction l as [|a l IH]; simpl; [discriminate|].
  destruct (f a) eqn:E; simpl; eauto.
Qed.

End StrFacts.

(** ** The run *)

Section RunFacts.

Context {W : Type}.
Variable check_output : list string -> W -> result string * W.
Variable run : list string -> W -> result (string * string) * W.
Variable deployments : gmap string string.
Variable SCALEX_ROUTER : string.
Variable PRIVATE_KEY : option string.

Abbreviation get_pool_state := (Script.get_pool_state check_output).
Abbreviation borrow_asset := (Script.borrow_asset run SCALEX_ROUTER PRIVATE_KEY).
Abbreviation process := (Script.process check_output run deployments SCALEX_ROUTER PRIVATE_KEY).
Abbreviation main_loop := (Script.main_loop check_output run deployments SCALEX_ROUTER PRIVATE_KEY).
Abbreviation main := (Script.main check_output run deployments SCALEX_ROUTER PRIVATE_KEY).

Abbreviation resolve := (Script.resolve deployments).
Abbreviation attempted := (Script.attempted deployments).

Lemma get_pool_state_reads token w :
  Forall is_call_spawn (get_pool_state token w).2.
Proof.
  unfold Script.get_pool_state.
  destruct (check_output _ w) as [out1 w1].
  destruct (rbind out1 _); simpl; [|repeat constructor].
  destruct (check_output _ w1) as [out2 w2].
  destruct (rbind out2 _); simpl; repeat constructor.
Qed.

Lemma borrow_asset_no_key token amount w :
  PRIVATE_KEY = None ->
  borrow_asset token amount w =
    ((false, "expected str, bytes or os.PathLike object, not NoneType"), w, []).
Proof. unfold Script.borrow_asset. intros ->. reflexivity. Qed.

Lemma process_skip asset cfg w :
  attempted (asset, cfg) = false -> process asset cfg w = ([], w, []).
Proof.
  unfold attempted, resolve, Script.process. simpl.
  destruct (String.eqb (status cfg) "achieved"); [reflexivity|].
  destruct (deployments !! asset) as [[|a s]|]; simpl; congruence.
Qed.

Lemma process_one asset cfg w :
  attempted (asset, cfg) = true ->
  exists st amount, (process asset cfg w).1.1 = [(asset, st, amount)].
Proof.
  unfold attempted, resolve, Script.process. simpl.
  destruct (String.eqb (status cfg) "achieved"); [discriminate|].
  destruct (deployments !! asset) as [[|a s]|]; simpl; try discriminate.
  intros _. destruct (get_pool_state _ w) as [[state w1] ev1].
  destruct (rbind state _) as [p|e]; simpl; [|eauto].
  destruct (additional_borrow_raw p >? 0); simpl; [|eauto].
  destruct (borrow_asset _ _ w1) as [[[ok diag] w2] ev2].
  destruct ok; simpl; eauto.
Qed.

Lemma process_borrow_positive asset cfg w :
  Forall borrow_positive (process asset cfg w).2.
Proof.
  unfold Script.process.
  destruct (String.eqb (status cfg) "achieved"); [constructor|].
  destruct (deployments !! asset) as [[|a s]|]; try constructor.
  pose proof (get_pool_state_reads (String a s) w) as Hr.
  destruct (get_pool_state _ w) as [[state w1] ev1]. simpl in Hr.
  assert (Hev1 : Forall borrow_positive ev1).
  { eapply Forall_impl; [exact Hr|]. intros [argv|t n]; simpl; tauto. }
  destruct (rbind state _) as [p|e]; simpl; [|assumption].
  destruct (additional_borrow_raw p >? 0) eqn:Hpos; simpl; [|assumption].
  apply Z.gtb_lt in Hpos.
  unfold Script.borrow_asset.
  destruct PRIVATE_KEY as [key|].
  - destruct (run _ w1) as [[[stdout stderr]|e] w2].
    + destruct (Str.contains _ stdout).
      * destruct (List.filter _ _); simpl;
          (apply Forall_app; split; [assumption|repeat constructor; assumption]).
      * simpl. apply Forall_app; split; [assumption|repeat constructor; assumption].
    + simpl. apply Forall_app; split; [assumption|repeat constructor; assumption].
  - simpl. apply Forall_app; split; [assumption|repeat constructor; assumption].
Qed.

Lemma main_loop_app l1 l2 w :
  main_loop (l1 ++ l2) w =
    let '(rs1, w1, tr1) := main_loop l1 w in
    let '(rs2, w2, tr2) := main_loop l2 w1 in
    (rs1 ++ rs2, w2, tr1 ++ tr2).
Proof.
  revert w. induction l1 as [|[asset cfg] l1 IH]; intros w; simpl.
  - destruct (main_loop l2 w) as [[rs2 w2] tr2]. reflexivity.
  - destruct (process asset cfg w) as [[rs w1] ev]. rewrite IH.
    destruct (main_loop l1 w1) as [[rs1 w1'] tr1].
    destruct (main_loop l2 w1') as [[rs2 w2] tr2].
    rewrite !app_assoc. reflexivity.
Qed.

Lemma main_loop_trace_assets tgts w asset ev :
  In (asset, ev) (main_loop tgts w).2 ->
  exists cfg, In (asset, cfg) tgts /\ attempted (asset, cfg) = true.
Proof.
  revert w. induction tgts as [|[a cfg] rest IH]; intros w; simpl; [tauto|].
  destruct (attempted (a, cfg)) eqn:Hat.
  - destruct (process a cfg w) as [[rs w1] evs].
    specialize (IH w1). destruct (main_loop rest w1) as [[rs' w2] tr']. simpl in *.
    rewrite in_app_iff, in_map_iff. intros [[e [[= <- <-] _]]|H].
    + eauto.
    + destruct (IH H) as [c [? ?]]. eauto.
  - rewrite (process_skip _ _ _ Hat).
    specialize (IH w). destruct (main_loop rest w) as [[rs' w2] tr']. simpl in *.
    intros H. destruct (IH H) as [c [? ?]]. eauto.
Qed.

Lemma main_loop_records tgts w :
  map (fun r : record => r.1.1) (main_loop tgts w).1.1 =
  map fst (List.filter attempted tgts).
Proof.
  revert w. induction tgts as [|[a cfg] rest IH]; intros w; simpl; [reflexivity|].
  destruct (attempted (a, cfg)) eqn:Hat.
  - destruct (process_one a cfg w Hat) as [st [amount E]].
    destruct (process a cfg w) as [[rs w1] evs]. simpl in E. subst rs.
    specialize (IH w1). destruct (main_loop rest w1) as [[rs' w2] tr'].
    simpl in *. rewrite IH. reflexivity.
  - rewrite (process_skip _ _ _ Hat).
    specialize (IH w). destruct (main_loop rest w) as [[rs' w2] tr'].
    simpl in *. exact IH.
Qed.

Lemma summary_assets results :
  map line_asset (summary results) = map (fun r : record => r.1.1) results.
Proof.
  unfold summary. rewrite map_map. apply map_ext.
  intros [[asset st] amount]. destruct st; reflexivity.
Qed.

Lemma main_trace tgts w : (main tgts w).2 = (main_loop tgts w).2.
Proof.
  unfold Script.main. destruct (main_loop tgts w) as [[rs w'] tr]. reflexivity.
Qed.

Lemma main_lines tgts w : (main tgts w).1.1 = summary (main_loop tgts w).1.1.
Proof.
  unfold Script.main. destruct (main_loop tgts w) as [[rs w'] tr]. reflexivity.
Qed.

Lemma main_loop_forall (P : event -> Prop) :
  (forall asset cfg w, Forall P (process asset cfg w).2) ->
  forall tgts w, Forall (fun ae : string * event => P ae.2) (main_loop tgts w).2.
Proof.
  intros HP tgts. induction tgts as [|[a cfg] rest IH]; intros w; simpl; [constructor|].
  specialize (HP a cfg w). destruct (process a cfg w) as [[rs w1] evs].
  specialize (IH w1). destruct (main_loop rest w1) as [[rs' w2] tr']. simpl in *.
  apply Forall_app. split; [|assumption].
  apply Forall_fmap. eapply Forall_impl; [exact HP|]. auto.
Qed.

(** C4: in every run, every entry into the borrow executor carries a
    strictly positive amount: [borrow_asset] is called only under the
    test [additional_borrow_raw > 0]. *)
Theorem borrow_executor_amount_positive tgts w :
  Forall (fun ae : string * event => borrow_positive ae.2) (main tgts w).2.
Proof.
  rewrite main_trace. apply main_loop_forall with (P := borrow_positive).
  apply process_borrow_positive.
Qed.

Lemma assoc_unique {A B} (l : list (A * B)) a b b' :
  NoDup (map fst l) -> In (a, b) l -> In (a, b') l -> b = b'.
Proof.
  induction l as [|[x y] l IH]; simpl; [tauto|].
  rewrite NoDup_cons. intros [Hx Hnd] [H1|H1] [H2|H2].
  - congruence.
  - injection H1 as -> ->. exfalso. apply Hx, list_elem_of_In, in_map_iff.
    exists (a, b'). auto.
  - injection H2 as -> ->. exfalso. apply Hx, list_elem_of_In, in_map_iff.
    exists (a, b). auto.
  - eauto.
Qed.

(** C5: an asset whose configured status is [achieved] causes no event
    at all in the run: no pool-state read and no borrow. *)
Theorem achieved_asset_no_network tgts w asset cfg :
  NoDup (map fst tgts) -> In (asset, cfg) tgts -> status cfg = "achieved" ->
  forall ev, ~ In (asset, ev) (main tgts w).2.
Proof.
  intros Hnd Hin Hst ev H. rewrite main_trace in H.
  apply main_loop_trace_assets in H as [cfg' [Hin' Hat]].
  rewrite (assoc_unique _ _ _ _ Hnd Hin' Hin) in Hat.
  unfold attempted in Hat. simpl in Hat. rewrite Hst in Hat. discriminate.
Qed.

(** C6, as the script has it: the summary lists, in configured order
    and one line each, exactly the assets that are not marked achieved
    and resolve to a non-empty address; only those assets cause events.
    Assets marked achieved or absent from the deployments have no line
    in the summary and cause no event. *)
Theorem summary_lists_attempted_assets tgts w :
  map line_asset (main tgts w).1.1 = map fst (List.filter attempted tgts) /\
  Forall (fun ae : string * event => In ae.1 (map fst (List.filter attempted tgts)))
         (main tgts w).2.
Proof.
  split.
  - rewrite main_lines, summary_assets. apply main_loop_records.
  - rewrite main_trace. apply List.Forall_forall. intros [a ev] H. simpl.
    apply main_loop_trace_assets in H as [cfg [Hin Hat]].
    apply in_map_iff. exists (a, cfg). split; [reflexivity|].
    apply filter_In. auto.
Qed.

Lemma process_read_error asset cfg token w e :
  String.eqb (status cfg) "achieved" = false -> resolve asset = Some token ->
  (get_pool_state token w).1.1 = Err e ->
  (process asset cfg w).1 = ([(asset, error, Py.Int 0)], (get_pool_state token w).1.2).
Proof.
  unfold resolve, Script.process. intros -> Hres Herr.
  destruct (deployments !! asset) as [[|a s]|]; try discriminate.
  injection Hres as <-.
  destruct (get_pool_state _ w) as [[state w1] ev1]. simpl in *. subst state.
  reflexivity.
Qed.

(** C7: when the pool-state read of an asset raises, the summary has
    the lines of the assets before it, then one error line for this
    asset, then the lines of the run over the assets after it, started
    in the world the failed read left. *)
Theorem read_failure_recorded_and_run_continues pre post asset cfg token w e :
  let w1 := (main_loop pre w).1.2 in
  String.eqb (status cfg) "achieved" = false ->
  resolve asset = Some token ->
  (get_pool_state token w1).1.1 = Err e ->
  (main (pre ++ (asset, cfg) :: post) w).1.1 =
    (main pre w).1.1 ++ ErrorOccurred asset ::
    (main post (get_pool_state token w1).1.2).1.1.
Proof.
  intros w1 Hst Hres Herr. rewrite !main_lines, main_loop_app. subst w1.
  destruct (main_loop pre w) as [[rs1 w1] tr1]. simpl in *.
  pose proof (process_read_error asset cfg token w1 e Hst Hres Herr) as Hp.
  destruct (process asset cfg w1) as [[rs wa] eva]. simpl in Hp.
  injection Hp as -> ->.
  destruct (main_loop post _) as [[rs2 w2] tr2]. simpl.
  unfold summary. rewrite map_app. reflexivity.
Qed.

(** C10: [borrow_asset] always returns a pair. Without a key it
    returns [False] with the diagnostic of the [TypeError] and starts
    no process; when running the tool raises (a timeout included) it
    returns [False] with the text of the exception; and it returns
    [True] exactly when the tool ran and ['transactionHash'] occurs in
    its standard output, the receipt then being a line of that output
    that contains it. *)
Theorem borrow_asset_total token amount w :
  (PRIVATE_KEY = None ->
     borrow_asset token amount w =
       ((false, "expected str, bytes or os.PathLike object, not NoneType"), w, [])) /\
  (forall key e w',
     PRIVATE_KEY = Some key -> run (Script.send_argv SCALEX_ROUTER key token amount) w = (Err e, w') ->
     borrow_asset token amount w =
       ((false, exn_msg e), w', [Spawn (Script.send_argv SCALEX_ROUTER key token amount)])) /\
  ((borrow_asset token amount w).1.1.1 = true <->
     exists key stdout stderr w',
       PRIVATE_KEY = Some key /\
       run (Script.send_argv SCALEX_ROUTER key token amount) w = (Ok (stdout, stderr), w') /\
       Str.contains "transactionHash" stdout = true) /\
  (forall key stdout stderr w',
     PRIVATE_KEY = Some key ->
     run (Script.send_argv SCALEX_ROUTER key token amount) w = (Ok (stdout, stderr), w') ->
     if Str.contains "transactionHash" stdout
     then exists receipt,
            borrow_asset token amount w =
              ((true, receipt), w', [Spawn (Script.send_argv SCALEX_ROUTER key token amount)]) /\
            In receipt (Str.split Str.newline stdout) /\
            Str.contains "transactionHash" receipt = true
     else borrow_asset token amount w =
            ((false, stderr), w', [Spawn (Script.send_argv SCALEX_ROUTER key token amount)])).
Proof.
  unfold Script.borrow_asset. split; [|split; [|split; [split|]]].
  - intros ->. reflexivity.
  - intros key e w' -> ->. reflexivity.
  - destruct PRIVATE_KEY as [key|]; [|discriminate].
    destruct (run _ w) as [[[stdout stderr]|e] w'] eqn:Hrun; [|discriminate].
    destruct (Str.contains _ stdout) eqn:Hc; [|discriminate].
    intros _. exists key, stdout, stderr, w'. auto.
  - intros (key & stdout & stderr & w' & -> & -> & Hc). rewrite Hc.
    apply (StrFacts.contains_split Str.newline) in Hc; [|reflexivity].
    apply StrFacts.filter_nonempty in Hc as (x & t & -> & _). reflexivity.
  - intros key stdout stderr w' -> ->.
    destruct (Str.contains _ stdout) eqn:Hc; [|reflexivity].
    apply (StrFacts.contains_split Str.newline) in Hc; [|reflexivity].
    apply StrFacts.filter_nonempty in Hc as (x & t & Hf & Hx).
    rewrite Hf. exists x. split; [reflexivity|]. split; [|exact Hx].
    assert (Hin : In x (List.filter (Str.contains "transactionHash")
                                    (Str.split Str.newline stdout)))
      by (rewrite Hf; left; reflexivity).
    apply filter_In in Hin. tauto.
Qed.

Lemma process_without_key asset cfg w :
  PRIVATE_KEY = None ->
  Forall is_read (process asset cfg w).2 /\
  Forall (fun r : record => r.1.2 <> success) (process asset cfg w).1.1.
Proof.
  intros Hkey. unfold Script.process.
  destruct (String.eqb (status cfg) "achieved"); [split; constructor|].
  destruct (deployments !! asset) as [[|a s]|]; try (split; constructor).
  pose proof (get_pool_state_reads (String a s) w) as Hr.
  destruct (get_pool_state _ w) as [[state w1] ev1]. simpl in Hr.
  assert (Hev1 : Forall is_read ev1).
  { eapply Forall_impl; [exact Hr|]. intros [argv|t n]; simpl; tauto. }
  destruct (rbind state _) as [p|e]; simpl.
  - destruct (additional_borrow_raw p >? 0); simpl.
    + rewrite borrow_asset_no_key by assumption. simpl. split.
      * apply Forall_app. split; [assumption|repeat constructor].
      * repeat constructor. discriminate.
    + split; [assumption|]. repeat constructor. discriminate.
  - split; [assumption|]. repeat constructor. discriminate.
Qed.

Lemma main_without_key tgts w :
  PRIVATE_KEY = None ->
  Forall (fun ae : string * event => is_read ae.2) (main tgts w).2 /\
  Forall not_borrowed (main tgts w).1.1.
Proof.
  intros Hkey. rewrite main_trace, main_lines. split.
  - apply main_loop_forall with (P := is_read). intros. now apply process_without_key.
  - revert w. induction tgts as [|[a cfg] rest IH]; intros w; simpl; [constructor|].
    destruct (process_without_key a cfg w Hkey) as [_ Hrs].
    destruct (process a cfg w) as [[rs w1] evs].
    specialize (IH w1). destruct (main_loop rest w1) as [[rs' w2] tr']. simpl in *.
    unfold summary in *. rewrite map_app. apply Forall_app. split; [|assumption].
    apply Forall_fmap. eapply Forall_impl; [exact Hrs|].
    intros [[asset st] amount]. simpl. destruct st; simpl; tauto.
Qed.

Lemma get_pool_state_first token w :
  In (Spawn (Script.call_argv "totalLiquidity(address)(uint256)" token))
     (get_pool_state token w).2.
Proof.
  unfold Script.get_pool_state.
  destruct (check_output _ w) as [out1 w1].
  destruct (rbind out1 _); simpl; [|tauto].
  destruct (check_output _ w1) as [out2 w2].
  destruct (rbind out2 _); simpl; tauto.
Qed.

(** The pool of an asset that is attempted is read, key or no key. *)
Lemma process_reads asset cfg token w :
  String.eqb (status cfg) "achieved" = false -> resolve asset = Some token ->
  In (Spawn (Script.call_argv "totalLiquidity(address)(uint256)" token))
     (process asset cfg w).2.
Proof.
  unfold resolve, Script.process. intros -> Hres.
  destruct (deployments !! asset) as [[|a s]|]; try discriminate.
  injection Hres as <-.
  pose proof (get_pool_state_first (String a s) w) as Hin.
  destruct (get_pool_state _ w) as [[state w1] ev1]. simpl in Hin.
  destruct (rbind state _) as [p|e]; simpl; [|assumption].
  destruct (additional_borrow_raw p >? 0); simpl; [|assumption].
  destruct (borrow_asset _ _ w1) as [[[ok diag] w2] ev2].
  destruct ok; simpl; apply in_or_app; left; assumption.
Qed.

Lemma main_loop_reads tgts w asset cfg token :
  In (asset, cfg) tgts ->
  String.eqb (status cfg) "achieved" = false -> resolve asset = Some token ->
  In (asset, Spawn (Script.call_argv "totalLiquidity(address)(uint256)" token))
     (main_loop tgts w).2.
Proof.
  intros Hin Hst Hres. revert w.
  induction tgts as [|[a c] rest IH]; intros w; simpl in *; [tauto|].
  pose proof (process_reads asset cfg token w Hst Hres) as Hp.
  destruct Hin as [[= -> ->]|Hin].
  - destruct (process asset cfg w) as [[rs w1] evs].
    destruct (main_loop rest w1) as [[rs' w2] tr']. simpl in *.
    apply in_or_app. left. apply in_map. assumption.
  - destruct (process a c w) as [[rs w1] evs].
    specialize (IH Hin w1). destruct (main_loop rest w1) as [[rs' w2] tr']. simpl in *.
    apply in_or_app. right. assumption.
Qed.

End RunFacts.

(** C9, as the script has it: when the key is absent from the
    environment the run does not stop early. Once the router is read
    from the deployments, it prints its summary, after reading the pool
    of every asset it attempts, but every process it starts is a read
    ([cast call]): no transaction is ever submitted, and no asset is
    reported as borrowed. *)
Theorem without_key_reads_only {W : Type}
    (check_output : list string -> W -> result string * W)
    (run : list string -> W -> result (string * string) * W)
    (deployments env : gmap string string)
    (tgts : list (string * config)) (w : W) :
  env !! "PRIVATE_KEY" = None ->
  let r := script check_output run deployments env tgts w in
  Forall (fun ae : string * event => is_read ae.2) r.2 /\
  (forall lines, r.1.1 = Ok lines -> Forall not_borrowed lines) /\
  (forall router, deployments !! "ScaleXRouter" = Some router ->
     (exists lines, r.1.1 = Ok lines) /\
     forall asset cfg token,
       In (asset, cfg) tgts ->
       String.eqb (status cfg) "achieved" = false ->
       Script.resolve deployments asset = Some token ->
       In (asset, Spawn (Script.call_argv "totalLiquidity(address)(uint256)" token)) r.2).
Proof.
  intros Hkey. unfold script. rewrite Hkey.
  destruct (deployments !! "ScaleXRouter") as [router|]; simpl.
  - pose proof (main_without_key check_output run deployments router None tgts w eq_refl)
      as [Htr Hl].
    pose proof (fun asset cfg token =>
                  main_loop_reads check_output run deployments router None
                    tgts w asset cfg token) as Hreads.
    rewrite <- main_trace in Hreads.
    destruct (Script.main _ _ _ _ _ tgts w) as [[lines w'] tr]. simpl in *.
    split; [assumption|]. split; [intros ? [= <-]; assumption|].
    intros ? _. split; [eauto|]. exact Hreads.
  - split; [constructor|]. split; discriminate.
Qed.

(** ** Runs on the simulated chain *)

Lemma targets_keys_distinct : NoDup (map fst targets).
Proof. apply (bool_decide_unpack _). vm_compute. exact I. Qed.

Lemma achieved_asset_no_network_witness :
  NoDup (map fst targets) /\
  In ("WBTC", Config (Py.literal 2091 2) 8 "achieved") targets /\
  forall ev,
    ~ In ("WBTC", ev)
         (Script.main Sim.check_output Sim.run Sim.deployments "0xrouter"
                      (Some "0xkey") targets Sim.genesis).2.
Proof.
  refine (conj targets_keys_distinct (conj (or_introl eq_refl) _)).
  exact (achieved_asset_no_network Sim.check_output Sim.run Sim.deployments
           "0xrouter" (Some "0xkey") targets Sim.genesis "WBTC" _
           targets_keys_distinct (or_introl eq_refl) eq_refl).
Defined.

(** C6 fails on the script: WBTC is configured (as achieved) and GOLD is
    configured but absent from the deployments, and neither has a line in
    the summary. *)
Lemma summary_omits_skipped_assets :
  let lines := (Script.main Sim.check_output Sim.run Sim.deployments "0xrouter"
                            (Some "0xkey") targets Sim.genesis).1.1 in
  In "WBTC" (map fst targets) /\
  In "GOLD" (map fst targets) /\
  map line_asset lines = ["WETH"; "IDRX"] /\
  count_occ string_dec (map line_asset lines) "WBTC" = 0%nat /\
  count_occ string_dec (map line_asset lines) "GOLD" = 0%nat /\
  ~ every_asset_one_line targets lines.
Proof.
  assert (E : map line_asset
                (Script.main Sim.check_output Sim.run Sim.deployments "0xrouter"
                             (Some "0xkey") targets Sim.genesis).1.1
              = ["WETH"; "IDRX"]) by (vm_compute; reflexivity).
  cbv zeta. rewrite E. repeat split.
  - simpl. tauto.
  - simpl. tauto.
  - intros H. specialize (H "WBTC" (or_introl eq_refl)). rewrite E in H.
    vm_compute in H. discriminate.
Qed.

Lemma read_failure_recorded_and_run_continues_witness :
  let pre := take 2 targets in
  let post := drop 3 targets in
  let cfg := Config (Py.literal 5914 2) 6 "pending" in
  let w1 := (Script.main_loop Sim.check_output Sim.run Sim.deployments "0xrouter"
                              (Some "0xkey") pre Sim.genesis).1.2 in
  let e := Raise CalledProcessError "returned non-zero exit status 1" in
  String.eqb (status cfg) "achieved" = false /\
  Script.resolve Sim.deployments "IDRX" = Some "0xidrx" /\
  (Script.get_pool_state Sim.check_output "0xidrx" w1).1.1 = Err e /\
  (Script.main Sim.check_output Sim.run Sim.deployments "0xrouter" (Some "0xkey")
               (pre ++ ("IDRX", cfg) :: post) Sim.genesis).1.1 =
    (Script.main Sim.check_output Sim.run Sim.deployments "0xrouter" (Some "0xkey")
                 pre Sim.genesis).1.1
    ++ ErrorOccurred "IDRX"
    :: (Script.main Sim.check_output Sim.run Sim.deployments "0xrouter" (Some "0xkey")
                    post (Script.get_pool_state Sim.check_output "0xidrx" w1).1.2).1.1.
Proof.
  cbv zeta.
  assert (H1 : String.eqb (status (Config (Py.literal 5914 2) 6 "pending")) "achieved"
               = false) by reflexivity.
  assert (H2 : Script.resolve Sim.deployments "IDRX" = Some "0xidrx")
    by (vm_compute; reflexivity).
  assert (H3 : (Script.get_pool_state Sim.check_output "0xidrx"
                  (Script.main_loop Sim.check_output Sim.run Sim.deployments "0xrouter"
                     (Some "0xkey") (take 2 targets) Sim.genesis).1.2).1.1
               = Err (Raise CalledProcessError "returned non-zero exit status 1"))
    by (vm_compute; reflexivity).
  exact (conj H1 (conj H2 (conj H3
           (read_failure_recorded_and_run_continues Sim.check_output Sim.run
              Sim.deployments "0xrouter" (Some "0xkey")
              (take 2 targets) (drop 3 targets) "IDRX" _ "0xidrx" Sim.genesis _
              H1 H2 H3)))).
Defined.

(** C9 fails on the script: without the key the run completes, after
    reading the pools it attempts (here WETH, then IDRX). *)
Lemma without_key_run_reads_pools :
  let r := script Sim.check_output Sim.run Sim.deployments Sim.without_key
                  targets Sim.genesis in
  Sim.without_key !! "PRIVATE_KEY" = None /\
  (exists amount, r.1.1 = Ok [FailedToBorrow "WETH" amount; ErrorOccurred "IDRX"]) /\
  In ("WETH", Spawn (Script.call_argv "totalLiquidity(address)(uint256)" "0xweth")) r.2 /\
  In ("WETH", Spawn (Script.call_argv "totalBorrowed(address)(uint256)" "0xweth")) r.2 /\
  ~ fails_fast_without_key Sim.check_output Sim.run Sim.deployments Sim.without_key
      targets Sim.genesis.
Proof.
  cbv zeta. split; [reflexivity|]. split.
  - eexists. vm_compute. reflexivity.
  - split; [vm_compute; tauto|]. split; [vm_compute; tauto|].
    intros H. destruct (H eq_refl) as [_ Htr]. vm_compute in Htr. discriminate.
Qed.

Lemma without_key_reads_only_witness :
  Sim.without_key !! "PRIVATE_KEY" = None /\
  let r := script Sim.check_output Sim.run Sim.deployments Sim.without_key
                  targets Sim.genesis in
  Forall (fun ae : string * event => is_read ae.2) r.2 /\
  (forall lines, r.1.1 = Ok lines -> Forall not_borrowed lines) /\
  (forall router, Sim.deployments !! "ScaleXRouter" = Some router ->
     (exists lines, r.1.1 = Ok lines) /\
     forall asset cfg token,
       In (asset, cfg) targets ->
       String.eqb (status cfg) "achieved" = false ->
       Script.resolve Sim.deployments asset = Some token ->
       In (asset, Spawn (Script.call_argv "totalLiquidity(address)(uint256)" token)) r.2).
Proof.
  exact (conj eq_refl
           (without_key_reads_only Sim.check_output Sim.run Sim.deployments
              Sim.without_key targets Sim.genesis eq_refl)).
Defined.

(** * Further properties of the code *)

(** ** Text *)

Module TextFacts.
Import Str Text.

Lemma app_nil (s : string) : EmptyString +:+ s = s.
Proof. reflexivity. Qed.

Lemma app_cons a (s t : string) : String a s +:+ t = String a (s +:+ t).
Proof. reflexivity. Qed.

Ltac sapp := rewrite ?app_cons, ?app_nil in *.

Lemma prefix_app p s : String.prefix p s = true <-> exists post, s = p +:+ post.
Proof.
  revert s. induction p as [|a p IH]; intros s.
  - split; [intros _; exists s; reflexivity|]. intros _. destruct s; reflexivity.
  - destruct s as [|b s]; simpl.
    + split; [discriminate|]. intros [post H]. discriminate.
    + destruct (Ascii.ascii_dec a b) as [<-|Hne].
      * rewrite IH. split; intros [post H]; exists post; sapp; congruence.
      * split; [discriminate|]. intros [post H]. sapp. congruence.
Qed.

Lemma drop_spaces_spec s :
  exists blanks, s = blanks +:+ drop_spaces s /\ all_space blanks = true /\
                 match drop_spaces s with
                 | EmptyString => True
                 | String a _ => is_space a = false
                 end.
Proof.
  induction s as [|a s (blanks & E & Hb & Hd)]; simpl.
  - exists EmptyString. auto.
  - destruct (is_space a) eqn:Ea.
    + exists (String a blanks). sapp. simpl. rewrite Ea, Hb. split; [congruence|auto].
    + exists EmptyString. sapp. simpl. rewrite Ea. auto.
Qed.

Lemma take_word_spec s :
  exists rest, s = take_word s +:+ rest /\ no_space (take_word s) = true /\
               blank_start rest = true.
Proof.
  induction s as [|a s (rest & E & Hw & Hr)]; simpl.
  - exists EmptyString. auto.
  - destruct (is_space a) eqn:Ea; simpl.
    + exists (String a s). sapp. simpl. auto.
    + exists rest. sapp. rewrite Ea, Hw. simpl. split; [congruence|auto].
Qed.

Lemma drop_spaces_app blanks s :
  all_space blanks = true -> drop_spaces (blanks +:+ s) = drop_spaces s.
Proof.
  induction blanks as [|a b IH]; simpl; [reflexivity|].
  intros H. apply andb_true_iff in H as [Ha H]. sapp. simpl. rewrite Ha. auto.
Qed.

Lemma take_word_app w rest :
  no_space w = true -> blank_start rest = true -> take_word (w +:+ rest) = w.
Proof.
  induction w as [|a w IH]; simpl.
  - intros _. sapp. destruct rest as [|b r]; simpl; [reflexivity|]. intros ->. reflexivity.
  - intros H Hr. apply andb_true_iff in H as [Ha H].
    apply negb_true_iff in Ha. sapp. simpl. rewrite Ha, IH by assumption. reflexivity.
Qed.

Lemma drop_spaces_word w rest :
  w <> EmptyString -> no_space w = true -> drop_spaces (w +:+ rest) = w +:+ rest.
Proof.
  destruct w as [|a w]; [congruence|]. simpl. intros _ H.
  apply andb_true_iff in H as [Ha _]. apply negb_true_iff in Ha.
  sapp. simpl. rewrite Ha. reflexivity.
Qed.

Lemma first_field_intro blanks w rest :
  all_space blanks = true -> w <> EmptyString -> no_space w = true ->
  blank_start rest = true ->
  first_field (blanks +:+ w +:+ rest) = Ok w.
Proof.
  intros Hb Hne Hw Hr. unfold first_field.
  rewrite drop_spaces_app, drop_spaces_word, take_word_app by assumption.
  destruct w; congruence.
Qed.

Lemma all_space_drop s : all_space s = true -> drop_spaces s = EmptyString.
Proof.
  induction s as [|a s IH]; simpl; [reflexivity|].
  intros H. apply andb_true_iff in H as [-> H]. auto.
Qed.

Lemma all_space_app a b : all_space (a +:+ b) = all_space a && all_space b.
Proof.
  induction a as [|c a IH]; sapp; simpl; [reflexivity|].
  rewrite IH, andb_assoc. reflexivity.
Qed.

End TextFacts.

Import Text TextFacts.

(** X1: the fields of [s.split(c)] joined by [c] give [s] back, and no
    field holds the separator. *)
Theorem split_concat c s :
  String.concat (String c EmptyString) (Str.split c s) = s /\
  Forall (fun f => Str.avoids c f = true) (Str.split c s).
Proof.
  induction s as [|a s [IH1 IH2]]; simpl.
  - split; [reflexivity|]. repeat constructor.
  - destruct (StrFacts.split_cons c s) as (h & t & E). rewrite E in *.
    apply Forall_cons in IH2 as [Hh Ht].
    destruct (Ascii.eqb_spec a c) as [->|Hne].
    + split; [|constructor; [reflexivity|constructor; assumption]].
      cbn [String.concat]. cbn [String.concat] in IH1. rewrite IH1. reflexivity.
    + split.
      * destruct t as [|h' t]; cbn [String.concat] in *; sapp; congruence.
      * constructor; [|assumption]. simpl. rewrite Hh.
        apply Ascii.eqb_neq in Hne. rewrite Hne. reflexivity.
Qed.

(** X2: [p in s] holds exactly when [s] is [p] between two strings. *)
Theorem contains_spec p s :
  Str.contains p s = true <-> exists pre post, s = pre +:+ p +:+ post.
Proof.
  induction s as [|a s IH].
  - change (Str.contains p EmptyString) with (String.prefix p EmptyString || false).
    rewrite orb_false_r, prefix_app. split.
    + intros [post H]. exists EmptyString, post. exact H.
    + intros (pre & post & H). destruct pre; [exists post; exact H|discriminate].
  - change (Str.contains p (String a s)) with (String.prefix p (String a s) || Str.contains p s).
    rewrite orb_true_iff, IH, prefix_app. split.
    + intros [[post H]|(pre & post & H)].
      * exists EmptyString, post. exact H.
      * exists (String a pre), post. sapp. congruence.
    + intros (pre & post & H). destruct pre as [|b pre].
      * left. exists post. exact H.
      * right. sapp. injection H as -> ->. eauto.
Qed.

(** The blanks of [str.strip()] and [str.split()] among the characters
    below 256: tab to carriage return, the four separators, the space,
    U+0085 and U+00A0. *)
Lemma is_space_spec a :
  Str.is_space a = true <->
  In (nat_of_ascii a) [9; 10; 11; 12; 13; 28; 29; 30; 31; 32; 133; 160]%nat.
Proof.
  destruct a as [[] [] [] [] [] [] [] []]; vm_compute;
    (split; [intros H; first [discriminate H | tauto] | intros H; first [reflexivity | exfalso]]);
    repeat (destruct H as [H|H]; [discriminate H|]); exact H.
Qed.

(** X3: [s.strip().split()[0]] is the first run of characters that are not
    blank; it raises [IndexError] exactly when [s] holds only blanks. A
    text is a string of characters below 256, and the blanks are those
    Python takes as whitespace there ([is_space_spec]). *)
Theorem first_field_spec s :
  (forall w, Str.first_field s = Ok w <->
     w <> EmptyString /\ no_space w = true /\
     exists blanks rest, s = blanks +:+ w +:+ rest /\
                         all_space blanks = true /\ blank_start rest = true) /\
  (all_space s = true <->
     exists e, Str.first_field s = Err e /\ exn_cls e = IndexError).
Proof.
  destruct (drop_spaces_spec s) as (blanks & E & Hb & Hd).
  destruct (take_word_spec (Str.drop_spaces s)) as (rest & E' & Hw & Hr).
  split.
  - intros w. split.
    + unfold Str.first_field. intros H.
      destruct (Str.take_word (Str.drop_spaces s)) as [|a w'] eqn:Et; [discriminate|].
      injection H as <-. split; [discriminate|]. split; [assumption|].
      exists blanks, rest. rewrite <- E'. auto.
    + intros (Hne & Hnw & blanks' & rest' & -> & Hb' & Hr').
      apply first_field_intro; assumption.
  - split.
    + intros H. unfold Str.first_field. rewrite (all_space_drop s H). simpl. eauto.
    + intros (e & H & _). unfold Str.first_field in H.
      destruct (Str.take_word (Str.drop_spaces s)) as [|a w'] eqn:Et; [|discriminate].
      destruct (Str.drop_spaces s) as [|b d] eqn:Ed.
      * rewrite E, all_space_app, Hb. reflexivity.
      * simpl in Et. rewrite Hd in Et. discriminate.
Qed.

(** ** Numerals *)

Module NumeralFacts.
Import Str Text TextFacts.

Lemma digit_of_char (d : N) :
  (d < 10)%N -> digit_of (pretty_N_char d) = Some (Z.of_N d) /\
                is_space (pretty_N_char d) = false.
Proof.
  intros H.
  assert (d = 0 \/ d = 1 \/ d = 2 \/ d = 3 \/ d = 4 \/ d = 5 \/ d = 6 \/ d = 7 \/ d = 8
          \/ d = 9)%N as Hd by lia.
  repeat (destruct Hd as [->|Hd]; [split; reflexivity|]). subst. split; reflexivity.
Qed.

(** The digits [pretty] writes for [x], read back in front of [s]. *)
Lemma digits_pretty_go (x : N) : forall s after,
  (0 < x)%N ->
  digits (pretty_N_go x s) 0 after = digits s (Z.of_N x) true.
Proof.
  induction (N.lt_wf_0 x) as [x _ IH]. intros s after Hx.
  rewrite pretty_N_go_step by assumption.
  pose proof (digit_of_char (x mod 10) ltac:(apply N.mod_lt; lia)) as [Hd _].
  assert (Ex : Z.of_N x = 10 * Z.of_N (x / 10) + Z.of_N (x mod 10)).
  { rewrite (N.div_mod x 10) at 1 by lia. lia. }
  destruct (N.eq_dec (x / 10)%N 0%N) as [E0|Hne].
  - rewrite E0 in *. rewrite pretty_N_go_0. cbn [digits]. rewrite Hd, Ex. reflexivity.
  - assert (H1 : (x / 10 < x)%N) by (apply N.div_lt; lia).
    assert (H2 : (0 < x / 10)%N) by (apply N.neq_0_lt_0; exact Hne).
    rewrite (IH _ H1 _ _ H2).
    cbn [digits]. rewrite Hd, Ex. reflexivity.
Qed.

Lemma no_space_pretty_go (x : N) : forall s,
  no_space s = true -> no_space (pretty_N_go x s) = true.
Proof.
  induction (N.lt_wf_0 x) as [x _ IH]. intros s Hs.
  destruct (N.eq_dec x 0%N) as [->|Hne]; [rewrite pretty_N_go_0; assumption|].
  rewrite pretty_N_go_step by lia. apply IH; [apply N.div_lt; lia|].
  pose proof (digit_of_char (x mod 10) ltac:(apply N.mod_lt; lia)) as [_ Hd].
  cbn [no_space]. rewrite Hd, Hs. reflexivity.
Qed.

Lemma pretty_go_nonempty (x : N) : forall s,
  (0 < x)%N -> pretty_N_go x s <> EmptyString.
Proof.
  induction (N.lt_wf_0 x) as [x _ IH]. intros s Hx.
  rewrite pretty_N_go_step by assumption.
  destruct (N.eq_dec (x / 10)%N 0%N) as [E0|Hne].
  - rewrite E0, pretty_N_go_0. discriminate.
  - assert (H2 : (0 < x / 10)%N) by (apply N.neq_0_lt_0; exact Hne).
    apply IH; [apply N.div_lt; lia|assumption].
Qed.

Lemma to_int_digits s z : digits s 0 false = Some z -> to_int s = Ok z.
Proof.
  intros H. unfold to_int.
  destruct s as [|a s]; [rewrite H; reflexivity|].
  destruct (Ascii.ascii_dec a "+") as [->|Hp]; [discriminate|].
  destruct (Ascii.ascii_dec a "-") as [->|Hm]; [discriminate|].
  assert (E : match String a s with
              | String "+" r => digits r 0 false
              | String "-" r => Z.opp <$> digits r 0 false
              | _ => digits (String a s) 0 false
              end = digits (String a s) 0 false).
  { destruct a as [[] [] [] [] [] [] [] []]; try reflexivity; congruence. }
  rewrite E, H. reflexivity.
Qed.

Lemma pretty_pos_digits (p : positive) :
  digits (pretty (Npos p)) 0 false = Some (Zpos p).
Proof.
  unfold pretty, pretty_N. destruct (decide (Npos p = 0%N)) as [|_]; [discriminate|].
  rewrite digits_pretty_go by lia. reflexivity.
Qed.

Lemma pretty_Z_no_space (z : Z) : no_space (pretty z) = true /\ pretty z <> EmptyString.
Proof.
  assert (H : forall p, no_space (pretty (Npos p)) = true /\ pretty (Npos p) <> EmptyString).
  { intros p. unfold pretty, pretty_N.
    destruct (decide (Npos p = 0%N)) as [|_]; [discriminate|].
    split; [apply no_space_pretty_go; reflexivity|apply pretty_go_nonempty; lia]. }
  destruct z as [|p|p].
  - split; [reflexivity|discriminate].
  - apply H.
  - destruct (H p) as [Hs _].
    change (pretty (Zneg p)) with (String "-" (pretty (Npos p))).
    cbn [no_space]. rewrite Hs. split; [reflexivity|discriminate].
Qed.

End NumeralFacts.

Import NumeralFacts.

(** X4: [int(str(z))] is [z]: the decimal text of an integer, as [str] writes
    it into the command line of a borrow, reads back as that integer
    (within the 4300 digits Python converts). *)
Theorem to_int_pretty (z : Z) : Z.abs z < 10 ^ 4300 -> Str.to_int (pretty z) = Ok z.
Proof.
  intros _. destruct z as [|p|p].
  - reflexivity.
  - apply to_int_digits. apply pretty_pos_digits.
  - change (pretty (Zneg p)) with (String "-" (pretty (Npos p))).
    unfold Str.to_int. rewrite pretty_pos_digits. reflexivity.
Qed.

Lemma to_int_pretty_witness :
  Z.abs (-1500000000000000000) < 10 ^ 4300 /\
  Str.to_int (pretty (-1500000000000000000)) = Ok (-1500000000000000000).
Proof.
  assert (H : Z.abs (-1500000000000000000) < 10 ^ 4300) by (apply Z.ltb_lt; vm_compute; reflexivity).
  exact (conj H (to_int_pretty (-1500000000000000000) H)).
Defined.

Module ParseFacts.
Import Str.

Lemma digits_chars s : forall acc after z,
  digits s acc after = Some z ->
  Forall (fun a => digit_of a <> None \/ a = "_"%char) (list_ascii_of_string s).
Proof.
  induction s as [|a s IH]; intros acc after z H; [constructor|].
  cbn [digits] in H. cbn [list_ascii_of_string].
  destruct (digit_of a) as [d|] eqn:Ed.
  - constructor; [left; congruence|]. eapply IH. exact H.
  - destruct (Ascii.eqb_spec a "_") as [->|Hne]; [|discriminate].
    destruct after; [|discriminate]. constructor; [right; reflexivity|].
    eapply IH. exact H.
Qed.

End ParseFacts.

(** X17: [int(s)] raises a [ValueError] on every text that holds an
    ASCII character that is no blank, no digit, no underscore and no
    sign: a point, an exponent or a hexadecimal digit. *)
Theorem to_int_rejects s a :
  In a (list_ascii_of_string s) ->
  (nat_of_ascii a < 128)%nat -> Str.is_space a = false ->
  Str.digit_of a = None -> a <> "_"%char -> a <> "+"%char -> a <> "-"%char ->
  exists e, Str.to_int s = Err e /\ exn_cls e = ValueError.
Proof.
  intros Hin _ _ Hd Hu Hp Hm. unfold Str.to_int.
  assert (Hbad : forall r acc after, In a (list_ascii_of_string r) ->
                                     Str.digits r acc after = None).
  { intros r acc after Hr. destruct (Str.digits r acc after) as [z|] eqn:E; [|reflexivity].
    exfalso. pose proof (ParseFacts.digits_chars r acc after z E) as Hall.
    rewrite List.Forall_forall in Hall. destruct (Hall a Hr); congruence. }
  assert (Hnone : match s with
                  | String "+" r => Str.digits r 0 false
                  | String "-" r => Z.opp <$> Str.digits r 0 false
                  | _ => Str.digits s 0 false
                  end = None).
  { destruct s as [|b r]; [destruct Hin|].
    cbn [list_ascii_of_string] in Hin.
    destruct (Ascii.ascii_dec b "+") as [->|Hbp].
    { destruct Hin as [<-|Hin]; [congruence|]. apply Hbad. assumption. }
    destruct (Ascii.ascii_dec b "-") as [->|Hbm].
    { destruct Hin as [<-|Hin]; [congruence|]. rewrite Hbad by assumption. reflexivity. }
    assert (E : match String b r with
                | String "+" r0 => Str.digits r0 0 false
                | String "-" r0 => Z.opp <$> Str.digits r0 0 false
                | _ => Str.digits (String b r) 0 false
                end = Str.digits (String b r) 0 false).
    { destruct b as [[] [] [] [] [] [] [] []]; try reflexivity; congruence. }
    rewrite E. apply Hbad. cbn [list_ascii_of_string]. assumption. }
  rewrite Hnone. eexists. split; reflexivity.
Qed.

Lemma to_int_rejects_witness :
  In "x"%char (list_ascii_of_string "0x3e8") /\
  (nat_of_ascii "x" < 128)%nat /\ Str.is_space "x" = false /\
  Str.digit_of "x" = None /\ "x"%char <> "_"%char /\ "x"%char <> "+"%char /\
  "x"%char <> "-"%char /\
  exists e, Str.to_int "0x3e8" = Err e /\ exn_cls e = ValueError.
Proof.
  assert (H1 : In "x"%char (list_ascii_of_string "0x3e8")) by (right; left; reflexivity).
  assert (Ha : (nat_of_ascii "x" < 128)%nat) by (vm_compute; lia).
  assert (Hs : Str.is_space "x" = false) by reflexivity.
  assert (H2 : Str.digit_of "x" = None) by reflexivity.
  assert (H3 : "x"%char <> "_"%char) by discriminate.
  assert (H4 : "x"%char <> "+"%char) by discriminate.
  assert (H5 : "x"%char <> "-"%char) by discriminate.
  exact (conj H1 (conj Ha (conj Hs (conj H2 (conj H3 (conj H4 (conj H5
           (to_int_rejects "0x3e8" "x" H1 Ha Hs H2 H3 H4 H5)))))))).
Defined.

(** ** Reads, borrows and the run *)

Section RunMore.

Context {W : Type}.
Variable check_output : list string -> W -> result string * W.
Variable run : list string -> W -> result (string * string) * W.
Variable deployments : gmap string string.
Variable SCALEX_ROUTER : string.
Variable PRIVATE_KEY : option string.

Abbreviation get_pool_state := (Script.get_pool_state check_output).
Abbreviation borrow_asset := (Script.borrow_asset run SCALEX_ROUTER PRIVATE_KEY).
Abbreviation process := (Script.process check_output run deployments SCALEX_ROUTER PRIVATE_KEY).
Abbreviation main_loop := (Script.main_loop check_output run deployments SCALEX_ROUTER PRIVATE_KEY).
Abbreviation main := (Script.main check_output run deployments SCALEX_ROUTER PRIVATE_KEY).
Abbreviation resolve := (Script.resolve deployments).
Abbreviation attempted := (Script.attempted deployments).
Abbreviation send_argv := (Script.send_argv SCALEX_ROUTER).
Abbreviation event_ok := (Trace.well_formed deployments SCALEX_ROUTER PRIVATE_KEY).

Import Trace Text TextFacts NumeralFacts.

Lemma first_field_pretty (z : Z) s t :
  all_space s = true -> blank_start t = true ->
  Str.first_field (s +:+ pretty z +:+ t) = Ok (pretty z).
Proof.
  intros Hs Ht. destruct (pretty_Z_no_space z) as [Hz Hne].
  apply first_field_intro; auto.
Qed.

(** X5: what [cast] prints is read back: an amount in decimal, followed
    by nothing, a newline or a blank and an annotation. *)
Theorem get_pool_state_parses token w l b s1 t1 s2 t2 w1 w2 :
  0 <= l < 2 ^ 256 -> 0 <= b < 2 ^ 256 ->
  all_space s1 = true -> blank_start t1 = true ->
  all_space s2 = true -> blank_start t2 = true ->
  check_output (Script.call_argv "totalLiquidity(address)(uint256)" token) w
    = (Ok (s1 +:+ pretty l +:+ t1), w1) ->
  check_output (Script.call_argv "totalBorrowed(address)(uint256)" token) w1
    = (Ok (s2 +:+ pretty b +:+ t2), w2) ->
  get_pool_state token w = (Ok (l, b), w2, [read_liquidity token; read_borrowed token]).
Proof.
  intros Hl Hb Hs1 Ht1 Hs2 Ht2 E1 E2. unfold Script.get_pool_state.
  rewrite E1. cbn [rbind]. rewrite (first_field_pretty l s1 t1 Hs1 Ht1).
  rewrite E2. cbn [rbind]. rewrite (first_field_pretty b s2 t2 Hs2 Ht2).
  assert (H256 : 2 ^ 256 < 10 ^ 4300) by (apply Z.ltb_lt; vm_compute; reflexivity).
  rewrite !to_int_pretty by lia. reflexivity.
Qed.

Lemma filter_first {A} (f : A -> bool) l x t :
  List.filter f l = x :: t ->
  exists pre post, l = pre ++ x :: post /\ Forall (fun y => f y = false) pre /\ f x = true.
Proof.
  induction l as [|a l IH]; simpl; [discriminate|].
  destruct (f a) eqn:E.
  - intros [= -> <-]. exists [], l. auto.
  - intros H. destruct (IH H) as (pre & post & -> & Hpre & Hx).
    exists (a :: pre), post. auto.
Qed.

(** X7: the receipt of a successful borrow is the first line of the
    tool's output that holds ['transactionHash'], without its newline. *)
Theorem receipt_is_first_line token amount w receipt :
  (borrow_asset token amount w).1.1 = (true, receipt) ->
  exists key stdout stderr w' pre post,
    PRIVATE_KEY = Some key /\
    run (send_argv key token amount) w = (Ok (stdout, stderr), w') /\
    Str.split Str.newline stdout = pre ++ receipt :: post /\
    Forall (fun line => Str.contains "transactionHash" line = false) pre /\
    Str.contains "transactionHash" receipt = true /\
    Str.avoids Str.newline receipt = true.
Proof.
  unfold Script.borrow_asset.
  destruct PRIVATE_KEY as [key|]; [|discriminate].
  destruct (run _ w) as [[[stdout stderr]|e] w'] eqn:Hrun; [|discriminate].
  destruct (Str.contains _ stdout) eqn:Hc; [|discriminate].
  destruct (List.filter _ _) as [|x t] eqn:Hf; [discriminate|].
  cbn [fst]. intros [= <-].
  destruct (filter_first _ _ _ _ Hf) as (pre & post & Es & Hpre & Hx).
  exists key, stdout, stderr, w', pre, post. repeat split; try assumption.
  destruct (split_concat Str.newline stdout) as [_ Hav].
  rewrite Es in Hav. apply Forall_app in Hav as [_ Hav].
  apply Forall_cons in Hav as [Hav _]. exact Hav.
Qed.

(** One iteration of the loop: what it records and what it starts. *)
Lemma process_cases asset cfg w :
  (attempted (asset, cfg) = false /\ process asset cfg w = ([], w, [])) \/
  exists token,
    resolve asset = Some token /\
    let R1 := read_liquidity token in
    let R2 := read_borrowed token in
    let rs := (process asset cfg w).1.1 in
    let ev := (process asset cfg w).2 in
    (rs = [(asset, error, Py.Int 0)] /\ (ev = [R1] \/ ev = [R1; R2])) \/
    (rs = [(asset, no_action, Py.Int 0)] /\ ev = [R1; R2]) \/
    exists amount x,
      0 < amount /\
      ((rs = [(asset, failed, x)] /\ PRIVATE_KEY = None /\
        ev = [R1; R2; CallBorrow token amount]) \/
       exists key,
         PRIVATE_KEY = Some key /\
         (rs = [(asset, failed, x)] \/ rs = [(asset, success, x)]) /\
         ev = [R1; R2; CallBorrow token amount; Spawn (send_argv key token amount)]).
Proof.
  destruct (attempted (asset, cfg)) eqn:Hat.
  2:{ left. split; [reflexivity|]. apply process_skip. assumption. }
  right. unfold Script.attempted, Script.resolve in *. cbn [fst snd] in Hat.
  unfold Script.process.
  destruct (String.eqb (status cfg) "achieved"); [discriminate|].
  destruct (deployments !! asset) as [[|a s]|]; try discriminate.
  exists (String a s). split; [reflexivity|]. cbv zeta.
  unfold Script.get_pool_state, read_liquidity, read_borrowed.
  destruct (check_output _ w) as [out1 w1].
  destruct (rbind out1 _) as [f1|e1]; [|left; cbn; auto].
  destruct (check_output _ w1) as [out2 w2].
  destruct (rbind out2 _) as [f2|e2]; [|left; cbn; auto].
  destruct (rbind _ _) as [p|e]; [|left; cbn; auto].
  destruct (additional_borrow_raw p >? 0) eqn:Hpos; [|right; left; cbn; auto].
  apply Z.gtb_lt in Hpos. right. right.
  exists (additional_borrow_raw p), (additional_borrow p). split; [lia|].
  unfold Script.borrow_asset. destruct PRIVATE_KEY as [key|]; [right; exists key|left; cbn; auto].
  split; [reflexivity|].
  destruct (run _ w2) as [[[stdout stderr]|e] w3]; [|cbn; auto].
  destruct (Str.contains _ stdout); [|cbn; auto].
  destruct (List.filter _ _); cbn; auto.
Qed.

Lemma events_of_app a tr1 tr2 :
  events_of a (tr1 ++ tr2) = events_of a tr1 ++ events_of a tr2.
Proof. unfold events_of. rewrite List.filter_app, map_app. reflexivity. Qed.

Lemma events_of_same a ev : events_of a (map (pair a) ev) = ev.
Proof.
  unfold events_of. induction ev as [|e ev IH]; simpl; [reflexivity|].
  rewrite String.eqb_refl. simpl. congruence.
Qed.

Lemma events_of_other a b ev : a <> b -> events_of a (map (pair b) ev) = [].
Proof.
  intros Hne. unfold events_of. induction ev as [|e ev IH]; simpl; [reflexivity|].
  destruct (String.eqb_spec b a); [congruence|assumption].
Qed.

Lemma events_of_absent a tr :
  (forall e, ~ In (a, e) tr) -> events_of a tr = [].
Proof.
  unfold events_of. induction tr as [|[b e] tr IH]; simpl; [reflexivity|].
  intros H. destruct (String.eqb_spec b a) as [->|Hne].
  - exfalso. apply (H e). left. reflexivity.
  - apply IH. intros e' Hin. apply (H e'). right. assumption.
Qed.

Lemma filter_none {A} (f : A -> bool) l :
  Forall (fun x => f x = false) l -> List.filter f l = [].
Proof. induction 1 as [|x l Hx _ IH]; simpl; [reflexivity|]. rewrite Hx. assumption. Qed.

Lemma main_loop_absent tgts w a :
  ~ In a (map fst tgts) ->
  events_of a (main_loop tgts w).2 = [] /\
  List.filter (fun r : record => String.eqb r.1.1 a) (main_loop tgts w).1.1 = [].
Proof.
  intros Hnin. split.
  - apply events_of_absent. intros e Hin.
    apply main_loop_trace_assets in Hin as (cfg & Hin & _).
    apply Hnin, in_map_iff. exists (a, cfg). auto.
  - pose proof (main_loop_records check_output run deployments SCALEX_ROUTER PRIVATE_KEY tgts w)
      as Hrec.
    assert (Hall : Forall (fun r : record => r.1.1 <> a) (main_loop tgts w).1.1).
    { apply List.Forall_forall. intros r Hr Heq. apply Hnin.
      assert (Hin : In r.1.1 (map (fun r : record => r.1.1) (main_loop tgts w).1.1))
        by (apply (in_map (fun r : record => r.1.1)); assumption).
      rewrite Hrec, Heq in Hin. apply in_map_iff in Hin as ([a' c] & <- & Hf).
      apply filter_In in Hf as [Hf _]. apply in_map_iff. exists (a', c). auto. }
    apply filter_none. eapply Forall_impl; [exact Hall|].
    intros r Hr. apply String.eqb_neq. assumption.
Qed.

Lemma process_records_asset asset cfg w :
  Forall (fun r : record => r.1.1 = asset) (process asset cfg w).1.1.
Proof.
  destruct (attempted (asset, cfg)) eqn:Hat.
  - destruct (process_one check_output run deployments SCALEX_ROUTER PRIVATE_KEY
                asset cfg w Hat) as (st & amount & ->).
    repeat constructor.
  - rewrite process_skip by assumption. constructor.
Qed.

Lemma filter_all {A} (f : A -> bool) l : Forall (fun x => f x = true) l -> List.filter f l = l.
Proof. induction 1 as [|x l Hx _ IH]; simpl; [reflexivity|]. rewrite Hx, IH. reflexivity. Qed.

(** With distinct keys, what a run holds of an asset is what the
    iteration of that asset did. *)
Lemma main_loop_asset tgts : forall w asset cfg,
  NoDup (map fst tgts) -> In (asset, cfg) tgts ->
  exists w0,
    events_of asset (main_loop tgts w).2 = (process asset cfg w0).2 /\
    List.filter (fun r : record => String.eqb r.1.1 asset) (main_loop tgts w).1.1
      = (process asset cfg w0).1.1.
Proof.
  induction tgts as [|[a c] rest IH]; intros w asset cfg Hnd Hin; [destruct Hin|].
  cbn [map fst] in Hnd. apply NoDup_cons in Hnd as [Ha Hnd].
  rewrite list_elem_of_In in Ha. cbn [Script.main_loop].
  pose proof (process_records_asset a c w) as Hrs.
  destruct (process a c w) as [[rs w1] ev] eqn:Ep. cbn [fst snd] in Hrs.
  destruct Hin as [[= -> ->]|Hin].
  - destruct (main_loop_absent rest w1 asset Ha) as [He Hr].
    destruct (main_loop rest w1) as [[rs' w2] tr']. cbn [fst snd] in *.
    exists w. rewrite Ep. cbn [fst snd].
    rewrite events_of_app, events_of_same, He, app_nil_r.
    rewrite List.filter_app, Hr, app_nil_r. split; [reflexivity|].
    apply filter_all. eapply Forall_impl; [exact Hrs|].
    intros r ->. apply String.eqb_refl.
  - assert (Hne : asset <> a).
    { intros ->. apply Ha, in_map_iff. exists (a, cfg). auto. }
    destruct (IH w1 asset cfg Hnd Hin) as (w0 & He & Hr). exists w0.
    destruct (main_loop rest w1) as [[rs' w2] tr']. cbn [fst snd] in *.
    rewrite events_of_app, events_of_other, He by assumption.
    rewrite List.filter_app, Hr. split; [reflexivity|].
    rewrite (filter_none _ rs); [reflexivity|].
    eapply Forall_impl; [exact Hrs|]. intros r ->. apply String.eqb_neq. congruence.
Qed.

Lemma lines_of_summary asset rs :
  lines_of asset (summary rs)
  = summary (List.filter (fun r : record => String.eqb r.1.1 asset) rs).
Proof.
  unfold lines_of, summary. induction rs as [|[[a st] x] rs IH]; simpl; [reflexivity|].
  replace (line_asset _) with a by (destruct st; reflexivity).
  destruct (String.eqb a asset); simpl; congruence.
Qed.

(** X8: the processes of one asset, in order: the two reads of its own
    token, then at most one borrow of a positive amount. *)
Theorem asset_trace_shape tgts w asset :
  NoDup (map fst tgts) ->
  let ev := events_of asset (main tgts w).2 in
  ev = [] \/
  exists token,
    resolve asset = Some token /\
    (ev = [read_liquidity token] \/
     ev = [read_liquidity token; read_borrowed token] \/
     exists amount,
       0 < amount /\
       ((PRIVATE_KEY = None /\
         ev = [read_liquidity token; read_borrowed token; CallBorrow token amount]) \/
        exists key,
          PRIVATE_KEY = Some key /\
          ev = [read_liquidity token; read_borrowed token; CallBorrow token amount;
                Spawn (send_argv key token amount)])).
Proof.
  intros Hnd. cbv zeta. rewrite main_trace.
  destruct (in_dec string_dec asset (map fst tgts)) as [Hin|Hnin].
  2:{ left. apply main_loop_absent. assumption. }
  apply in_map_iff in Hin as ([a cfg] & <- & Hin). cbn [fst].
  destruct (main_loop_asset tgts w a cfg Hnd Hin) as (w0 & -> & _).
  destruct (process_cases a cfg w0) as [[_ ->]|(token & Hres & Hc)]; [left; reflexivity|].
  right. exists token. split; [assumption|]. cbv zeta in Hc.
  destruct Hc as [[_ [->| ->]]|[[_ ->]|(amount & x & Hpos & Hc)]]; auto.
  right. right. exists amount. split; [assumption|].
  destruct Hc as [(_ & Hk & ->)|(key & Hk & _ & ->)]; [left; auto|right; eauto].
Qed.

(** X9: each line of the summary is backed by what the run did for its
    asset: a borrow is reported only after the transaction was sent, a
    failure only after the borrow was entered, and an asset at its target
    or in error had no borrow at all. *)
Theorem summary_line_events tgts w :
  NoDup (map fst tgts) ->
  Forall (fun l =>
            let ev := events_of (line_asset l) (main tgts w).2 in
            lines_of (line_asset l) (main tgts w).1.1 = [l] /\
            exists token,
              resolve (line_asset l) = Some token /\
              match l with
              | Borrowed _ _ =>
                  exists key amount,
                    0 < amount /\ PRIVATE_KEY = Some key /\
                    ev = [read_liquidity token; read_borrowed token;
                          CallBorrow token amount; Spawn (send_argv key token amount)]
              | FailedToBorrow _ _ =>
                  exists amount rest,
                    0 < amount /\
                    ev = read_liquidity token :: read_borrowed token
                         :: CallBorrow token amount :: rest
              | AlreadyAtTarget _ => ev = [read_liquidity token; read_borrowed token]
              | ErrorOccurred _ =>
                  ev = [read_liquidity token] \/
                  ev = [read_liquidity token; read_borrowed token]
              end)
         (main tgts w).1.1.
Proof.
  intros Hnd. apply List.Forall_forall. intros l Hl. cbv zeta.
  assert (Hin : In (line_asset l) (map fst tgts)).
  { assert (H : In (line_asset l) (map line_asset (main tgts w).1.1))
      by (apply (in_map line_asset); assumption).
    rewrite main_lines, summary_assets, main_loop_records in H.
    apply in_map_iff in H as ([a c] & <- & Hf).
    apply filter_In in Hf as [Hf _]. apply in_map_iff. exists (a, c). auto. }
  apply in_map_iff in Hin as ([a cfg] & Ea & Hin). cbn [fst] in Ea.
  destruct (main_loop_asset tgts w a cfg Hnd Hin) as (w0 & He & Hr).
  assert (Hlof : lines_of a (main tgts w).1.1 = summary (process a cfg w0).1.1).
  { rewrite main_lines, lines_of_summary, Hr. reflexivity. }
  assert (Hmem : In l (lines_of a (main tgts w).1.1)).
  { apply filter_In. split; [assumption|]. rewrite Ea. apply String.eqb_refl. }
  rewrite <- Ea in *. rewrite main_trace, He. rewrite Hlof in Hmem |- *.
  destruct (process_cases a cfg w0) as [[_ Ep]|(token & Hres & Hc)].
  { rewrite Ep in Hmem. destruct Hmem. }
  cbv zeta in Hc.
  destruct Hc as [[Ers Hev]|[[Ers Hev]|(amount & x & Hpos & Hc)]].
  - rewrite Ers in *. destruct Hmem as [<-|[]]. split; [reflexivity|].
    exists token. split; [assumption|]. exact Hev.
  - rewrite Ers in *. destruct Hmem as [<-|[]]. split; [reflexivity|].
    exists token. split; [assumption|]. exact Hev.
  - destruct Hc as [(Ers & Hk & Hev)|(key & Hk & [Ers|Ers] & Hev)];
      rewrite Ers in *; destruct Hmem as [<-|[]]; (split; [reflexivity|]);
      exists token; (split; [assumption|]); rewrite Hev; eauto 6.
Qed.

(** X10: a run over two lists of assets is the run over the first, then
    the run over the second from the world the first left: the summaries
    and the traces follow each other. *)
Theorem main_app l1 l2 w :
  let r1 := main l1 w in
  let r2 := main l2 r1.1.2 in
  main (l1 ++ l2) w = (r1.1.1 ++ r2.1.1, r2.1.2, r1.2 ++ r2.2).
Proof.
  cbv zeta. unfold Script.main. rewrite main_loop_app.
  destruct (main_loop l1 w) as [[rs1 w1] tr1]. cbn [fst snd].
  destruct (main_loop l2 w1) as [[rs2 w2] tr2]. cbn [fst snd].
  unfold summary. rewrite map_app. reflexivity.
Qed.

(** X11: a run starts no process exactly when it attempts no asset, and
    then it leaves the world as it was and prints an empty summary. *)
Theorem idle_run tgts w :
  ((main tgts w).2 = [] <-> List.filter attempted tgts = []) /\
  (List.filter attempted tgts = [] -> main tgts w = ([], w, [])).
Proof.
  assert (Hidle : forall w, List.filter attempted tgts = [] -> main_loop tgts w = ([], w, [])).
  { induction tgts as [|[a c] rest IH]; intros w0 H; [reflexivity|]. simpl in H |- *.
    destruct (attempted (a, c)) eqn:Hat; [discriminate|].
    rewrite process_skip by assumption. rewrite IH by assumption. reflexivity. }
  split; [split|].
  - intros Htr. destruct (List.filter attempted tgts) as [|[a c] t] eqn:Hf; [reflexivity|].
    exfalso.
    assert (Hin : In (a, c) (List.filter attempted tgts)) by (rewrite Hf; left; reflexivity).
    apply filter_In in Hin as [Hin Hat].
    unfold Script.attempted in Hat. cbn [fst snd] in Hat.
    apply andb_true_iff in Hat as [Hst Hres]. apply negb_true_iff in Hst.
    destruct (resolve a) as [token|] eqn:Er; [|discriminate].
    pose proof (main_loop_reads check_output run deployments SCALEX_ROUTER PRIVATE_KEY
                  tgts w a c token Hin Hst Er) as Hr.
    rewrite <- main_trace, Htr in Hr. destruct Hr.
  - intros H. rewrite main_trace, Hidle by assumption. reflexivity.
  - intros H. unfold Script.main. rewrite Hidle by assumption. reflexivity.
Qed.

(** X12: on a pool state of 256 bits the calculation of an asset with a
    target between 0 and 100 and at most 308 decimals does not raise:
    its record is not an error. *)
Theorem error_only_from_read asset cfg token w l b :
  String.eqb (status cfg) "achieved" = false ->
  resolve asset = Some token ->
  valid_binary Py.prec Py.emax (util cfg) = true ->
  SFleb (Py.literal 0 0) (util cfg) = true ->
  SFleb (util cfg) (Py.literal 100 0) = true ->
  (decimals cfg <= 308)%N ->
  (get_pool_state token w).1.1 = Ok (l, b) ->
  0 <= l < 2 ^ 256 -> 0 <= b < 2 ^ 256 ->
  exists st amount,
    (process asset cfg w).1.1 = [(asset, st, amount)] /\ st <> error.
Proof.
  intros Hst Hres Hv H0 H100 HD Hget Hl Hb.
  destruct (nonneg_of_range _ Hv H0 H100) as [HT HT100].
  destruct (PlanFacts.plan_total l b (util cfg) (decimals cfg) Hl Hb HT HT100 HD)
    as (p & Ep & _).
  unfold Script.resolve, Script.process in *. rewrite Hst.
  destruct (deployments !! asset) as [[|a s]|]; try discriminate.
  injection Hres as <-.
  destruct (get_pool_state _ w) as [[state w1] ev1]. cbn [fst snd] in Hget. subst state.
  cbn [rbind]. rewrite Ep.
  destruct (additional_borrow_raw p >? 0).
  - destruct (borrow_asset _ _ w1) as [[[ok diag] w2] ev2].
    destruct ok; cbn; eexists _, _; (split; [reflexivity|discriminate]).
  - cbn. eexists _, _. split; [reflexivity|discriminate].
Qed.

(** X6: a pool-state read raises what the tool raised, an [IndexError]
    on a blank output, or a [ValueError] on an output that is not a
    numeral; it returns only after both reads. *)
Theorem get_pool_state_outcome token w :
  match (get_pool_state token w).1.1 with
  | Ok _ => (get_pool_state token w).2 = [read_liquidity token; read_borrowed token]
  | Err e =>
      (exists argv w0, In (Spawn argv) (get_pool_state token w).2 /\
                       (check_output argv w0).1 = Err e) \/
      exn_cls e = IndexError \/ exn_cls e = ValueError
  end.
Proof.
  unfold Script.get_pool_state, read_liquidity, read_borrowed.
  destruct (check_output _ w) as [out1 w1] eqn:E1.
  destruct out1 as [out1|e1]; cbn [rbind].
  2:{ cbn. left. eexists _, w. split; [left; reflexivity|]. rewrite E1. reflexivity. }
  destruct (Str.first_field out1) as [f1|e1] eqn:F1.
  2:{ cbn. right. left. unfold Str.first_field in F1.
      destruct (Str.take_word _); [injection F1 as <-; reflexivity|discriminate]. }
  destruct (check_output _ w1) as [out2 w2] eqn:E2.
  destruct out2 as [out2|e2]; cbn [rbind].
  2:{ cbn. left. eexists _, w1. split; [right; left; reflexivity|]. rewrite E2. reflexivity. }
  destruct (Str.first_field out2) as [f2|e2] eqn:F2.
  2:{ cbn. right. left. unfold Str.first_field in F2.
      destruct (Str.take_word _); [injection F2 as <-; reflexivity|discriminate]. }
  cbn [fst snd].
  assert (Hint : forall s e, Str.to_int s = Err e -> exn_cls e = ValueError).
  { intros s e. unfold Str.to_int. destruct (match s with EmptyString => _ | _ => _ end);
      [discriminate|intros [= <-]; reflexivity]. }
  destruct (Str.to_int f1) as [l|e] eqn:T1; cbn [rbind]; [|right; right; eauto].
  destruct (Str.to_int f2) as [b|e] eqn:T2; cbn [rbind]; [reflexivity|right; right; eauto].
Qed.

Lemma process_event_ok asset cfg w :
  Forall (event_ok asset) (process asset cfg w).2.
Proof.
  destruct (process_cases asset cfg w) as [[_ ->]|(token & Hres & Hc)]; [constructor|].
  cbv zeta in Hc.
  assert (H1 : event_ok asset (read_liquidity token)) by (exists token; auto).
  assert (H2 : event_ok asset (read_borrowed token)) by (exists token; auto).
  destruct Hc as [[_ [->| ->]]|[[_ ->]|(amount & x & Hpos & Hc)]];
    try (repeat constructor; assumption).
  assert (H3 : event_ok asset (CallBorrow token amount)).
  { exists token. split; [assumption|]. right. right. exists amount. auto. }
  destruct Hc as [(_ & _ & ->)|(key & Hk & _ & ->)]; repeat constructor; try assumption.
  exists token. split; [assumption|]. right. right. exists amount. eauto.
Qed.

Lemma main_event_ok tgts w :
  Forall (fun ae : string * event => event_ok ae.1 ae.2) (main tgts w).2.
Proof.
  rewrite main_trace. revert w.
  induction tgts as [|[a c] rest IH]; intros w; simpl; [constructor|].
  pose proof (process_event_ok a c w) as Hp.
  destruct (process a c w) as [[rs w1] ev].
  specialize (IH w1). destruct (main_loop rest w1) as [[rs' w2] tr']. cbn [fst snd] in *.
  apply Forall_app. split; [|assumption].
  apply Forall_fmap. eapply Forall_impl; [exact Hp|]. auto.
Qed.

End RunMore.

(** X13: every process of a run is a read of the pool of an asset's own
    token or a borrow of a positive amount of that token, sent to the
    router the deployments name and signed with the key of the
    environment. *)
Theorem script_processes {W : Type}
    (check_output : list string -> W -> result string * W)
    (run : list string -> W -> result (string * string) * W)
    (deployments env : gmap string string)
    (tgts : list (string * config)) (w : W) :
  Forall (fun ae : string * event =>
            match ae.2 with
            | Spawn argv =>
                exists token,
                  Script.resolve deployments ae.1 = Some token /\
                  (argv = Script.call_argv "totalLiquidity(address)(uint256)" token \/
                   argv = Script.call_argv "totalBorrowed(address)(uint256)" token \/
                   exists router key amount,
                     deployments !! "ScaleXRouter" = Some router /\
                     env !! "PRIVATE_KEY" = Some key /\
                     0 < amount /\
                     argv = Script.send_argv router key token amount)
            | CallBorrow _ amount => 0 < amount
            end)
         (script check_output run deployments env tgts w).2.
Proof.
  unfold script. destruct (deployments !! "ScaleXRouter") as [router|] eqn:Er;
    [|constructor].
  pose proof (main_event_ok check_output run deployments router
                (env !! "PRIVATE_KEY") tgts w) as H.
  destruct (Script.main _ _ _ _ _ tgts w) as [[lines w'] tr]. cbn [fst snd] in *.
  eapply Forall_impl; [exact H|]. intros [a e] (token & Hres & Hc). cbn [fst snd] in *.
  unfold Trace.read_liquidity, Trace.read_borrowed in Hc.
  destruct Hc as [->|[->|(amount & Hpos & [->|(key & Hk & ->)])]]; cbn.
  - exists token. auto.
  - exists token. auto.
  - assumption.
  - exists token. split; [assumption|]. right. right. exists router, key, amount. auto.
Qed.

(** ** The calculation *)

Module OrderFacts.
Import Round RoundFacts.

(** The order of the format, back to the comparison of floats. *)
Lemma lex_SFleb f f' :
  nonneg f -> nonneg f' -> lex_le (pair_of f) (pair_of f') -> SFleb f f' = true.
Proof.
  intros Hf Hf'. pose proof (nonneg_canon f Hf) as [(_ & Hemin & _) _].
  pose proof (nonneg_canon f' Hf') as [(_ & Hemin' & _) _].
  destruct f as [s|s| |[|] m e], f' as [s'|s'| |[|] m' e']; cbn [nonneg] in *; try tauto;
    cbn [pair_of fst snd] in *; unfold SFleb, lex_le; cbn [SFcompare fst snd].
  all: intros H; try reflexivity; try (exfalso; lia).
  destruct (Z.compare_spec e e') as [E|E|E]; try reflexivity; try lia.
  change (Pos.compare_cont Eq m m') with (Pos.compare m m').
  destruct (Pos.compare_spec m m'); try reflexivity. lia.
Qed.

End OrderFacts.

Import OrderFacts.

(** X14: the computed target lies between 0 and the computed liquidity,
    and the computed borrowed amount is not above the computed liquidity
    when the borrowed amount is not above the liquidity. *)
Theorem target_within_liquidity L B T D p :
  0 <= L < 2 ^ 256 -> 0 <= B < 2 ^ 256 ->
  valid_binary Py.prec Py.emax T = true ->
  SFleb (Py.literal 0 0) T = true -> SFleb T (Py.literal 100 0) = true ->
  compute_plan L B T D = Ok p ->
  SFleb Py.fzero (target_borr p) = true /\
  SFleb (target_borr p) (total_liq_float p) = true /\
  (B <= L -> SFleb (total_borr_float p) (total_liq_float p) = true).
Proof.
  intros HL HB Hv H0 H100 Ep.
  destruct (nonneg_of_range T Hv H0 H100) as [HT HT100].
  pose proof (scale_pos D) as HP.
  destruct (int_truediv_nonneg L _ ltac:(lia) HP (uint256_digits L HL))
    as (lf & El & Hlf & _).
  destruct (int_truediv_nonneg B _ ltac:(lia) HP (uint256_digits B HB))
    as (bf & Eb & Hbf & _).
  destruct (compute_plan_steps L B T D lf bf El Eb) as (cu & _ & E).
  rewrite E in Ep. clear E. cbv zeta in Ep.
  destruct (ratio_le_one T HT HT100) as [Hr Hr1].
  destruct (SFmul_le lf _ Hlf Hr Hr1) as [Htb Htblf].
  fold (Py.float_mul lf (SFdiv prec emax T c100)) in Htb, Htblf.
  set (tb := Py.float_mul lf (SFdiv prec emax T c100)) in *.
  assert (Hp : target_borr p = tb /\ total_liq_float p = lf /\ total_borr_float p = bf).
  { destruct (rbind (Py.num_mul_int _ _) _) as [q|e] eqn:Eq; [|discriminate].
    revert Eq. destruct (Py.num_mul_int _ _) as [sc|e]; [|discriminate]. cbn [rbind].
    destruct (Py.int_of_num sc) as [raw|e]; [|discriminate]. cbn [rbind].
    intros [= <-]. injection Ep as <-. auto. }
  destruct Hp as (-> & -> & ->).
  split; [|split].
  - apply lex_SFleb; [exact I|assumption|]. apply lex_le_zero.
    apply nonneg_canon. assumption.
  - apply lex_SFleb; assumption.
  - intros HBL. apply lex_SFleb; try assumption.
    apply (int_truediv_mono B L (10 ^ Z.of_N D) bf lf); try assumption; try lia.
    apply uint256_digits; assumption.
Qed.

(** X15: once the amount the calculation returns is borrowed, the
    calculation on the new pool state returns at most one smallest unit
    and the rounding of the double arithmetic: a second run does not
    borrow the difference again. *)
Theorem second_calculation_borrows_dust L B T D p :
  0 <= L < 2 ^ 256 -> 0 <= B < 2 ^ 256 ->
  valid_binary Py.prec Py.emax T = true ->
  SFleb (Py.literal 0 0) T = true -> SFleb T (Py.literal 100 0) = true ->
  (D <= 308)%N ->
  compute_plan L B T D = Ok p ->
  B + additional_borrow_raw p < 2 ^ 256 ->
  exists p',
    compute_plan L (B + additional_borrow_raw p) T D = Ok p' /\
    0 <= additional_borrow_raw p' /\
    (inject_Z (additional_borrow_raw p')
     <= 1 + 2 * (inject_Z L + inject_Z (B + additional_borrow_raw p) + 1) * Exact.eps)%Q.
Proof.
  intros HL HB Hv H0 H100 HD Ep Hsum.
  destruct (nonneg_of_range T Hv H0 H100) as [HT HT100].
  destruct (plan_total L B T D HL HB HT HT100 HD) as (p0 & Ep0 & Hraw & _).
  rewrite Ep in Ep0. injection Ep0 as <-.
  set (raw := additional_borrow_raw p) in *.
  assert (HB' : 0 <= B + raw < 2 ^ 256) by lia.
  destruct (plan_total L (B + raw) T D HL HB' HT HT100 HD) as (p' & Ep' & Hraw' & _).
  exists p'. split; [assumption|]. split; [assumption|].
  pose proof (AccuracyFacts.plan_accuracy L B T D p HL HB HT HT100 HD Ep) as [H1 _].
  pose proof (AccuracyFacts.plan_accuracy L (B + raw) T D p' HL HB' HT HT100 HD Ep')
    as [_ H2].
  cbv zeta in H1, H2. fold raw in H1. rewrite inject_Z_plus in *.
  set (t := (Exact.value T * inject_Z L / 100)%Q) in *.
  assert (Hr : (0 <= inject_Z raw)%Q) by (rewrite <- (Zle_Qle 0); assumption).
  assert (HLq : (0 <= inject_Z L)%Q) by (rewrite <- (Zle_Qle 0); lia).
  assert (HBq : (0 <= inject_Z B)%Q) by (rewrite <- (Zle_Qle 0); lia).
  unfold Exact.eps in *.
  destruct (Qlt_le_dec (t - inject_Z B) 0) as [Hx|Hx].
  - rewrite (Q.max_l 0 (t - (inject_Z B + inject_Z raw))%Q) in H2 by lra. lra.
  - rewrite (Q.max_r 0 (t - inject_Z B)%Q) in H1 by lra.
    destruct (Qlt_le_dec (t - (inject_Z B + inject_Z raw)) 0) as [Hy|Hy].
    + rewrite (Q.max_l 0 (t - (inject_Z B + inject_Z raw))%Q) in H2 by lra. lra.
    + rewrite (Q.max_r 0 (t - (inject_Z B + inject_Z raw))%Q) in H2 by lra. lra.
Qed.

Section Reported.
Import Exact ExactFacts.

(** X16: the amount of the record and of the summary, a float in whole
    units, is the amount submitted, in smallest units: scaled by
    [10^decimals] it differs from it by less than one smallest unit and
    the rounding of the scale and of one product. *)
Theorem reported_amount_matches L B T D p :
  0 <= L < 2 ^ 256 -> 0 <= B < 2 ^ 256 ->
  valid_binary Py.prec Py.emax T = true ->
  SFleb (Py.literal 0 0) T = true -> SFleb T (Py.literal 100 0) = true ->
  (D <= 308)%N ->
  compute_plan L B T D = Ok p ->
  match additional_borrow p with
  | Py.Int z => z = 0 /\ additional_borrow_raw p = 0
  | Py.Float d =>
      Py.float_gt0 d = true /\
      (let x := value d * inject_Z (10 ^ Z.of_N D) in
       x * (1 - 3 * u) - 1 - tiny <= inject_Z (additional_borrow_raw p)
       <= x * (1 + 3 * u) + tiny)%Q
  end.
Proof.
  intros HL HB Hv H0 H100 HD Ep.
  destruct (nonneg_of_range T Hv H0 H100) as [HT HT100].
  pose proof (scale_pos D) as HP. set (P := 10 ^ Z.of_N D) in *.
  destruct (int_truediv_nonneg L P ltac:(lia) HP (uint256_digits L HL))
    as (lf & El & Hlf & Helf).
  destruct (int_truediv_nonneg B P ltac:(lia) HP (uint256_digits B HB))
    as (bf & Eb & Hbf & Hebf).
  destruct (compute_plan_steps L B T D lf bf El Eb) as (cu & _ & E). rewrite E in Ep.
  clear E. cbv zeta in Ep.
  destruct (ratio_le_one T HT HT100) as [Hr Hr1].
  destruct (SFmul_le lf _ Hlf Hr Hr1) as [Htb Htblf].
  fold (Py.float_mul lf (SFdiv prec emax T c100)) in Htb, Htblf.
  set (tb := Py.float_mul lf (SFdiv prec emax T c100)) in *.
  destruct (SFsub_nonneg tb bf Htb Hbf) as [_ Hgt].
  fold (Py.float_sub tb bf) in Hgt.
  destruct (Py.float_gt0 (Py.float_sub tb bf)) eqn:Egt.
  2:{ rewrite no_borrow in Ep by assumption. injection Ep as <-.
      cbn [additional_borrow additional_borrow_raw]. auto. }
  destruct (float_of_int_scale D HD) as (mP & eP & EP & HbP & HeP & HdP).
  fold P in EP, HeP, HdP.
  pose proof (Zdigits2_pos P HP) as HdP0.
  assert (Hdl : Zdigits2 L <= 256) by (apply Zdigits2_lt_pow; lia).
  assert (Helf' : (pair_of lf).2 <= Z.max (Zdigits2 L - Zdigits2 P - 52) (-1074) + 1)
    by (rewrite fexp_eq in Helf; lia).
  assert (Hetb : (pair_of tb).2 <= (pair_of lf).2)
    by (unfold lex_le in Htblf; lia).
  destruct (Hgt eq_refl ltac:(unfold Py.emax, Py.prec; lia)) as (Hd & Hed & md & ed & Ed).
  pose proof (float_of_int_near P _ HP EP HbP) as VP.
  unfold Py.max0 in Ep. rewrite Egt in Ep. cbn [Py.num_mul_int] in Ep.
  unfold Py.float_mul_int in Ep. fold P in Ep. rewrite EP in Ep.
  cbn [rbind Py.int_of_num] in Ep.
  set (d := Py.float_sub tb bf) in *.
  assert (Hprod : nonneg (Py.float_mul d (S754_finite false mP eP))).
  { rewrite Ed in *. unfold Py.float_mul. rewrite SFmul_pos.
    cbn [pair_of snd nonneg] in Hd, Hed.
    apply bounded_canon in Hd as [Hcd _]. apply bounded_canon in HbP as [HcP _].
    pose proof (mul_pair_canon md ed mP eP Hcd HcP) as Hcm.
    pose proof (mul_pair_exp md ed mP eP Hcd HcP) as He.
    pose proof (canon_digits md ed Hcd). pose proof (canon_digits mP eP HcP).
    rewrite fexp_eq in He.
    apply (encode_finite _ Hcm). unfold Py.emax, Py.prec. lia. }
  pose proof (SFmul_near d (S754_finite false mP eP) Hd HbP Hprod) as Vprod.
  fold (Py.float_mul d (S754_finite false mP eP)) in Vprod.
  set (prod := Py.float_mul d (S754_finite false mP eP)) in *.
  destruct (Py.int_of_float prod) as [z|] eqn:Ez; [|discriminate].
  cbn [rbind] in Ep. injection Ep as <-. cbn [additional_borrow additional_borrow_raw].
  split; [assumption|].
  pose proof (int_of_float_floor prod z Hprod Ez) as Hz.
  rewrite <- (value_magnitude d Hd) in Vprod.
  pose proof (magnitude_nonneg d Hd) as Hd0. rewrite <- (value_magnitude d Hd) in Hd0.
  pose proof (magnitude_nonneg (S754_finite false mP eP) HbP) as HPf0.
  assert (HqP : (1 <= inject_Z P)%Q) by (rewrite <- (Zle_Qle 1); lia).
  pose proof eta_tiny as Heta.
  set (vd := value d) in *. set (qP := inject_Z P) in *.
  set (Pf := magnitude (S754_finite false mP eP)) in *.
  set (vp := magnitude prod) in *.
  unfold near in VP, Vprod. cbv zeta.
  assert (A1 : (0 <= vd * qP)%Q) by (apply mul_nonneg; lra).
  assert (A2 : (vd * eta <= tiny * (vd * qP))%Q).
  { clear - Hd0 HqP Heta. unfold tiny in *. nra. }
  assert (A3 : (0 <= vd * eta)%Q) by (apply mul_nonneg; lra).
  pose proof (mul_le_mono vd vd Pf (qP * (1 + u) + eta) ltac:(lra) ltac:(lra)) as A4.
  pose proof (mul_nonneg vd Pf Hd0 HPf0) as A5.
  pose proof (mul_abs_l _ _ vd vd VP ltac:(lra)) as A6.
  unfold u, tiny in *. split; lra.
Qed.

End Reported.

(** ** Runs on the simulated chain *)

Import Trace.

Lemma get_pool_state_parses_witness :
  0 <= 100000000000000000000 < 2 ^ 256 /\ 0 <= 7000000000000000000 < 2 ^ 256 /\
  all_space "" = true /\ blank_start (String Str.newline "") = true /\
  Sim.check_output (Script.call_argv "totalLiquidity(address)(uint256)" "0xweth") Sim.genesis
    = (Ok ("" +:+ pretty 100000000000000000000 +:+ String Str.newline ""), Sim.genesis) /\
  Sim.check_output (Script.call_argv "totalBorrowed(address)(uint256)" "0xweth") Sim.genesis
    = (Ok ("" +:+ pretty 7000000000000000000 +:+ String Str.newline ""), Sim.genesis) /\
  Script.get_pool_state Sim.check_output "0xweth" Sim.genesis
    = (Ok (100000000000000000000, 7000000000000000000), Sim.genesis,
       [read_liquidity "0xweth"; read_borrowed "0xweth"]).
Proof.
  assert (H1 : 0 <= 100000000000000000000 < 2 ^ 256) by (split; [discriminate|reflexivity]).
  assert (H2 : 0 <= 7000000000000000000 < 2 ^ 256) by (split; [discriminate|reflexivity]).
  assert (H3 : all_space "" = true) by reflexivity.
  assert (H4 : blank_start (String Str.newline "") = true) by reflexivity.
  assert (H5 : Sim.check_output
                 (Script.call_argv "totalLiquidity(address)(uint256)" "0xweth") Sim.genesis
               = (Ok ("" +:+ pretty 100000000000000000000 +:+ String Str.newline ""),
                  Sim.genesis)) by (vm_compute; reflexivity).
  assert (H6 : Sim.check_output
                 (Script.call_argv "totalBorrowed(address)(uint256)" "0xweth") Sim.genesis
               = (Ok ("" +:+ pretty 7000000000000000000 +:+ String Str.newline ""),
                  Sim.genesis)) by (vm_compute; reflexivity).
  exact (conj H1 (conj H2 (conj H3 (conj H4 (conj H5 (conj H6
           (get_pool_state_parses Sim.check_output "0xweth" Sim.genesis _ _ _ _ _ _ _ _
              H1 H2 H3 H4 H3 H4 H5 H6))))))).
Defined.

Lemma receipt_is_first_line_witness :
  (Script.borrow_asset Sim.run "0xrouter" (Some "0xkey") "0xweth" 5 Sim.genesis).1.1
    = (true, "transactionHash      0x01") /\
  exists key stdout stderr w' pre post,
    Some "0xkey" = Some key /\
    Sim.run (Script.send_argv "0xrouter" key "0xweth" 5) Sim.genesis
      = (Ok (stdout, stderr), w') /\
    Str.split Str.newline stdout = pre ++ "transactionHash      0x01" :: post /\
    Forall (fun line => Str.contains "transactionHash" line = false) pre /\
    Str.contains "transactionHash" "transactionHash      0x01" = true /\
    Str.avoids Str.newline "transactionHash      0x01" = true.
Proof.
  assert (H : (Script.borrow_asset Sim.run "0xrouter" (Some "0xkey") "0xweth" 5
                 Sim.genesis).1.1 = (true, "transactionHash      0x01"))
    by (vm_compute; reflexivity).
  exact (conj H (receipt_is_first_line Sim.run "0xrouter" (Some "0xkey") "0xweth" 5
                   Sim.genesis _ H)).
Defined.

Lemma asset_trace_shape_witness :
  NoDup (map fst targets) /\
  let ev := events_of "WETH"
              (Script.main Sim.check_output Sim.run Sim.deployments "0xrouter" (Some "0xkey")
                           targets Sim.genesis).2 in
  ev = [] \/
  exists token,
    Script.resolve Sim.deployments "WETH" = Some token /\
    (ev = [read_liquidity token] \/
     ev = [read_liquidity token; read_borrowed token] \/
     exists amount,
       0 < amount /\
       ((Some "0xkey" = None /\
         ev = [read_liquidity token; read_borrowed token; CallBorrow token amount]) \/
        exists key,
          Some "0xkey" = Some key /\
          ev = [read_liquidity token; read_borrowed token; CallBorrow token amount;
                Spawn (Script.send_argv "0xrouter" key token amount)])).
Proof.
  exact (conj targets_keys_distinct
           (asset_trace_shape Sim.check_output Sim.run Sim.deployments "0xrouter"
              (Some "0xkey") targets Sim.genesis "WETH" targets_keys_distinct)).
Defined.

Lemma error_only_from_read_witness :
  let cfg := Config (Py.literal 3019 2) 18 "pending" in
  String.eqb (status cfg) "achieved" = false /\
  Script.resolve Sim.deployments "WETH" = Some "0xweth" /\
  valid_binary Py.prec Py.emax (util cfg) = true /\
  SFleb (Py.literal 0 0) (util cfg) = true /\
  SFleb (util cfg) (Py.literal 100 0) = true /\
  (decimals cfg <= 308)%N /\
  (Script.get_pool_state Sim.check_output "0xweth" Sim.genesis).1.1
    = Ok (100000000000000000000, 7000000000000000000) /\
  0 <= 100000000000000000000 < 2 ^ 256 /\ 0 <= 7000000000000000000 < 2 ^ 256 /\
  exists st amount,
    (Script.process Sim.check_output Sim.run Sim.deployments "0xrouter" (Some "0xkey")
                    "WETH" cfg Sim.genesis).1.1 = [("WETH", st, amount)] /\
    st <> error.
Proof.
  cbv zeta.
  assert (H1 : String.eqb (status (Config (Py.literal 3019 2) 18 "pending")) "achieved"
               = false) by reflexivity.
  assert (H2 : Script.resolve Sim.deployments "WETH" = Some "0xweth")
    by (vm_compute; reflexivity).
  assert (H3 : valid_binary Py.prec Py.emax (util (Config (Py.literal 3019 2) 18 "pending"))
               = true) by (vm_compute; reflexivity).
  assert (H4 : SFleb (Py.literal 0 0) (util (Config (Py.literal 3019 2) 18 "pending"))
               = true) by (vm_compute; reflexivity).
  assert (H5 : SFleb (util (Config (Py.literal 3019 2) 18 "pending")) (Py.literal 100 0)
               = true) by (vm_compute; reflexivity).
  assert (H6 : (decimals (Config (Py.literal 3019 2) 18 "pending") <= 308)%N)
    by discriminate.
  assert (H7 : (Script.get_pool_state Sim.check_output "0xweth" Sim.genesis).1.1
               = Ok (100000000000000000000, 7000000000000000000))
    by (vm_compute; reflexivity).
  assert (H8 : 0 <= 100000000000000000000 < 2 ^ 256) by (split; [discriminate|reflexivity]).
  assert (H9 : 0 <= 7000000000000000000 < 2 ^ 256) by (split; [discriminate|reflexivity]).
  exact (conj H1 (conj H2 (conj H3 (conj H4 (conj H5 (conj H6 (conj H7 (conj H8 (conj H9
           (error_only_from_read Sim.check_output Sim.run Sim.deployments "0xrouter"
              (Some "0xkey") "WETH" _ "0xweth" Sim.genesis _ _
              H1 H2 H3 H4 H5 H6 H7 H8 H9)))))))))).
Defined.

Lemma summary_line_events_witness :
  NoDup (map fst targets) /\
  Forall (fun l =>
            let ev := events_of (line_asset l)
                        (Script.main Sim.check_output Sim.run Sim.deployments "0xrouter"
                                     (Some "0xkey") targets Sim.genesis).2 in
            lines_of (line_asset l)
              (Script.main Sim.check_output Sim.run Sim.deployments "0xrouter"
                           (Some "0xkey") targets Sim.genesis).1.1 = [l] /\
            exists token,
              Script.resolve Sim.deployments (line_asset l) = Some token /\
              match l with
              | Borrowed _ _ =>
                  exists key amount,
                    0 < amount /\ Some "0xkey" = Some key /\
                    ev = [read_liquidity token; read_borrowed token;
                          CallBorrow token amount;
                          Spawn (Script.send_argv "0xrouter" key token amount)]
              | FailedToBorrow _ _ =>
                  exists amount rest,
                    0 < amount /\
                    ev = read_liquidity token :: read_borrowed token
                         :: CallBorrow token amount :: rest
              | AlreadyAtTarget _ => ev = [read_liquidity token; read_borrowed token]
              | ErrorOccurred _ =>
                  ev = [read_liquidity token] \/
                  ev = [read_liquidity token; read_borrowed token]
              end)
         (Script.main Sim.check_output Sim.run Sim.deployments "0xrouter"
                      (Some "0xkey") targets Sim.genesis).1.1.
Proof.
  exact (conj targets_keys_distinct
           (summary_line_events Sim.check_output Sim.run Sim.deployments "0xrouter"
              (Some "0xkey") targets Sim.genesis targets_keys_distinct)).
Defined.

Lemma target_within_liquidity_witness :
  exists p,
    0 <= 1000 < 2 ^ 256 /\ 0 <= 200 < 2 ^ 256 /\
    valid_binary Py.prec Py.emax (Py.literal 50 0) = true /\
    SFleb (Py.literal 0 0) (Py.literal 50 0) = true /\
    SFleb (Py.literal 50 0) (Py.literal 100 0) = true /\
    compute_plan 1000 200 (Py.literal 50 0) 0 = Ok p /\
    SFleb Py.fzero (target_borr p) = true /\
    SFleb (target_borr p) (total_liq_float p) = true /\
    (200 <= 1000 -> SFleb (total_borr_float p) (total_liq_float p) = true).
Proof.
  assert (H1 : 0 <= 1000 < 2 ^ 256) by (split; [discriminate|reflexivity]).
  assert (H2 : 0 <= 200 < 2 ^ 256) by (split; [discriminate|reflexivity]).
  assert (H3 : valid_binary Py.prec Py.emax (Py.literal 50 0) = true)
    by (vm_compute; reflexivity).
  assert (H4 : SFleb (Py.literal 0 0) (Py.literal 50 0) = true)
    by (vm_compute; reflexivity).
  assert (H5 : SFleb (Py.literal 50 0) (Py.literal 100 0) = true)
    by (vm_compute; reflexivity).
  destruct (compute_plan 1000 200 (Py.literal 50 0) 0) as [p|e] eqn:E;
    [|vm_compute in E; discriminate].
  exists p.
  exact (conj H1 (conj H2 (conj H3 (conj H4 (conj H5 (conj eq_refl
           (target_within_liquidity 1000 200 (Py.literal 50 0) 0 p
              H1 H2 H3 H4 H5 E))))))).
Defined.

Lemma second_calculation_borrows_dust_witness :
  exists p,
    0 <= 1000 < 2 ^ 256 /\ 0 <= 200 < 2 ^ 256 /\
    valid_binary Py.prec Py.emax (Py.literal 50 0) = true /\
    SFleb (Py.literal 0 0) (Py.literal 50 0) = true /\
    SFleb (Py.literal 50 0) (Py.literal 100 0) = true /\
    (0 <= 308)%N /\
    compute_plan 1000 200 (Py.literal 50 0) 0 = Ok p /\
    200 + additional_borrow_raw p < 2 ^ 256 /\
    exists p',
      compute_plan 1000 (200 + additional_borrow_raw p) (Py.literal 50 0) 0 = Ok p' /\
      0 <= additional_borrow_raw p' /\
      (inject_Z (additional_borrow_raw p')
       <= 1 + 2 * (inject_Z 1000 + inject_Z (200 + additional_borrow_raw p) + 1)
              * Exact.eps)%Q.
Proof.
  assert (H1 : 0 <= 1000 < 2 ^ 256) by (split; [discriminate|reflexivity]).
  assert (H2 : 0 <= 200 < 2 ^ 256) by (split; [discriminate|reflexivity]).
  assert (H3 : valid_binary Py.prec Py.emax (Py.literal 50 0) = true)
    by (vm_compute; reflexivity).
  assert (H4 : SFleb (Py.literal 0 0) (Py.literal 50 0) = true)
    by (vm_compute; reflexivity).
  assert (H5 : SFleb (Py.literal 50 0) (Py.literal 100 0) = true)
    by (vm_compute; reflexivity).
  assert (H6 : (0 <= 308)%N) by discriminate.
  destruct (compute_plan 1000 200 (Py.literal 50 0) 0) as [p|e] eqn:E;
    [|vm_compute in E; discriminate].
  assert (H7 : 200 + additional_borrow_raw p < 2 ^ 256).
  { vm_compute in E. injection E as <-. reflexivity. }
  exists p.
  exact (conj H1 (conj H2 (conj H3 (conj H4 (conj H5 (conj H6 (conj eq_refl (conj H7
           (second_calculation_borrows_dust 1000 200 (Py.literal 50 0) 0 p
              H1 H2 H3 H4 H5 H6 E H7))))))))).
Defined.

Lemma reported_amount_matches_witness :
  exists p,
    0 <= 1000 < 2 ^ 256 /\ 0 <= 200 < 2 ^ 256 /\
    valid_binary Py.prec Py.emax (Py.literal 50 0) = true /\
    SFleb (Py.literal 0 0) (Py.literal 50 0) = true /\
    SFleb (Py.literal 50 0) (Py.literal 100 0) = true /\
    (0 <= 308)%N /\
    compute_plan 1000 200 (Py.literal 50 0) 0 = Ok p /\
    match additional_borrow p with
    | Py.Int z => z = 0 /\ additional_borrow_raw p = 0
    | Py.Float d =>
        Py.float_gt0 d = true /\
        (let x := Exact.value d * inject_Z (10 ^ Z.of_N 0) in
         x * (1 - 3 * Exact.u) - 1 - Exact.tiny <= inject_Z (additional_borrow_raw p)
         <= x * (1 + 3 * Exact.u) + Exact.tiny)%Q
    end.
Proof.
  assert (H1 : 0 <= 1000 < 2 ^ 256) by (split; [discriminate|reflexivity]).
  assert (H2 : 0 <= 200 < 2 ^ 256) by (split; [discriminate|reflexivity]).
  assert (H3 : valid_binary Py.prec Py.emax (Py.literal 50 0) = true)
    by (vm_compute; reflexivity).
  assert (H4 : SFleb (Py.literal 0 0) (Py.literal 50 0) = true)
    by (vm_compute; reflexivity).
  assert (H5 : SFleb (Py.literal 50 0) (Py.literal 100 0) = true)
    by (vm_compute; reflexivity).
  assert (H6 : (0 <= 308)%N) by discriminate.
  destruct (compute_plan 1000 200 (Py.literal 50 0) 0) as [p|e] eqn:E;
    [|vm_compute in E; discriminate].
  exists p.
  exact (conj H1 (conj H2 (conj H3 (conj H4 (conj H5 (conj H6 (conj eq_refl
           (reported_amount_matches 1000 200 (Py.literal 50 0) 0 p
              H1 H2 H3 H4 H5 H6 E)))))))).
Defined.
